(** * A shallow embedding of [js/main.js]

    The portfolio page script fetches five JSON documents, writes markup
    built from them into fixed anchors of the host page and wires a few
    interaction controllers (scroll spy, project filter, project modal).

    Strings are byte strings (the UTF-8 encoding of the JavaScript text),
    the document is a store of element properties and class lists, and the
    script's statements are written in a small state-and-exception monad so
    that a property access on a missing element raises, as it does in the
    browser.

    The fetched documents are typed by the schema of the data files, so a
    document that arrives has the fields the render functions read; scroll
    offsets are integers; event listeners are the transition functions of
    the controllers, and registering one only needs its element.  What the
    browser does with assigned markup is modelled by a small tokenizer that
    tells text from tags. *)

From Stdlib Require Import ZArith Ascii String List Bool Lia.
From Stdlib Require Import Numbers.DecimalString.
From stdpp Require Import base option list strings gmap.

Local Open Scope string_scope.
Local Open Scope list_scope.

(** ** JavaScript strings *)

Definition nl : string := String "010"%char EmptyString.
Definition dq : string := String "034"%char EmptyString.

(** [q s] is [s] between double quotes, as in an attribute value. *)
Definition q (s : string) : string := dq +:+ s +:+ dq.

(** U+2022 BULLET, as its three UTF-8 bytes. *)
Definition bullet : string :=
  String "226"%char (String "128"%char (String "162"%char EmptyString)).

(** [Array.prototype.join('')]. *)
Fixpoint join (parts : list string) : string :=
  match parts with
  | [] => EmptyString
  | p :: ps => p +:+ join ps
  end.

(** A number of a document that is an integer which a JavaScript number
    holds exactly: at most [2^53] in absolute value. *)
Record SafeInteger := {
  int_value : Z;
  int_safe : (Z.abs int_value <=? 2 ^ 53)%Z = true
}.

(** Template interpolation of such a number, [`${n}`]: its decimal digits,
    after a minus sign when it is negative. *)
Definition Number_toString (n : SafeInteger) : string :=
  NilEmpty.string_of_int (Z.to_int (int_value n)).

(** Truthiness of an optional string field: [undefined] and the empty
    string are falsy. *)
Definition truthy (o : option string) : bool :=
  match o with
  | Some (String _ _) => true
  | _ => false
  end.

(** [a || b] on strings, where [a] may be missing. *)
Definition or_else (o : option string) (d : string) : string :=
  match o with
  | Some (String c s) => String c s
  | _ => d
  end.

(** The value interpolated for an optional field that passed its
    truthiness guard. *)
Definition the (o : option string) : string := or_else o EmptyString.

(** *** [encodeURIComponent]

    Every byte of the UTF-8 encoding is escaped as [%XX] except the
    unreserved characters [A-Z a-z 0-9 - _ . ! ~ * ' ( )]. *)

Definition is_upper (c : ascii) : bool :=
  let n := nat_of_ascii c in (65 <=? n)%nat && (n <=? 90)%nat.
Definition is_lower (c : ascii) : bool :=
  let n := nat_of_ascii c in (97 <=? n)%nat && (n <=? 122)%nat.
Definition is_digit (c : ascii) : bool :=
  let n := nat_of_ascii c in (48 <=? n)%nat && (n <=? 57)%nat.
Definition is_alpha (c : ascii) : bool := is_upper c || is_lower c.

Definition is_mark (c : ascii) : bool :=
  existsb (Ascii.eqb c)
    ["-"; "_"; "."; "!"; "~"; "*"; "'"; "("; ")"]%char.

Definition uri_unreserved (c : ascii) : bool :=
  is_alpha c || is_digit c || is_mark c.

Definition hex_digit (n : nat) : ascii :=
  if (n <? 10)%nat then ascii_of_nat (48 + n) else ascii_of_nat (55 + n).

Definition percent_byte (c : ascii) : string :=
  let n := nat_of_ascii c in
  String "%"%char
    (String (hex_digit (n / 16)) (String (hex_digit (n mod 16)) EmptyString)).

Fixpoint encodeURIComponent (s : string) : string :=
  match s with
  | EmptyString => EmptyString
  | String c s' =>
      (if uri_unreserved c then String c EmptyString else percent_byte c)
        +:+ encodeURIComponent s'
  end.

(** *** [Set]

    [new Set(iterable)] adds the items one by one; an item already in the
    set is not added again, and iteration ([...set]) follows insertion
    order. *)

Definition Set_add (set : list string) (x : string) : list string :=
  if bool_decide (x ∈ set) then set else set ++ [x].

Definition new_Set (items : list string) : list string :=
  fold_left Set_add items [].

(** [Array.prototype.slice(start, end)] for non-negative bounds. *)
Definition slice {A} (start stop : nat) (l : list A) : list A :=
  take (stop - start) (drop start l).

(** ** The data model: the fetched documents *)

Record Stat := { value : string; label : string }.

Record About := { summary : string; about_description : string; cta : string }.

Record Social := {
  email : option string;
  whatsapp : option string;
  linkedin : option string;
  github : option string;
  instagram : option string
}.

Record Profile := {
  name : string;
  tagline : string;
  roles : list string;
  avatar : string;
  about : About;
  stats : list Stat;
  cv : string;
  social : Social
}.

Record Skill := { skill_name : string; level : SafeInteger }.

Record SkillCategory := {
  cat_name : string;
  cat_icon : string;
  cat_skills : list Skill
}.

Record Skills := { categories : list SkillCategory }.

Record ExperienceEntry := {
  period : string;
  role : string;
  company : string;
  exp_description : string;
  exp_highlights : list string
}.

Record Experience := { experiences : list ExperienceEntry }.

Record Links := { links_github : option string; links_demo : option string }.

Record Project := {
  id : string;
  category : string;
  title : string;
  shortDescription : string;
  description : string;
  thumbnail : string;
  images : list string;
  techStack : list string;
  highlights : list string;
  year : string;
  links : Links
}.

Record Projects := { projects : list Project }.

Record Item := {
  item_title : string;
  organization : string;
  item_description : string;
  item_year : string;
  icon : option string
}.

Record Achievements := { achievements : list Item; certifications : list Item }.

(** ** The page: document, console and script globals *)

(** An element is known by its [id]; the modal overlay, which has none, is
    keyed by its selector.  [props] holds the properties the script assigns
    ([textContent], [innerHTML], [src], ...), [classes] the class lists. *)
Record Page := {
  elems : gset string;
  props : gmap (string * string) string;
  classes : gset (string * string);
  body_overflow : string;               (* document.body.style.overflow *)
  console : list string;                (* lines of console.error *)
  projectsData : option Projects        (* the script's global *)
}.

Inductive Completion (A : Type) : Type :=
| Normal (a : A)
| Throw (e : string).
Arguments Normal {A} a.
Arguments Throw {A} e.

(** A statement runs on the page and either completes or throws; the page
    keeps whatever was written before the throw. *)
Definition M (A : Type) : Type := Page -> Completion A * Page.

Definition ret {A} (a : A) : M A := fun s => (Normal a, s).

Definition bind {A B} (m : M A) (k : A -> M B) : M B :=
  fun s =>
    match m s with
    | (Normal a, s') => k a s'
    | (Throw e, s') => (Throw e, s')
    end.

Definition throw {A} (e : string) : M A := fun s => (Throw e, s).

Notation "'do' x <- m ; k" := (bind m (fun x => k))
  (at level 10, x name, m at level 100, k at level 200,
   format "'[v' 'do'  x  <-  m ; '/' k ']'").
Notation "m ;; k" := (bind m (fun _ => k))
  (at level 100, k at level 200, right associativity).

(** [if (x) stmt] on a value that may be [null]. *)
Definition when_present {A} (o : option A) (k : A -> M unit) : M unit :=
  match o with
  | Some a => k a
  | None => ret tt
  end.

(** An element handle: [None] is [null]. *)
Definition handle : Type := option string.

Definition getElementById (i : string) : M handle :=
  fun s => (Normal (if bool_decide (i ∈ elems s) then Some i else None), s).

Definition querySelector (sel : string) : M handle := getElementById sel.

Definition write (k : string * string) (v : string) (s : Page) : Page :=
  {| elems := elems s; props := <[k := v]> (props s); classes := classes s;
     body_overflow := body_overflow s; console := console s;
     projectsData := projectsData s |}.

(** [el.prop = v]; a [TypeError] when [el] is [null]. *)
Definition assign (el : handle) (prop : string) (v : string) : M unit :=
  match el with
  | Some i => fun s => (Normal tt, write (i, prop) v s)
  | None => throw "TypeError"
  end.

(** [el.addEventListener(...)]: the listeners themselves are the transition
    functions below; registering one only needs the element. *)
Definition addEventListener (el : handle) (event : string) : M unit :=
  match el with
  | Some _ => ret tt
  | None => throw "TypeError"
  end.

Definition console_error (line : string) : M unit :=
  fun s =>
    (Normal tt,
     {| elems := elems s; props := props s; classes := classes s;
        body_overflow := body_overflow s; console := console s ++ [line];
        projectsData := projectsData s |}).

(** ** Data loading *)

(** What [fetch(path)] and [response.json()] can do: the request rejects,
    or a response arrives whose [ok] flag is set or not and whose body
    parses ([Some]) or not ([None]). *)
Inductive Fetched (A : Type) : Type :=
| Rejected (reason : string)
| Response (ok : bool) (body : option A).
Arguments Rejected {A} reason.
Arguments Response {A} ok body.

(** The [try] block of [loadJSON]. *)
Definition loadJSON_try {A} (path : string) (f : Fetched A) : M A :=
  match f with
  | Rejected reason => throw reason
  | Response ok body =>
      if negb ok then throw ("Failed to load " +:+ path)
      else match body with
           | Some doc => ret doc
           | None => throw "SyntaxError"
           end
  end.

(** [try { ... } catch (error) { console.error(...); return null; }] *)
Definition loadJSON {A} (path : string) (f : Fetched A) : M (option A) :=
  fun s =>
    match loadJSON_try path f s with
    | (Normal doc, s') => (Normal (Some doc), s')
    | (Throw error, s') =>
        (do _ <- console_error ("Error loading " +:+ path +:+ ": " +:+ error);
         ret None) s'
    end.

(** ** Render functions *)

(** A line break of a template literal followed by [n] spaces of
    indentation. *)
Fixpoint spaces (n : nat) : string :=
  match n with
  | O => EmptyString
  | S n' => String " "%char (spaces n')
  end.
Definition ind (n : nat) : string := nl +:+ spaces n.

(** *** Profile *)

Definition roleSeparator : string :=
  "<span class=" +:+ q "role-separator" +:+ ">" +:+ bullet +:+ "</span>".

Definition roleTemplate (data : Profile) (index : nat) (role : string) : string :=
  ind 8 +:+ "<span class=" +:+ q "role-tag" +:+ ">" +:+ role +:+ "</span>"
  +:+ ind 8
  +:+ (if (Z.of_nat index <? Z.of_nat (length (roles data)) - 1)%Z
       then roleSeparator else EmptyString)
  +:+ ind 4.

Definition rolesHTML (data : Profile) : string :=
  join (imap (roleTemplate data) (roles data)).

Definition statTemplate (stat : Stat) : string :=
  ind 8 +:+ "<div class=" +:+ q "stat-card reveal" +:+ ">"
  +:+ ind 12 +:+ "<div class=" +:+ q "stat-value" +:+ ">" +:+ value stat +:+ "</div>"
  +:+ ind 12 +:+ "<div class=" +:+ q "stat-label" +:+ ">" +:+ label stat +:+ "</div>"
  +:+ ind 8 +:+ "</div>"
  +:+ ind 4.

Definition statsHTML (data : Profile) : string :=
  join (map statTemplate (stats data)).

Definition mailtoHref (address : string) : string :=
  "mailto:" +:+ address +:+ "?subject=Portfolio Inquiry".

Definition whatsappMessage : string :=
  encodeURIComponent "Hi Atilla, I saw your portfolio and I'd like to connect!".

Definition whatsappHref (number : string) : string :=
  "https://wa.me/" +:+ number +:+ "?text=" +:+ whatsappMessage.

Definition emailButton (social : Social) : string :=
  ind 12 +:+ "<a href=" +:+ q (mailtoHref (the (email social)))
         +:+ " class=" +:+ q "contact-btn email" +:+ ">"
  +:+ ind 16 +:+ "<i class=" +:+ q "fas fa-envelope" +:+ "></i>"
  +:+ ind 16 +:+ "<span>Email Me</span>"
  +:+ ind 12 +:+ "</a>"
  +:+ ind 8.

Definition whatsappButton (social : Social) : string :=
  ind 12 +:+ "<a href=" +:+ q (whatsappHref (the (whatsapp social)))
         +:+ " target=" +:+ q "_blank" +:+ " class=" +:+ q "contact-btn whatsapp" +:+ ">"
  +:+ ind 16 +:+ "<i class=" +:+ q "fab fa-whatsapp" +:+ "></i>"
  +:+ ind 16 +:+ "<span>WhatsApp</span>"
  +:+ ind 12 +:+ "</a>"
  +:+ ind 8.

Definition linkedinButton (social : Social) : string :=
  ind 12 +:+ "<a href=" +:+ q (the (linkedin social))
         +:+ " target=" +:+ q "_blank" +:+ " class=" +:+ q "contact-btn linkedin" +:+ ">"
  +:+ ind 16 +:+ "<i class=" +:+ q "fab fa-linkedin-in" +:+ "></i>"
  +:+ ind 16 +:+ "<span>LinkedIn</span>"
  +:+ ind 12 +:+ "</a>"
  +:+ ind 8.

Definition githubButton (social : Social) : string :=
  ind 12 +:+ "<a href=" +:+ q (the (github social))
         +:+ " target=" +:+ q "_blank" +:+ " class=" +:+ q "contact-btn github" +:+ ">"
  +:+ ind 16 +:+ "<i class=" +:+ q "fab fa-github" +:+ "></i>"
  +:+ ind 16 +:+ "<span>GitHub</span>"
  +:+ ind 12 +:+ "</a>"
  +:+ ind 8.

(** [if (c) buttons.push(x)] appends [x] to the array when [c] holds. *)
Definition push_if (c : bool) (x : string) (arr : list string) : list string :=
  if c then arr ++ [x] else arr.

Definition contactButtons (social : Social) : list string :=
  let buttons := [] in
  let buttons := push_if (truthy (email social)) (emailButton social) buttons in
  let buttons := push_if (truthy (whatsapp social)) (whatsappButton social) buttons in
  let buttons := push_if (truthy (linkedin social)) (linkedinButton social) buttons in
  let buttons := push_if (truthy (github social)) (githubButton social) buttons in
  buttons.

Definition renderContactButtons (social : Social) (cvPath : string) : M unit :=
  do container <- getElementById "contact-buttons";
  assign container "innerHTML" (join (contactButtons social)).

Definition footerEmail (social : Social) : string :=
  "<a href=" +:+ q ("mailto:" +:+ the (email social)) +:+ " aria-label=" +:+ q "Email"
  +:+ "><i class=" +:+ q "fas fa-envelope" +:+ "></i></a>".

Definition footerLink (href ariaLabel iconClass : string) : string :=
  "<a href=" +:+ q href +:+ " target=" +:+ q "_blank" +:+ " aria-label=" +:+ q ariaLabel
  +:+ "><i class=" +:+ q iconClass +:+ "></i></a>".

Definition footerLinks (social : Social) : list string :=
  let links := [] in
  let links := push_if (truthy (email social)) (footerEmail social) links in
  let links := push_if (truthy (linkedin social))
                 (footerLink (the (linkedin social)) "LinkedIn" "fab fa-linkedin-in") links in
  let links := push_if (truthy (github social))
                 (footerLink (the (github social)) "GitHub" "fab fa-github") links in
  let links := push_if (truthy (instagram social))
                 (footerLink (the (instagram social)) "Instagram" "fab fa-instagram") links in
  links.

Definition renderFooterSocial (social : Social) : M unit :=
  do container <- getElementById "footer-social";
  assign container "innerHTML" (join (footerLinks social)).

Definition renderProfile (data : Profile) : M unit :=
  do heroName <- getElementById "hero-name";
  assign heroName "textContent" (name data);;
  do heroTagline <- getElementById "hero-tagline";
  assign heroTagline "textContent" (tagline data);;
  do rolesContainer <- getElementById "hero-roles";
  assign rolesContainer "innerHTML" (rolesHTML data);;
  do avatarEl <- getElementById "hero-avatar";
  assign avatarEl "src" (avatar data);;
  assign avatarEl "alt" (name data);;
  do aboutSummary <- getElementById "about-summary";
  assign aboutSummary "textContent" (summary (about data));;
  do aboutDescription <- getElementById "about-description";
  assign aboutDescription "textContent" (about_description (about data));;
  do aboutCta <- getElementById "about-cta";
  assign aboutCta "textContent" (cta (about data));;
  do statsContainer <- getElementById "about-stats";
  assign statsContainer "innerHTML" (statsHTML data);;
  do cvBtn <- getElementById "nav-cv-btn";
  assign cvBtn "href" (cv data);;
  assign cvBtn "download" "CV_Atilla_Pramudya_Nugroho.pdf";;
  renderContactButtons (social data) (cv data);;
  renderFooterSocial (social data).

(** *** Skills *)

Definition skillTemplate (skill : Skill) : string :=
  ind 20 +:+ "<div class=" +:+ q "skill-item" +:+ ">"
  +:+ ind 24 +:+ "<div class=" +:+ q "skill-info" +:+ ">"
  +:+ ind 28 +:+ "<span class=" +:+ q "skill-name" +:+ ">" +:+ skill_name skill +:+ "</span>"
  +:+ ind 28 +:+ "<span class=" +:+ q "skill-level" +:+ ">"
             +:+ Number_toString (level skill) +:+ "%</span>"
  +:+ ind 24 +:+ "</div>"
  +:+ ind 24 +:+ "<div class=" +:+ q "skill-bar" +:+ ">"
  +:+ ind 28 +:+ "<div class=" +:+ q "skill-progress"
             +:+ " data-progress=" +:+ q (Number_toString (level skill))
             +:+ " style=" +:+ q "width: 0%" +:+ "></div>"
  +:+ ind 24 +:+ "</div>"
  +:+ ind 20 +:+ "</div>"
  +:+ ind 16.

Definition skillCategoryTemplate (c : SkillCategory) : string :=
  ind 8 +:+ "<div class=" +:+ q "skill-category reveal" +:+ ">"
  +:+ ind 12 +:+ "<div class=" +:+ q "skill-category-header" +:+ ">"
  +:+ ind 16 +:+ "<div class=" +:+ q "skill-category-icon" +:+ ">"
  +:+ ind 20 +:+ "<i class=" +:+ q ("fas fa-" +:+ cat_icon c) +:+ "></i>"
  +:+ ind 16 +:+ "</div>"
  +:+ ind 16 +:+ "<h3 class=" +:+ q "skill-category-name" +:+ ">" +:+ cat_name c +:+ "</h3>"
  +:+ ind 12 +:+ "</div>"
  +:+ ind 12 +:+ "<div class=" +:+ q "skill-list" +:+ ">"
  +:+ ind 16 +:+ join (map skillTemplate (cat_skills c))
  +:+ ind 12 +:+ "</div>"
  +:+ ind 8 +:+ "</div>"
  +:+ ind 4.

Definition skillsHTML (data : Skills) : string :=
  join (map skillCategoryTemplate (categories data)).

Definition renderSkills (data : Skills) : M unit :=
  do container <- getElementById "skills-grid";
  assign container "innerHTML" (skillsHTML data).

(** *** Experience *)

Definition highlightTemplate (h : string) : string :=
  "<li class=" +:+ q "timeline-highlight" +:+ ">" +:+ h +:+ "</li>".

Definition experienceTemplate (exp : ExperienceEntry) : string :=
  ind 8 +:+ "<div class=" +:+ q "timeline-item reveal" +:+ ">"
  +:+ ind 12 +:+ "<div class=" +:+ q "timeline-dot" +:+ "></div>"
  +:+ ind 12 +:+ "<div class=" +:+ q "timeline-content" +:+ ">"
  +:+ ind 16 +:+ "<span class=" +:+ q "timeline-period" +:+ ">" +:+ period exp +:+ "</span>"
  +:+ ind 16 +:+ "<h3 class=" +:+ q "timeline-role" +:+ ">" +:+ role exp +:+ "</h3>"
  +:+ ind 16 +:+ "<p class=" +:+ q "timeline-company" +:+ ">" +:+ company exp +:+ "</p>"
  +:+ ind 16 +:+ "<p class=" +:+ q "timeline-description" +:+ ">"
             +:+ exp_description exp +:+ "</p>"
  +:+ ind 16 +:+ "<ul class=" +:+ q "timeline-highlights" +:+ ">"
  +:+ ind 20 +:+ join (map highlightTemplate (exp_highlights exp))
  +:+ ind 16 +:+ "</ul>"
  +:+ ind 12 +:+ "</div>"
  +:+ ind 8 +:+ "</div>"
  +:+ ind 4.

Definition experienceHTML (data : Experience) : string :=
  join (map experienceTemplate (experiences data)).

Definition renderExperience (data : Experience) : M unit :=
  do container <- getElementById "experience-timeline";
  assign container "innerHTML" (experienceHTML data).

(** *** Projects *)

Definition filterButtonTemplate (cat : string) : string :=
  ind 12 +:+ "<button class=" +:+ q "filter-btn" +:+ " data-filter=" +:+ q cat +:+ ">"
         +:+ cat +:+ "</button>"
  +:+ ind 8.

Definition allButton : string :=
  "<button class=" +:+ q "filter-btn active" +:+ " data-filter=" +:+ q "all" +:+ ">All</button>".

(** The distinct categories, [[...new Set(data.projects.map(p => p.category))]]. *)
Definition projectCategories (data : Projects) : list string :=
  new_Set (map category (projects data)).

Definition filterHTML (data : Projects) : string :=
  ind 8 +:+ allButton
  +:+ ind 8 +:+ join (map filterButtonTemplate (projectCategories data))
  +:+ ind 4.

Definition placeholderURL (size : string) (text : string) : string :=
  "https://via.placeholder.com/" +:+ size +:+ "/1E3A5F/00D4FF?text="
  +:+ encodeURIComponent text.

Definition cardTechTemplate (tech : string) : string :=
  ind 24 +:+ "<span class=" +:+ q "tech-tag" +:+ ">" +:+ tech +:+ "</span>"
  +:+ ind 20.

(** The technologies a card shows: [project.techStack.slice(0, 4)]. *)
Definition cardTech (project : Project) : list string :=
  slice 0 4 (techStack project).

Definition projectTemplate (project : Project) : string :=
  ind 8 +:+ "<div class=" +:+ q "project-card reveal"
        +:+ " data-category=" +:+ q (category project)
        +:+ " data-id=" +:+ q (id project) +:+ ">"
  +:+ ind 12 +:+ "<div class=" +:+ q "project-image" +:+ ">"
  +:+ ind 16 +:+ "<img src=" +:+ q (thumbnail project) +:+ " alt=" +:+ q (title project)
             +:+ " onerror="
             +:+ q ("this.src='" +:+ placeholderURL "400x200" (title project) +:+ "'")
             +:+ ">"
  +:+ ind 16 +:+ "<div class=" +:+ q "project-overlay" +:+ ">"
  +:+ ind 20 +:+ "<span class=" +:+ q "project-view-btn" +:+ ">View Details</span>"
  +:+ ind 16 +:+ "</div>"
  +:+ ind 12 +:+ "</div>"
  +:+ ind 12 +:+ "<div class=" +:+ q "project-info" +:+ ">"
  +:+ ind 16 +:+ "<span class=" +:+ q "project-category" +:+ ">" +:+ category project +:+ "</span>"
  +:+ ind 16 +:+ "<h3 class=" +:+ q "project-title" +:+ ">" +:+ title project +:+ "</h3>"
  +:+ ind 16 +:+ "<p class=" +:+ q "project-description" +:+ ">"
             +:+ shortDescription project +:+ "</p>"
  +:+ ind 16 +:+ "<div class=" +:+ q "project-tech" +:+ ">"
  +:+ ind 20 +:+ join (map cardTechTemplate (cardTech project))
  +:+ ind 16 +:+ "</div>"
  +:+ ind 12 +:+ "</div>"
  +:+ ind 8 +:+ "</div>"
  +:+ ind 4.

Definition projectsHTML (data : Projects) : string :=
  join (map projectTemplate (projects data)).

Definition renderProjects (data : Projects) : M unit :=
  do container <- getElementById "projects-grid";
  do filterContainer <- getElementById "projects-filter";
  assign filterContainer "innerHTML" (filterHTML data);;
  assign container "innerHTML" (projectsHTML data).

(** *** Achievements *)

Definition achievementsPlaceholder : string :=
  "<p style=" +:+ q "text-align: center; color: var(--color-text-secondary);"
  +:+ ">Achievements coming soon...</p>".

Definition achievementTemplate (item : Item) : string :=
  ind 8 +:+ "<div class=" +:+ q "achievement-card reveal" +:+ ">"
  +:+ ind 12 +:+ "<div class=" +:+ q "achievement-icon" +:+ ">"
  +:+ ind 16 +:+ "<i class=" +:+ q ("fas fa-" +:+ or_else (icon item) "trophy") +:+ "></i>"
  +:+ ind 12 +:+ "</div>"
  +:+ ind 12 +:+ "<div class=" +:+ q "achievement-content" +:+ ">"
  +:+ ind 16 +:+ "<h3 class=" +:+ q "achievement-title" +:+ ">" +:+ item_title item +:+ "</h3>"
  +:+ ind 16 +:+ "<p class=" +:+ q "achievement-org" +:+ ">" +:+ organization item +:+ "</p>"
  +:+ ind 16 +:+ "<p class=" +:+ q "achievement-description" +:+ ">"
             +:+ item_description item +:+ "</p>"
  +:+ ind 16 +:+ "<span class=" +:+ q "achievement-year" +:+ ">" +:+ item_year item +:+ "</span>"
  +:+ ind 12 +:+ "</div>"
  +:+ ind 8 +:+ "</div>"
  +:+ ind 4.

Definition allItems (data : Achievements) : list Item :=
  achievements data ++ certifications data.

Definition renderAchievements (data : Achievements) : M unit :=
  do container <- getElementById "achievements-grid";
  if (length (allItems data) =? 0)%nat
  then assign container "innerHTML" achievementsPlaceholder
  else assign container "innerHTML" (join (map achievementTemplate (allItems data))).

(** ** Project modal *)

Definition classList_add (el : handle) (c : string) : M unit :=
  match el with
  | Some i =>
      fun s =>
        (Normal tt,
         {| elems := elems s; props := props s; classes := {[ (i, c) ]} ∪ classes s;
            body_overflow := body_overflow s; console := console s;
            projectsData := projectsData s |})
  | None => throw "TypeError"
  end.

Definition classList_remove (el : handle) (c : string) : M unit :=
  match el with
  | Some i =>
      fun s =>
        (Normal tt,
         {| elems := elems s; props := props s; classes := classes s ∖ {[ (i, c) ]};
            body_overflow := body_overflow s; console := console s;
            projectsData := projectsData s |})
  | None => throw "TypeError"
  end.

Definition classList_contains (el : handle) (c : string) : M bool :=
  match el with
  | Some i => fun s => (Normal (bool_decide ((i, c) ∈ classes s)), s)
  | None => throw "TypeError"
  end.

(** [document.body.style.overflow = v] *)
Definition set_body_overflow (v : string) : M unit :=
  fun s =>
    (Normal tt,
     {| elems := elems s; props := props s; classes := classes s;
        body_overflow := v; console := console s;
        projectsData := projectsData s |}).

(** [projectsData = data] *)
Definition set_projectsData (data : option Projects) : M unit :=
  fun s =>
    (Normal tt,
     {| elems := elems s; props := props s; classes := classes s;
        body_overflow := body_overflow s; console := console s;
        projectsData := data |}).

Definition get_projectsData : M (option Projects) :=
  fun s => (Normal (projectsData s), s).

Definition modalHighlight (h : string) : string := "<li>" +:+ h +:+ "</li>".

Definition modalTechTemplate (tech : string) : string :=
  "<span class=" +:+ q "tech-tag" +:+ ">" +:+ tech +:+ "</span>".

(** The technologies the modal shows: the whole [project.techStack]. *)
Definition modalTech (project : Project) : list string := techStack project.

Definition modalGithubLink (project : Project) : string :=
  ind 24 +:+ "<a href=" +:+ q (the (links_github (links project)))
         +:+ " target=" +:+ q "_blank" +:+ " class=" +:+ q "modal-link" +:+ ">"
  +:+ ind 28 +:+ "<i class=" +:+ q "fab fa-github" +:+ "></i> GitHub"
  +:+ ind 24 +:+ "</a>"
  +:+ ind 20.

Definition modalDemoLink (project : Project) : string :=
  ind 24 +:+ "<a href=" +:+ q (the (links_demo (links project)))
         +:+ " target=" +:+ q "_blank" +:+ " class=" +:+ q "modal-link" +:+ ">"
  +:+ ind 28 +:+ "<i class=" +:+ q "fas fa-external-link-alt" +:+ "></i> Live Demo"
  +:+ ind 24 +:+ "</a>"
  +:+ ind 20.

Definition modalLinks (project : Project) : string :=
  ind 16 +:+ "<div class=" +:+ q "modal-links" +:+ ">"
  +:+ ind 20 +:+ (if truthy (links_github (links project))
                  then modalGithubLink project else EmptyString)
  +:+ ind 20 +:+ (if truthy (links_demo (links project))
                  then modalDemoLink project else EmptyString)
  +:+ ind 16 +:+ "</div>"
  +:+ ind 12.

(** [Object.values(project.links).some(link => link)] *)
Definition some_link (l : Links) : bool :=
  existsb truthy [links_github l; links_demo l].

Definition modalHTML (project : Project) : string :=
  ind 8 +:+ "<img src=" +:+ q (or_else (head (images project)) (thumbnail project))
        +:+ " alt=" +:+ q (title project) +:+ " class=" +:+ q "modal-image"
        +:+ " onerror="
        +:+ q ("this.src='" +:+ placeholderURL "800x300" (title project) +:+ "'")
        +:+ ">"
  +:+ ind 8 +:+ "<div class=" +:+ q "modal-info" +:+ ">"
  +:+ ind 12 +:+ "<span class=" +:+ q "modal-category" +:+ ">"
             +:+ category project +:+ " " +:+ bullet +:+ " " +:+ year project +:+ "</span>"
  +:+ ind 12 +:+ "<h2 class=" +:+ q "modal-title" +:+ ">" +:+ title project +:+ "</h2>"
  +:+ ind 12 +:+ "<p class=" +:+ q "modal-description" +:+ ">"
             +:+ description project +:+ "</p>"
  +:+ ind 12
  +:+ ind 12 +:+ "<div class=" +:+ q "modal-highlights" +:+ ">"
  +:+ ind 16 +:+ "<h4>Key Highlights</h4>"
  +:+ ind 16 +:+ "<ul>"
  +:+ ind 20 +:+ join (map modalHighlight (highlights project))
  +:+ ind 16 +:+ "</ul>"
  +:+ ind 12 +:+ "</div>"
  +:+ ind 12
  +:+ ind 12 +:+ "<div class=" +:+ q "modal-tech" +:+ ">"
  +:+ ind 16 +:+ "<h4>Tech Stack</h4>"
  +:+ ind 16 +:+ "<div class=" +:+ q "modal-tech-list" +:+ ">"
  +:+ ind 20 +:+ join (map modalTechTemplate (modalTech project))
  +:+ ind 16 +:+ "</div>"
  +:+ ind 12 +:+ "</div>"
  +:+ ind 12
  +:+ ind 12 +:+ (if some_link (links project) then modalLinks project else EmptyString)
  +:+ ind 8 +:+ "</div>"
  +:+ ind 4.

Definition openModal (project : Project) : M unit :=
  do modal <- getElementById "project-modal";
  do modalBody <- getElementById "modal-body";
  assign modalBody "innerHTML" (modalHTML project);;
  classList_add modal "active";;
  set_body_overflow "hidden".

Definition closeModal : M unit :=
  do modal <- getElementById "project-modal";
  classList_remove modal "active";;
  set_body_overflow EmptyString.

(** [projectsData.projects.find(p => p.id === projectId)] *)
Definition find_project (data : Projects) (projectId : string) : option Project :=
  List.find (fun p => String.eqb (id p) projectId) (projects data).

(** The click listener of the projects grid.  [card] is the [data-id] of
    [e.target.closest('.project-card')], or [None] when the click was not
    inside a card. *)
Definition onGridClick (card : option string) : M unit :=
  do data <- get_projectsData;
  match card, data with
  | Some projectId, Some data =>
      match find_project data projectId with
      | Some project => openModal project
      | None => ret tt
      end
  | _, _ => ret tt
  end.

(** The [keydown] listener; [modal] is the element [initModal] looked up. *)
Definition onKeyDown (modal : handle) (key : string) : M unit :=
  if String.eqb key "Escape" then
    do active <- classList_contains modal "active";
    if active then closeModal else ret tt
  else ret tt.

(** The continuation of [initModal]'s own fetch:
    [loadJSON(...).then(data => { projectsData = data; })]. *)
Definition onModalDataLoaded (f : Fetched Projects) : M unit :=
  do data <- loadJSON "./data/projects.json" f;
  set_projectsData data.

Inductive ModalEvent :=
| GridClick (card : option string)
| CloseClick
| OverlayClick
| KeyDown (key : string)
| ModalDataLoaded (f : Fetched Projects).

Definition modalListener (e : ModalEvent) : M unit :=
  match e with
  | GridClick card => onGridClick card
  | CloseClick => closeModal
  | OverlayClick => closeModal
  | KeyDown key => onKeyDown (Some "project-modal") key
  | ModalDataLoaded f => onModalDataLoaded f
  end.

(** The page after a listener ran (a throwing listener leaves the page as
    it was at the throw). *)
Definition after {A} (m : M A) (s : Page) : Page := snd (m s).

Definition modalRun (es : list ModalEvent) (s : Page) : Page :=
  fold_left (fun s e => after (modalListener e) s) es s.

Definition modal_open (s : Page) : Prop := ("project-modal", "active") ∈ classes s.
Definition scroll_locked (s : Page) : Prop := body_overflow s = "hidden".

(** ** Initialisation *)

Definition querySelectorIn (el : handle) (sel : string) : M handle :=
  match el with
  | Some _ => querySelector sel
  | None => throw "TypeError"
  end.

Definition initNavigation : M unit :=
  do navbar <- getElementById "navbar";
  do navToggle <- getElementById "nav-toggle";
  do navMenu <- getElementById "nav-menu";
  addEventListener navToggle "click".

Definition initScrollEffects : M unit :=
  do backToTop <- getElementById "back-to-top";
  ret tt.

Definition initModal : M unit :=
  do modal <- getElementById "project-modal";
  do modalClose <- getElementById "modal-close";
  do modalOverlay <- querySelectorIn modal ".modal-overlay";
  do projectsGrid <- getElementById "projects-grid";
  addEventListener projectsGrid "click";;
  addEventListener modalClose "click";;
  addEventListener modalOverlay "click".

Definition initFilters (projectsData : option Projects) : M unit :=
  do filterContainer <- getElementById "projects-filter";
  addEventListener filterContainer "click".

(** The five documents, in the order of the array given to
    [Promise.all]. *)
Inductive Document :=
| ProfileDoc
| SkillsDoc
| ExperienceDoc
| ProjectsDoc
| AchievementsDoc.

#[export] Instance Document_eq_dec : EqDecision Document.
Proof. solve_decision. Defined.

Definition all_documents : list Document :=
  [ProfileDoc; SkillsDoc; ExperienceDoc; ProjectsDoc; AchievementsDoc].

(** What the five startup fetches do, and when each of the five loads
    settles. *)
Record Network := {
  profile_json : Fetched Profile;
  skills_json : Fetched Skills;
  experience_json : Fetched Experience;
  projects_json : Fetched Projects;
  achievements_json : Fetched Achievements;
  settles : Document -> nat
}.

(** The order in which the five loads settle: by their times, loads that
    settle at the same time in the order of the array. *)
Fixpoint insert_settled (time : Document -> nat) (d : Document) (order : list Document)
  : list Document :=
  match order with
  | [] => [d]
  | d' :: order' =>
      if (time d <? time d')%nat then d :: order
      else d' :: insert_settled time d order'
  end.

Definition settle_order (net : Network) : list Document :=
  fold_left (fun order d => insert_settled (settles net) d order) all_documents [].

(** The array [Promise.all] resolves to, while it fills. *)
Record Loaded := {
  profile_doc : option Profile;
  skills_doc : option Skills;
  experience_doc : option Experience;
  projects_doc : option Projects;
  achievements_doc : option Achievements
}.

Definition nothing_loaded : Loaded :=
  {| profile_doc := None; skills_doc := None; experience_doc := None;
     projects_doc := None; achievements_doc := None |}.

(** One of the five loads settles: [loadJSON] logs its failure, if any, and
    its result takes its place in the array. *)
Definition settle (net : Network) (docs : Loaded) (d : Document) : M Loaded :=
  match d with
  | ProfileDoc =>
      do profile <- loadJSON "./data/profile.json" (profile_json net);
      ret {| profile_doc := profile; skills_doc := skills_doc docs;
             experience_doc := experience_doc docs; projects_doc := projects_doc docs;
             achievements_doc := achievements_doc docs |}
  | SkillsDoc =>
      do skills <- loadJSON "./data/skills.json" (skills_json net);
      ret {| profile_doc := profile_doc docs; skills_doc := skills;
             experience_doc := experience_doc docs; projects_doc := projects_doc docs;
             achievements_doc := achievements_doc docs |}
  | ExperienceDoc =>
      do experience <- loadJSON "./data/experience.json" (experience_json net);
      ret {| profile_doc := profile_doc docs; skills_doc := skills_doc docs;
             experience_doc := experience; projects_doc := projects_doc docs;
             achievements_doc := achievements_doc docs |}
  | ProjectsDoc =>
      do projects <- loadJSON "./data/projects.json" (projects_json net);
      ret {| profile_doc := profile_doc docs; skills_doc := skills_doc docs;
             experience_doc := experience_doc docs; projects_doc := projects;
             achievements_doc := achievements_doc docs |}
  | AchievementsDoc =>
      do achievements <- loadJSON "./data/achievements.json" (achievements_json net);
      ret {| profile_doc := profile_doc docs; skills_doc := skills_doc docs;
             experience_doc := experience_doc docs; projects_doc := projects_doc docs;
             achievements_doc := achievements |}
  end.

(** [await Promise.all([...])]: the five loads run concurrently and settle
    in some order; the listener goes on when all of them have settled. *)
Fixpoint Promise_all (net : Network) (order : list Document) (docs : Loaded) : M Loaded :=
  match order with
  | [] => ret docs
  | d :: order' =>
      do docs' <- settle net docs d;
      Promise_all net order' docs'
  end.

(** The [DOMContentLoaded] listener; [fullYear] is
    [new Date().getFullYear()]. *)
Definition onDOMContentLoaded (net : Network) (fullYear : SafeInteger) : M unit :=
  do docs <- Promise_all net (settle_order net) nothing_loaded;
  when_present (profile_doc docs) renderProfile;;
  when_present (skills_doc docs) renderSkills;;
  when_present (experience_doc docs) renderExperience;;
  when_present (projects_doc docs) renderProjects;;
  when_present (achievements_doc docs) renderAchievements;;
  initNavigation;;
  initScrollEffects;;
  initModal;;
  initFilters (projects_doc docs);;
  do currentYear <- getElementById "current-year";
  assign currentYear "textContent" (Number_toString fullYear).

(** ** Navigation: the scroll spy *)

(** A [.nav-link] element: its [href] attribute ([None] when it has none)
    and its class list. *)
Record NavLink := { href : option string; classList : gset string }.

(** A [section[id]] element with its layout box. *)
Record PageSection := { section_id : string; offsetTop : Z; offsetHeight : Z }.

Definition link_remove (c : string) (link : NavLink) : NavLink :=
  {| href := href link; classList := classList link ∖ {[ c ]} |}.

Definition link_add (c : string) (link : NavLink) : NavLink :=
  {| href := href link; classList := {[ c ]} ∪ classList link |}.

(** The body of [navLinks.forEach] for one matching section. *)
Definition mark_link (sectionId : string) (link : NavLink) : NavLink :=
  let link := link_remove "active" link in
  if bool_decide (href link = Some ("#" +:+ sectionId))
  then link_add "active" link
  else link.

Definition in_view (scrollY : Z) (section : PageSection) : bool :=
  let sectionTop := (offsetTop section - 100)%Z in
  let sectionHeight := offsetHeight section in
  (scrollY >=? sectionTop)%Z && (scrollY <? sectionTop + sectionHeight)%Z.

(** The body of [sections.forEach] for one section. *)
Definition spy_section (scrollY : Z) (navLinks : list NavLink) (section : PageSection)
  : list NavLink :=
  if in_view scrollY section
  then map (mark_link (section_id section)) navLinks
  else navLinks.

Definition updateActiveNav (scrollY : Z) (sections : list PageSection)
    (navLinks : list NavLink) : list NavLink :=
  fold_left (spy_section scrollY) sections navLinks.

Definition is_active (link : NavLink) : bool := bool_decide ("active" ∈ classList link).

Definition active_count (navLinks : list NavLink) : nat :=
  length (filter (fun link => is_active link = true) navLinks).

(** ** How the browser reads assigned markup

    A model of the HTML parser, enough to tell text from tags.  In
    character data a [<] followed by a letter or [/] opens a tag, which
    runs to the next [>] outside a double-quoted attribute value.  In
    text, the character references [&lt;], [&gt;], [&amp;], [&quot;] and
    [&#39;] are decoded, a carriage return becomes a line feed (a carriage
    return and line feed pair becomes one line feed) and a NUL character is
    dropped.

    A tag is kept as the markup writes it, between its angle brackets: its
    attribute values are not decoded here.  A written attribute value is
    the value the script reads back from the element ([dataset],
    [getAttribute]) when it holds no double quote, ampersand, carriage
    return or NUL.  Comments, raw-text elements, single-quoted attribute
    values and the character references other than the five above are not
    modelled: the statements that read markup back assume interpolated
    values without [<] and [&]. *)

Inductive Token :=
| Chr (c : ascii)        (* one character of a text node *)
| Tag (t : string).      (* a start or end tag as written, without its angle brackets *)

Inductive Mode :=
| Data
| Skip (n : nat)                          (* inside a character reference *)
| InTag (quoted : bool) (buf : string).

Definition starts_tag (s : string) : bool :=
  match s with
  | String c _ => is_alpha c || Ascii.eqb c "/"
  | EmptyString => false
  end.

(** [s.startsWith(p)] *)
Fixpoint starts_with (p s : string) : bool :=
  match p with
  | EmptyString => true
  | String a p' =>
      match s with
      | String b s' => Ascii.eqb a b && starts_with p' s'
      | EmptyString => false
      end
  end.

(** The character reference starting after an ampersand: the character it
    stands for and the number of characters still to skip after the next. *)
Definition char_reference (s : string) : option (ascii * nat) :=
  if starts_with "lt;" s then Some ("<"%char, 2)
  else if starts_with "gt;" s then Some (">"%char, 2)
  else if starts_with "amp;" s then Some ("&"%char, 3)
  else if starts_with "quot;" s then Some ("034"%char, 4)
  else if starts_with "#39;" s then Some ("'"%char, 3)
  else None.

Definition snoc (buf : string) (c : ascii) : string := buf +:+ String c EmptyString.

Fixpoint tokenize (m : Mode) (s : string) : list Token :=
  match s with
  | EmptyString => []
  | String c s' =>
      match m with
      | Data =>
          if Ascii.eqb c "<" then
            if starts_tag s' then tokenize (InTag false EmptyString) s'
            else Chr c :: tokenize Data s'
          else if Ascii.eqb c "&" then
            match char_reference s' with
            | Some (c', n) => Chr c' :: tokenize (Skip n) s'
            | None => Chr c :: tokenize Data s'
            end
          else if Ascii.eqb c "013" then
            if starts_with nl s' then tokenize Data s'
            else Chr "010" :: tokenize Data s'
          else if Ascii.eqb c "000" then tokenize Data s'
          else Chr c :: tokenize Data s'
      | Skip n =>
          tokenize (match n with O => Data | S n' => Skip n' end) s'
      | InTag quoted buf =>
          if Ascii.eqb c "034" then tokenize (InTag (negb quoted) (snoc buf c)) s'
          else if Ascii.eqb c ">" && negb quoted then Tag buf :: tokenize Data s'
          else tokenize (InTag quoted (snoc buf c)) s'
      end
  end.

(** What assigning [markup] to [innerHTML] produces. *)
Definition parseHTML (markup : string) : list Token := tokenize Data markup.

(** The tags, in document order. *)
Fixpoint tagsOf (ts : list Token) : list string :=
  match ts with
  | [] => []
  | Tag t :: ts' => t :: tagsOf ts'
  | Chr _ :: ts' => tagsOf ts'
  end.

(** The text, as [textContent] reads it back. *)
Fixpoint textOf (ts : list Token) : string :=
  match ts with
  | [] => EmptyString
  | Chr c :: ts' => String c (textOf ts')
  | Tag _ :: ts' => textOf ts'
  end.

(** The text that follows up to the next tag. *)
Fixpoint leading_text (ts : list Token) : string :=
  match ts with
  | Chr c :: ts' => String c (leading_text ts')
  | _ => EmptyString
  end.

(** The text right after each occurrence of the start tag [tag]: for an
    element whose content is text only, its [textContent]. *)
Fixpoint textIn (tag : string) (ts : list Token) : list string :=
  match ts with
  | [] => []
  | Tag t :: ts' =>
      if String.eqb t tag then leading_text ts' :: textIn tag ts'
      else textIn tag ts'
  | Chr _ :: ts' => textIn tag ts'
  end.

(** The tokens of a run of text. *)
Fixpoint text_tokens (s : string) : list Token :=
  match s with
  | EmptyString => []
  | String c s' => Chr c :: text_tokens s'
  end.

(** Tokenizing a piece of markup on its own: the tokens it yields and the
    mode it ends in, or [None] when that depends on what follows (the
    piece ends right after a [<] or a carriage return, or less than five
    characters after an ampersand). *)
Definition emit (t : Token) (r : option (list Token * Mode)) : option (list Token * Mode) :=
  match r with
  | Some (ts, m) => Some (t :: ts, m)
  | None => None
  end.

Fixpoint feed (m : Mode) (a : string) : option (list Token * Mode) :=
  match a with
  | EmptyString => Some ([], m)
  | String c a' =>
      match m with
      | Data =>
          if Ascii.eqb c "<" then
            match a' with
            | EmptyString => None
            | String _ _ =>
                if starts_tag a' then feed (InTag false EmptyString) a'
                else emit (Chr c) (feed Data a')
            end
          else if Ascii.eqb c "&" then
            match a' with
            | String _ (String _ (String _ (String _ (String _ _)))) =>
                match char_reference a' with
                | Some (c', n) => emit (Chr c') (feed (Skip n) a')
                | None => emit (Chr c) (feed Data a')
                end
            | _ => None
            end
          else if Ascii.eqb c "013" then
            match a' with
            | EmptyString => None
            | String _ _ =>
                if starts_with nl a' then feed Data a'
                else emit (Chr "010") (feed Data a')
            end
          else if Ascii.eqb c "000" then feed Data a'
          else emit (Chr c) (feed Data a')
      | Skip n =>
          feed (match n with O => Data | S n' => Skip n' end) a'
      | InTag quoted buf =>
          if Ascii.eqb c "034" then feed (InTag (negb quoted) (snoc buf c)) a'
          else if Ascii.eqb c ">" && negb quoted then emit (Tag buf) (feed Data a')
          else feed (InTag quoted (snoc buf c)) a'
      end
  end.

(** The result of [feed] from inside a tag whose buffer already holds
    [buf]: [buf] goes in front of the tag that closes first, or of the
    buffer the piece ends with. *)
Definition graft_mode (buf : string) (m : Mode) : Mode :=
  match m with
  | InTag quoted s => InTag quoted (buf +:+ s)
  | _ => m
  end.

Definition graft (buf : string) (r : list Token * Mode) : list Token * Mode :=
  match r with
  | (Tag t :: ts, m) => (Tag (buf +:+ t) :: ts, m)
  | ([], m) => ([], graft_mode buf m)
  | _ => r
  end.

(** An attribute value that stays inside its double quotes. *)
Fixpoint attr_safe (s : string) : bool :=
  match s with
  | EmptyString => true
  | String c s' => negb (Ascii.eqb c "034") && attr_safe s'
  end.

(** A field value without markup: no [<] and no [&]. *)
Definition plain_char (c : ascii) : bool :=
  negb (Ascii.eqb c "<") && negb (Ascii.eqb c "&").

Fixpoint plain (s : string) : bool :=
  match s with
  | EmptyString => true
  | String c s' => plain_char c && plain s'
  end.

(** A field value that the parser reads as text character for character:
    no [<], no [&], no carriage return and no NUL. *)
Definition literal_char (c : ascii) : bool :=
  plain_char c && negb (Ascii.eqb c "013") && negb (Ascii.eqb c "000").

Fixpoint literal (s : string) : bool :=
  match s with
  | EmptyString => true
  | String c s' => literal_char c && literal s'
  end.

(** An attribute value that the element holds as it is written: no double
    quote, no [&], no carriage return and no NUL. *)
Definition attr_literal_char (c : ascii) : bool :=
  negb (Ascii.eqb c "034") && negb (Ascii.eqb c "&")
  && negb (Ascii.eqb c "013") && negb (Ascii.eqb c "000").

Fixpoint attr_literal (s : string) : bool :=
  match s with
  | EmptyString => true
  | String c s' => attr_literal_char c && attr_literal s'
  end.

Definition highlight_tag : string :=
  Eval vm_compute in "li class=" +:+ q "timeline-highlight".

(** The tokens of one highlight of the timeline whose text is plain. *)
Definition highlight_tokens (h : string) : list Token :=
  Tag highlight_tag :: text_tokens h ++ [Tag "/li"].




(** The labels of the buttons of a piece of markup: the text right after
    each [button] start tag. *)
Fixpoint buttonLabels (ts : list Token) : list string :=
  match ts with
  | [] => []
  | Tag t :: ts' =>
      if starts_with "button" t then leading_text ts' :: buttonLabels ts'
      else buttonLabels ts'
  | Chr _ :: ts' => buttonLabels ts'
  end.

(** A category that is literal both as the label of its button and as the
    button's [data-filter]. *)
Definition button_safe (cat : string) : bool := literal cat && attr_literal cat.

(** The tag of a technology label, on the card and in the modal. *)
Definition tech_tag : string := Eval vm_compute in "span class=" +:+ q "tech-tag".

(** The fields of a project that its card interpolates are literal, those
    in element content as text and those in attribute values as
    attributes. *)
Definition card_safe (project : Project) : bool :=
  attr_literal (category project) && attr_literal (id project)
  && attr_literal (thumbnail project) && attr_literal (title project)
  && literal (category project) && literal (title project)
  && literal (shortDescription project) && forallb literal (techStack project).

(** The same for the fields the modal interpolates. *)
Definition modal_safe (project : Project) : bool :=
  attr_literal (or_else (head (images project)) (thumbnail project))
  && attr_literal (title project)
  && literal (category project) && literal (year project) && literal (title project)
  && literal (description project) && forallb literal (highlights project)
  && forallb literal (techStack project)
  && attr_literal (the (links_github (links project)))
  && attr_literal (the (links_demo (links project))).

(** The tags of the profile's markup that hold a text field. *)
Definition role_span : string := Eval vm_compute in "span class=" +:+ q "role-tag".



(** [is_percent_encoded s]: [s] consists of unreserved characters and
    [%XX] escapes only. *)
Definition is_hex (c : ascii) : bool :=
  is_digit c || existsb (Ascii.eqb c) ["A"; "B"; "C"; "D"; "E"; "F"]%char.

Fixpoint percent_encoded_from (pending : nat) (s : string) : bool :=
  match s with
  | EmptyString => (pending =? 0)%nat
  | String c s' =>
      match pending with
      | S p => is_hex c && percent_encoded_from p s'
      | O =>
          if uri_unreserved c then percent_encoded_from 0 s'
          else if Ascii.eqb c "%" then percent_encoded_from 2 s'
          else false
      end
  end.

Definition is_percent_encoded (s : string) : bool := percent_encoded_from 0 s.

(** ** Derived notions used by the statements below *)

(** A sequence of property assignments, oldest first. *)
Definition write_all (ws : list ((string * string) * string)) (s : Page) : Page :=
  fold_left (fun s w => write (fst w) (snd w) s) ws s.

(** What a load hands to its caller: the document, or nothing. *)
Definition loaded {A} (f : Fetched A) : option A :=
  match f with
  | Response true (Some doc) => Some doc
  | _ => None
  end.

(** The assignments each render function makes, in program order. *)
Definition profile_writes (data : Profile) : list ((string * string) * string) :=
  [ (("hero-name", "textContent"), name data);
    (("hero-tagline", "textContent"), tagline data);
    (("hero-roles", "innerHTML"), rolesHTML data);
    (("hero-avatar", "src"), avatar data);
    (("hero-avatar", "alt"), name data);
    (("about-summary", "textContent"), summary (about data));
    (("about-description", "textContent"), about_description (about data));
    (("about-cta", "textContent"), cta (about data));
    (("about-stats", "innerHTML"), statsHTML data);
    (("nav-cv-btn", "href"), cv data);
    (("nav-cv-btn", "download"), "CV_Atilla_Pramudya_Nugroho.pdf");
    (("contact-buttons", "innerHTML"), join (contactButtons (social data)));
    (("footer-social", "innerHTML"), join (footerLinks (social data))) ].

Definition skills_writes (data : Skills) : list ((string * string) * string) :=
  [ (("skills-grid", "innerHTML"), skillsHTML data) ].

Definition experience_writes (data : Experience) : list ((string * string) * string) :=
  [ (("experience-timeline", "innerHTML"), experienceHTML data) ].

Definition projects_writes (data : Projects) : list ((string * string) * string) :=
  [ (("projects-filter", "innerHTML"), filterHTML data);
    (("projects-grid", "innerHTML"), projectsHTML data) ].

Definition achievements_writes (data : Achievements) : list ((string * string) * string) :=
  [ (("achievements-grid", "innerHTML"),
     if (length (allItems data) =? 0)%nat then achievementsPlaceholder
     else join (map achievementTemplate (allItems data))) ].

(** The anchors of each section. *)
Definition profile_anchors : list string :=
  [ "hero-name"; "hero-tagline"; "hero-roles"; "hero-avatar"; "about-summary";
    "about-description"; "about-cta"; "about-stats"; "nav-cv-btn";
    "contact-buttons"; "footer-social" ].
Definition skills_anchors : list string := [ "skills-grid" ].
Definition experience_anchors : list string := [ "experience-timeline" ].
Definition projects_anchors : list string := [ "projects-filter"; "projects-grid" ].
Definition achievements_anchors : list string := [ "achievements-grid" ].

(** The elements the controllers need at start-up. *)
Definition controller_anchors : list string :=
  [ "nav-toggle"; "project-modal"; "modal-close"; ".modal-overlay"; "current-year" ].

(** The host page provides every element the script looks up. *)
Definition shell_ok (s : Page) : Prop :=
  Forall (fun i => i ∈ elems s)
    (profile_anchors ++ skills_anchors ++ experience_anchors ++ projects_anchors
     ++ achievements_anchors ++ controller_anchors).

(** A section was left alone: no property of its anchors changed. *)
Definition section_skipped (anchors : list string) (s s' : Page) : Prop :=
  forall a p, a ∈ anchors -> props s' !! (a, p) = props s !! (a, p).

(** A section was rendered: each assignment of its render function is in
    the page. *)
Definition section_rendered (ws : list ((string * string) * string)) (s' : Page) : Prop :=
  forall k v, (k, v) ∈ ws -> props s' !! k = Some v.

Definition section_outcome {A} (doc : option A) (anchors : list string)
    (writes : A -> list ((string * string) * string)) (s s' : Page) : Prop :=
  match doc with
  | None => section_skipped anchors s s'
  | Some d => section_rendered (writes d) s'
  end.

(** The console lines of the failed loads, in order. *)
Definition failure_line {A} (path : string) (f : Fetched A) : list string :=
  match f with
  | Rejected reason => ["Error loading " +:+ path +:+ ": " +:+ reason]
  | Response false _ =>
      ["Error loading " +:+ path +:+ ": " +:+ ("Failed to load " +:+ path)]
  | Response true None => ["Error loading " +:+ path +:+ ": " +:+ "SyntaxError"]
  | Response true (Some _) => []
  end.

(** The page with [lines] appended to the console. *)
Definition logged (lines : list string) (s : Page) : Page :=
  {| elems := elems s; props := props s; classes := classes s;
     body_overflow := body_overflow s; console := console s ++ lines;
     projectsData := projectsData s |}.

(** The console line of one of the five start-up loads, when it fails. *)
Definition load_failure (net : Network) (d : Document) : list string :=
  match d with
  | ProfileDoc => failure_line "./data/profile.json" (profile_json net)
  | SkillsDoc => failure_line "./data/skills.json" (skills_json net)
  | ExperienceDoc => failure_line "./data/experience.json" (experience_json net)
  | ProjectsDoc => failure_line "./data/projects.json" (projects_json net)
  | AchievementsDoc => failure_line "./data/achievements.json" (achievements_json net)
  end.

(** The array after one more load has settled, and after all five have. *)
Definition record_load (net : Network) (docs : Loaded) (d : Document) : Loaded :=
  match d with
  | ProfileDoc =>
      {| profile_doc := loaded (profile_json net); skills_doc := skills_doc docs;
         experience_doc := experience_doc docs; projects_doc := projects_doc docs;
         achievements_doc := achievements_doc docs |}
  | SkillsDoc =>
      {| profile_doc := profile_doc docs; skills_doc := loaded (skills_json net);
         experience_doc := experience_doc docs; projects_doc := projects_doc docs;
         achievements_doc := achievements_doc docs |}
  | ExperienceDoc =>
      {| profile_doc := profile_doc docs; skills_doc := skills_doc docs;
         experience_doc := loaded (experience_json net);
         projects_doc := projects_doc docs; achievements_doc := achievements_doc docs |}
  | ProjectsDoc =>
      {| profile_doc := profile_doc docs; skills_doc := skills_doc docs;
         experience_doc := experience_doc docs;
         projects_doc := loaded (projects_json net);
         achievements_doc := achievements_doc docs |}
  | AchievementsDoc =>
      {| profile_doc := profile_doc docs; skills_doc := skills_doc docs;
         experience_doc := experience_doc docs; projects_doc := projects_doc docs;
         achievements_doc := loaded (achievements_json net) |}
  end.

Definition all_loaded (net : Network) : Loaded :=
  {| profile_doc := loaded (profile_json net); skills_doc := loaded (skills_json net);
     experience_doc := loaded (experience_json net);
     projects_doc := loaded (projects_json net);
     achievements_doc := loaded (achievements_json net) |}.

(** The console lines of the five start-up loads, in the order in which
    the loads settle. *)
Definition startup_failures (net : Network) : list string :=
  flat_map (load_failure net) (settle_order net).

Definition writes_of {A} (writes : A -> list ((string * string) * string))
    (doc : option A) : list ((string * string) * string) :=
  match doc with
  | Some d => writes d
  | None => []
  end.

(** All assignments of a start-up, in program order. *)
Definition startup_writes (net : Network) (fullYear : SafeInteger)
  : list ((string * string) * string) :=
  writes_of profile_writes (loaded (profile_json net))
  ++ writes_of skills_writes (loaded (skills_json net))
  ++ writes_of experience_writes (loaded (experience_json net))
  ++ writes_of projects_writes (loaded (projects_json net))
  ++ writes_of achievements_writes (loaded (achievements_json net))
  ++ [ (("current-year", "textContent"), Number_toString fullYear) ].

(** The effect of a statement is a list of assignments that depends on the
    page only through the set of elements it has. *)
Definition scripted {A} (m : M A) : Prop :=
  forall s, exists c ws,
    forall s', elems s' = elems s -> m s' = (c, write_all ws s').

(** The distinct values of a list in first-seen order, following the
    specification's wording. *)
Fixpoint first_seen (l : list string) : list string :=
  match l with
  | [] => []
  | x :: l' => x :: filter (fun y => y ≠ x) (first_seen l')
  end.

(** Background scrolling is disabled exactly when the modal is open. *)
Definition modal_inv (s : Page) : Prop := modal_open s <-> scroll_locked s.

(** The markup last assigned to the [innerHTML] of the element [i], empty
    when none was, and what the element then holds: that markup as the
    parser reads it. *)
Definition innerHTML (i : string) (s : Page) : string :=
  default EmptyString (props s !! (i, "innerHTML")).

Definition contentOf (i : string) (s : Page) : list Token := parseHTML (innerHTML i s).

(** ** Sample data *)

Definition sample_project : Project :=
  {| id := "p1"; category := "Web"; title := "Shop"; shortDescription := "A shop";
     description := "An online shop"; thumbnail := "shop.png"; images := [];
     techStack := ["HTML"; "CSS"; "JS"; "React"; "Node"];
     highlights := ["Fast"]; year := "2024";
     links := {| links_github := Some "https://github.com/x/shop"; links_demo := None |} |}.

Definition sample_projects : Projects := {| projects := [sample_project] |}.

Definition sample_profile : Profile :=
  {| name := "Ada"; tagline := "Engineer"; roles := ["Developer"; "Writer"];
     avatar := "ada.png";
     about := {| summary := "Hello"; about_description := "About me"; cta := "Hire me" |};
     stats := [ {| value := "10+"; label := "Projects" |} ];
     cv := "cv.pdf";
     social := {| email := Some "ada@example.org"; whatsapp := None; linkedin := None;
                  github := None; instagram := None |} |}.

(** A host page with every element the script looks up, nothing rendered,
    the modal closed and the modal's data not yet loaded. *)
Definition shell_page : Page :=
  {| elems := list_to_set
       (profile_anchors ++ skills_anchors ++ experience_anchors ++ projects_anchors
        ++ achievements_anchors ++ controller_anchors ++ ["modal-body"]);
     props := ∅; classes := ∅; body_overflow := EmptyString; console := [];
     projectsData := None |}.

(** The profile and the projects load, the skills request is rejected, the
    experience request answers with an error status and the achievements
    do not parse; the loads settle in the reverse order of the array. *)
Definition skills_down : Network :=
  {| profile_json := Response true (Some sample_profile);
     skills_json := Rejected "NetworkError";
     experience_json := Response false None;
     projects_json := Response true (Some sample_projects);
     achievements_json := Response true None;
     settles := fun d =>
       match d with
       | ProfileDoc => 5 | SkillsDoc => 4 | ExperienceDoc => 3
       | ProjectsDoc => 2 | AchievementsDoc => 1
       end%nat |}.

Definition year_2026 : SafeInteger := {| int_value := 2026; int_safe := eq_refl |}.

(** A section [about] at the top of the page and navigation bars for it. *)
Definition about_section : PageSection :=
  {| section_id := "about"; offsetTop := 100; offsetHeight := 500 |}.

(** Two links to the same section, neither active. *)
Definition twin_links : list NavLink :=
  [ {| href := Some "#about"; classList := ∅ |};
    {| href := Some "#about"; classList := ∅ |} ].

(** Links to different sections, the first one active. *)
Definition plain_links : list NavLink :=
  [ {| href := Some "#home"; classList := {[ "active" ]} |};
    {| href := Some "#about"; classList := ∅ |} ].

(** A timeline entry with plain text, and one whose highlight carries
    markup. *)
Definition sample_entry : ExperienceEntry :=
  {| period := "2020 - 2024"; role := "Engineer"; company := "Acme";
     exp_description := "Built things"; exp_highlights := ["Fast"; "Small"] |}.



(** Three projects of the categories Web, Mobile, Web. *)
Definition project_in (cat : string) : Project :=
  {| id := "p"; category := cat; title := "T"; shortDescription := "S";
     description := "D"; thumbnail := "t.png"; images := []; techStack := [];
     highlights := []; year := "2024";
     links := {| links_github := None; links_demo := None |} |}.

Definition three_projects : Projects :=
  {| projects := [project_in "Web"; project_in "Mobile"; project_in "Web"] |}.

(** A social block with an address that needs encoding. *)
Definition spaced_social : Social :=
  {| email := Some "a b@example.org"; whatsapp := None; linkedin := None;
     github := None; instagram := None |}.

Definition spaced_profile : Profile :=
  {| name := "Ada"; tagline := "Engineer"; roles := ["Developer"];
     avatar := "ada.png";
     about := {| summary := "Hello"; about_description := "About me"; cta := "Hire me" |};
     stats := []; cv := "cv.pdf"; social := spaced_social |}.

(** A category that holds markup: it closes its own button and opens
    another one.  Two projects, of the category Web and of this one. *)
Definition closing_category : string := "Web</button><button>Web".

Definition markup_categories : Projects :=
  {| projects := [project_in "Web"; project_in closing_category] |}.



(** ** Navigation: mobile menu, navbar background and back-to-top control *)

(** [el.classList.toggle(c)]: the result tells whether the class is now
    present. *)
Definition classList_toggle (el : handle) (c : string) : M bool :=
  match el with
  | Some i =>
      fun s =>
        if bool_decide ((i, c) ∈ classes s)
        then (Normal false,
              {| elems := elems s; props := props s;
                 classes := classes s ∖ {[ (i, c) ]};
                 body_overflow := body_overflow s; console := console s;
                 projectsData := projectsData s |})
        else (Normal true,
              {| elems := elems s; props := props s;
                 classes := {[ (i, c) ]} ∪ classes s;
                 body_overflow := body_overflow s; console := console s;
                 projectsData := projectsData s |})
  | None => throw "TypeError"
  end.

(** The click listener of the mobile menu toggle. *)
Definition onNavToggleClick (navToggle navMenu : handle) : M unit :=
  do _ <- classList_toggle navToggle "active";
  do _ <- classList_toggle navMenu "active";
  ret tt.

(** The click listener of every navigation link. *)
Definition onNavLinkClick (navToggle navMenu : handle) : M unit :=
  classList_remove navToggle "active";;
  classList_remove navMenu "active".

Definition updateNavbar (navbar : handle) (scrollY : Z) : M unit :=
  if (scrollY >? 50)%Z then classList_add navbar "scrolled"
  else classList_remove navbar "scrolled".

(** The scroll listener of [initScrollEffects]. *)
Definition onScrollBackToTop (backToTop : handle) (scrollY : Z) : M unit :=
  if (scrollY >? 500)%Z then classList_add backToTop "visible"
  else classList_remove backToTop "visible".

Inductive NavEvent :=
| ToggleClick
| LinkClick
| Scroll (scrollY : Z).

(** One navigation event on a page whose [navbar], [nav-toggle], [nav-menu]
    and [back-to-top] elements were found by the init functions.  A scroll
    runs the listener of [initNavigation] (whose scroll spy acts on the
    links, see [updateActiveNav], and then [updateNavbar]) and the listener
    of [initScrollEffects]. *)
Definition navStep (s : Page) (e : NavEvent) : Page :=
  match e with
  | ToggleClick => after (onNavToggleClick (Some "nav-toggle") (Some "nav-menu")) s
  | LinkClick => after (onNavLinkClick (Some "nav-toggle") (Some "nav-menu")) s
  | Scroll scrollY =>
      after (onScrollBackToTop (Some "back-to-top") scrollY)
        (after (updateNavbar (Some "navbar") scrollY) s)
  end.

Definition navRun (es : list NavEvent) (s : Page) : Page := fold_left navStep es s.

Definition menu_open (s : Page) : Prop := ("nav-menu", "active") ∈ classes s.
Definition toggle_active (s : Page) : Prop := ("nav-toggle", "active") ∈ classes s.
Definition navbar_scrolled (s : Page) : Prop := ("navbar", "scrolled") ∈ classes s.
Definition back_to_top_visible (s : Page) : Prop := ("back-to-top", "visible") ∈ classes s.

(** The last section, in document order, that the scroll position is in. *)
Definition last_in_view (scrollY : Z) (sections : list PageSection) : option PageSection :=
  last (List.filter (in_view scrollY) sections).

(** A click in the projects grid. *)
Definition is_grid_click (e : ModalEvent) : bool :=
  match e with
  | GridClick _ => true
  | _ => false
  end.

(** The anchors of all five render functions. *)
Definition render_anchors : list string :=
  profile_anchors ++ skills_anchors ++ experience_anchors ++ projects_anchors
  ++ achievements_anchors.

(** A page with the render anchors but without [skills-grid] and without
    the controllers' elements. *)
Definition no_skills_page : Page :=
  {| elems := list_to_set
       (profile_anchors ++ experience_anchors ++ projects_anchors
        ++ achievements_anchors);
     props := ∅; classes := ∅; body_overflow := EmptyString; console := [];
     projectsData := None |}.

(** A page with the render anchors only. *)
Definition no_controls_page : Page :=
  {| elems := list_to_set render_anchors;
     props := ∅; classes := ∅; body_overflow := EmptyString; console := [];
     projectsData := None |}.

(** All five documents load, at the same time. *)
Definition all_up : Network :=
  {| profile_json := Response true (Some sample_profile);
     skills_json := Response true (Some {| categories := [] |});
     experience_json := Response true (Some {| experiences := [sample_entry] |});
     projects_json := Response true (Some sample_projects);
     achievements_json :=
       Response true (Some {| achievements := []; certifications := [] |});
     settles := fun _ => 0%nat |}.

(** The assignments of the render functions at start-up, in program order. *)
Definition render_writes (net : Network) : list ((string * string) * string) :=
  writes_of profile_writes (loaded (profile_json net))
  ++ writes_of skills_writes (loaded (skills_json net))
  ++ writes_of experience_writes (loaded (experience_json net))
  ++ writes_of projects_writes (loaded (projects_json net))
  ++ writes_of achievements_writes (loaded (achievements_json net)).

(** The page has the elements [ids]. *)
Definition has_elements (ids : list string) (s : Page) : Prop :=
  Forall (fun i => i ∈ elems s) ids.

(** ** Project filters *)

(** A [.filter-btn] element and a [.project-card] element, with the
    dataset entry and the style properties the filter controller reads and
    writes. *)
Record FilterButton := { data_filter : string; button_classes : gset string }.

Record Card := {
  data_category : string;
  style_display : string;
  style_opacity : string;
  style_transform : string
}.

(** The two callbacks the controller hands to [setTimeout]; each holds its
    card, here by position among the cards. *)
Inductive TimerTask :=
| FadeIn (card : nat)
| Hide (card : nat).

#[export] Instance TimerTask_eq_dec : EqDecision TimerTask.
Proof. solve_decision. Defined.

Record FilterView := {
  buttons : list FilterButton;
  cards : list Card;
  timers : list (Z * TimerTask)      (* pending timers with their due times *)
}.

(** [setTimeout(task, due - now)]: the timer queue is kept in due order,
    a new timer after those already due at the same time. *)
Fixpoint enqueue {A} (due : Z) (task : A) (queue : list (Z * A)) : list (Z * A) :=
  match queue with
  | [] => [(due, task)]
  | (d, t) :: queue' =>
      if (d <=? due)%Z then (d, t) :: enqueue due task queue'
      else (due, task) :: queue
  end.

(** [filter === 'all' || card.dataset.category === filter] *)
Definition matches (filter : string) (card : Card) : bool :=
  String.eqb filter "all" || String.eqb (data_category card) filter.

(** The two branches of the loop over the cards. *)
Definition show_card (card : Card) : Card :=
  {| data_category := data_category card; style_display := "block";
     style_opacity := style_opacity card; style_transform := style_transform card |}.

Definition fade_card (card : Card) : Card :=
  {| data_category := data_category card; style_display := style_display card;
     style_opacity := "0"; style_transform := "translateY(20px)" |}.

(** [projectCards.forEach(card => ...)], from the card at position [j]. *)
Fixpoint filter_cards (now : Z) (filter : string) (j : nat) (cs : list Card)
    (queue : list (Z * TimerTask)) : list Card * list (Z * TimerTask) :=
  match cs with
  | [] => ([], queue)
  | card :: cs' =>
      let (card', queue') :=
        if matches filter card
        then (show_card card, enqueue (now + 10) (FadeIn j) queue)
        else (fade_card card, enqueue (now + 300) (Hide j) queue) in
      let (cs'', queue'') := filter_cards now filter (S j) cs' queue' in
      (card' :: cs'', queue'')
  end.

Definition button_remove (c : string) (b : FilterButton) : FilterButton :=
  {| data_filter := data_filter b; button_classes := button_classes b ∖ {[ c ]} |}.

Definition button_add (c : string) (b : FilterButton) : FilterButton :=
  {| data_filter := data_filter b; button_classes := {[ c ]} ∪ button_classes b |}.

(** The click listener of the filter container at time [now].  [target] is
    the position of the clicked filter button, or [None] when the click hit
    something that is not a [.filter-btn]. *)
Definition onFilterClick (now : Z) (target : option nat) (v : FilterView) : FilterView :=
  match target with
  | None => v
  | Some i =>
      match buttons v !! i with
      | None => v
      | Some button =>
          let buttons' := alter (button_add "active") i
                            (map (button_remove "active") (buttons v)) in
          let filter := data_filter button in
          let (cards', timers') := filter_cards now filter 0 (cards v) (timers v) in
          {| buttons := buttons'; cards := cards'; timers := timers' |}
      end
  end.

(** What the two callbacks do when their timer fires. *)
Definition faded_in (card : Card) : Card :=
  {| data_category := data_category card; style_display := style_display card;
     style_opacity := "1"; style_transform := "translateY(0)" |}.

Definition hidden (card : Card) : Card :=
  {| data_category := data_category card; style_display := "none";
     style_opacity := style_opacity card; style_transform := style_transform card |}.

Definition run_task (cs : list Card) (task : TimerTask) : list Card :=
  match task with
  | FadeIn j => alter faded_in j cs
  | Hide j => alter hidden j cs
  end.

Definition fire (queue : list (Z * TimerTask)) (cs : list Card) : list Card :=
  fold_left (fun cs timer => run_task cs (snd timer)) queue cs.

(** The timers selected by [ready] fire, in queue order; the others stay
    pending. *)
Definition run_timers (ready : Z * TimerTask -> bool) (v : FilterView) : FilterView :=
  {| buttons := buttons v;
     cards := fire (List.filter ready (timers v)) (cards v);
     timers := List.filter (fun timer => negb (ready timer)) (timers v) |}.

(** All pending timers fire. *)
Definition flush (v : FilterView) : FilterView := run_timers (fun _ => true) v.

(** A timer never fires before it is due. *)
Definition never_early (now : Z) (ready : Z * TimerTask -> bool) : Prop :=
  forall timer, ready timer = true -> (fst timer <= now)%Z.

(** A card after its transition has completed. *)
Definition settled (filter : string) (card : Card) : Card :=
  if matches filter card
  then {| data_category := data_category card; style_display := "block";
          style_opacity := "1"; style_transform := "translateY(0)" |}
  else {| data_category := data_category card; style_display := "none";
          style_opacity := "0"; style_transform := "translateY(20px)" |}.

(** The effect of a set of fired timers on one card. *)
Definition finish (fade_in hide : bool) (card : Card) : Card :=
  {| data_category := data_category card;
     style_display := if hide then "none" else style_display card;
     style_opacity := if fade_in then "1" else style_opacity card;
     style_transform := if fade_in then "translateY(0)" else style_transform card |}.

(** The loop's write to one card and the timer it sets for it. *)
Definition touch (filter : string) (card : Card) : Card :=
  if matches filter card then show_card card else fade_card card.

Definition scheduled (now : Z) (filter : string) (j : nat) (card : Card) : Z * TimerTask :=
  if matches filter card then ((now + 10)%Z, FadeIn j) else ((now + 300)%Z, Hide j).

(** Three cards of the categories Web, Mobile, Web with the buttons All,
    Web, Mobile, nothing filtered yet. *)
Definition fresh_card (cat : string) : Card :=
  {| data_category := cat; style_display := EmptyString;
     style_opacity := EmptyString; style_transform := EmptyString |}.

Definition three_cards : FilterView :=
  {| buttons := [ {| data_filter := "all"; button_classes := {[ "filter-btn"; "active" ]} |};
                  {| data_filter := "Web"; button_classes := {[ "filter-btn" ]} |};
                  {| data_filter := "Mobile"; button_classes := {[ "filter-btn" ]} |} ];
     cards := [fresh_card "Web"; fresh_card "Mobile"; fresh_card "Web"];
     timers := [] |}.

(** Every timer that is due at [now] fires. *)
Definition due_by (now : Z) (timer : Z * TimerTask) : bool := (fst timer <=? now)%Z.

(** ** Reveal animations *)

(** A [.skill-progress] element: its [data-progress] attribute, which may
    be missing, and its [style.width]. *)
Record Bar := { dataset_progress : option string; style_width : string }.

(** An observed [.reveal] element: its class list and the
    [.skill-progress] elements inside it, by position among the bars of the
    page. *)
Record RevealElement := { reveal_classes : gset string; skillBars : list nat }.

(** An [IntersectionObserverEntry]. *)
Record Entry := { target : nat; isIntersecting : bool }.

(** The timers hold the bar and the [progress] their closure captured. *)
Record RevealView := {
  revealElements : list RevealElement;
  bars : list Bar;
  widthTimers : list (Z * (nat * option string))
}.

(** Template interpolation of a value that may be [undefined]. *)
Definition interpolate (o : option string) : string :=
  match o with
  | Some s => s
  | None => "undefined"
  end.

(** [skillBars.forEach(bar => { const progress = ...; setTimeout(..., 200) })] *)
Definition schedule_bars (now : Z) (bs : list Bar) (inside : list nat)
    (queue : list (Z * (nat * option string))) : list (Z * (nat * option string)) :=
  fold_left
    (fun queue k =>
       match bs !! k with
       | Some bar => enqueue (now + 200) (k, dataset_progress bar) queue
       | None => queue
       end)
    inside queue.

Definition reveal_add (c : string) (el : RevealElement) : RevealElement :=
  {| reveal_classes := {[ c ]} ∪ reveal_classes el; skillBars := skillBars el |}.

(** The body of [entries.forEach(entry => ...)]. *)
Definition observe_entry (now : Z) (v : RevealView) (entry : Entry) : RevealView :=
  if isIntersecting entry then
    match revealElements v !! target entry with
    | Some el =>
        {| revealElements := alter (reveal_add "visible") (target entry) (revealElements v);
           bars := bars v;
           widthTimers := schedule_bars now (bars v) (skillBars el) (widthTimers v) |}
    | None => v
    end
  else v.

(** The observer's callback, called at time [now]. *)
Definition onIntersect (now : Z) (entries : list Entry) (v : RevealView) : RevealView :=
  fold_left (observe_entry now) entries v.

(** What happens on a page with reveal elements: the observer reports
    entries, or some of the pending timers fire. *)
Inductive RevealEvent :=
| Intersect (now : Z) (entries : list Entry)
| TimersFire (ready : Z * (nat * option string) -> bool).

Section Width.

(** What the browser stores when [value] is assigned to [style.width]: the
    width as it is serialised, or [None] when [value] is not a valid width
    and the assignment is ignored. *)
Variable stored_width : string -> option string.

(** [bar.style.width = `${progress}%`] *)
Definition set_width (progress : option string) (bar : Bar) : Bar :=
  match stored_width (interpolate progress +:+ "%") with
  | Some width => {| dataset_progress := dataset_progress bar; style_width := width |}
  | None => bar
  end.

Definition grow (queue : list (Z * (nat * option string))) (bs : list Bar) : list Bar :=
  fold_left (fun bs timer => alter (set_width (snd (snd timer))) (fst (snd timer)) bs)
    queue bs.

(** The width timers selected by [ready] fire, in queue order. *)
Definition run_width_timers (ready : Z * (nat * option string) -> bool) (v : RevealView)
  : RevealView :=
  {| revealElements := revealElements v;
     bars := grow (List.filter ready (widthTimers v)) (bars v);
     widthTimers := List.filter (fun timer => negb (ready timer)) (widthTimers v) |}.

Definition revealStep (v : RevealView) (e : RevealEvent) : RevealView :=
  match e with
  | Intersect now entries => onIntersect now entries v
  | TimersFire ready => run_width_timers ready v
  end.

Definition revealRun (es : list RevealEvent) (v : RevealView) : RevealView :=
  fold_left revealStep es v.

End Width.

(** The element at position [i] is reported as intersecting. *)
Definition reported (i : nat) (entries : list Entry) : bool :=
  existsb (fun entry => isIntersecting entry && (target entry =? i)%nat) entries.

(** The bar at position [k] lies inside an element reported as
    intersecting. *)
Definition bar_reported (v : RevealView) (k : nat) (entries : list Entry) : bool :=
  existsb
    (fun entry =>
       isIntersecting entry
       && match revealElements v !! target entry with
          | Some el => bool_decide (k ∈ skillBars el)
          | None => false
          end)
    entries.

(** A skill category with two bars and a card without bars, not yet
    revealed. *)
Definition two_reveals : RevealView :=
  {| revealElements := [ {| reveal_classes := {[ "skill-category"; "reveal" ]};
                            skillBars := [0; 1]%nat |};
                         {| reveal_classes := {[ "project-card"; "reveal" ]};
                            skillBars := [] |} ];
     bars := [ {| dataset_progress := Some "90"; style_width := "0%" |};
               {| dataset_progress := Some "75"; style_width := "0%" |} ];
     widthTimers := [] |}.

(** A reading of widths that agrees with the browser on the values of the
    examples: a percentage written as decimal digits, without a sign and
    without a leading zero, is stored as it is; [undefined%] and a
    negative percentage are ignored.  Every other value is ignored here as
    well. *)
Fixpoint digits_then_percent (s : string) : bool :=
  match s with
  | EmptyString => false
  | String c EmptyString => Ascii.eqb c "%"
  | String c s' => is_digit c && digits_then_percent s'
  end.

Definition digits_percent (value : string) : option string :=
  match value with
  | String c rest =>
      if is_digit c && (negb (Ascii.eqb c "0") || String.eqb rest "%")
         && digits_then_percent rest
      then Some value else None
  | EmptyString => None
  end.

(** ** Reading rendered markup *)

(** The start tags of a piece of markup that begin with [p], in document
    order: with [p] an element name and a space, the elements of that name
    that carry attributes. *)
Fixpoint startTags (p : string) (ts : list Token) : list string :=
  match ts with
  | [] => []
  | Tag t :: ts' =>
      if starts_with p t then t :: startTags p ts' else startTags p ts'
  | Chr _ :: ts' => startTags p ts'
  end.

(** [when c x]: the one-element list of [x] when [c] holds. *)
Definition when {A} (c : bool) (x : A) : list A := if c then [x] else [].

(** *** Skills *)



(** The start tag of a category icon. *)
Definition icon_tag (icon : string) : string := "i class=" +:+ q ("fas fa-" +:+ icon).





(** *** Contact buttons and footer links *)

(** The start tags of the anchors. *)
Definition email_anchor (social : Social) : string :=
  "a href=" +:+ q (mailtoHref (the (email social))) +:+ " class=" +:+ q "contact-btn email".

Definition whatsapp_anchor (social : Social) : string :=
  "a href=" +:+ q (whatsappHref (the (whatsapp social)))
  +:+ " target=" +:+ q "_blank" +:+ " class=" +:+ q "contact-btn whatsapp".

Definition contact_anchor (href kind : string) : string :=
  "a href=" +:+ q href +:+ " target=" +:+ q "_blank"
  +:+ " class=" +:+ q ("contact-btn " +:+ kind).

Definition footer_email_anchor (social : Social) : string :=
  "a href=" +:+ q ("mailto:" +:+ the (email social)) +:+ " aria-label=" +:+ q "Email".

Definition footer_anchor (href ariaLabel : string) : string :=
  "a href=" +:+ q href +:+ " target=" +:+ q "_blank" +:+ " aria-label=" +:+ q ariaLabel.

(** The link values stay inside their attributes. *)
Definition social_safe (social : Social) : bool :=
  attr_safe (the (email social)) && attr_safe (the (whatsapp social))
  && attr_safe (the (linkedin social)) && attr_safe (the (github social))
  && attr_safe (the (instagram social)).

(** The link values are literal as attribute values. *)
Definition social_literal (social : Social) : bool :=
  attr_literal (the (email social)) && attr_literal (the (whatsapp social))
  && attr_literal (the (linkedin social)) && attr_literal (the (github social))
  && attr_literal (the (instagram social)).


(** *** Achievements *)

Definition achievement_title_tag : string :=
  Eval vm_compute in "h3 class=" +:+ q "achievement-title".
Definition achievement_org_tag : string :=
  Eval vm_compute in "p class=" +:+ q "achievement-org".
Definition achievement_description_tag : string :=
  Eval vm_compute in "p class=" +:+ q "achievement-description".
Definition achievement_year_tag : string :=
  Eval vm_compute in "span class=" +:+ q "achievement-year".

Definition item_safe (item : Item) : bool :=
  attr_literal (the (icon item)) && literal (item_title item)
  && literal (organization item) && literal (item_description item)
  && literal (item_year item).

(** An award with its own icon, a certificate without one and one whose
    icon is empty. *)
Definition award : Item :=
  {| item_title := "Best Paper"; organization := "ACM"; item_description := "An award";
     item_year := "2023"; icon := Some "medal" |}.

Definition certificate (i : option string) : Item :=
  {| item_title := "Cloud Architect"; organization := "AWS";
     item_description := "A certificate"; item_year := "2022"; icon := i |}.

Definition mixed_achievements : Achievements :=
  {| achievements := [certificate None; award];
     certifications := [certificate (Some EmptyString)] |}.

(** *** Project modal *)

(** The tokens of an element whose content is the plain text [text]. *)
Definition element_tokens (open close text : string) : list Token :=
  Tag open :: text_tokens text ++ [Tag close].

Definition modal_category_tag : string :=
  Eval vm_compute in "span class=" +:+ q "modal-category".
Definition modal_title_tag : string := Eval vm_compute in "h2 class=" +:+ q "modal-title".
Definition modal_description_tag : string :=
  Eval vm_compute in "p class=" +:+ q "modal-description".
Definition modal_links_tag : string := Eval vm_compute in "div class=" +:+ q "modal-links".

(** The start tag of the modal's image and of one of its links. *)
Definition modal_image_tag (project : Project) : string :=
  "img src=" +:+ q (or_else (head (images project)) (thumbnail project))
  +:+ " alt=" +:+ q (title project) +:+ " class=" +:+ q "modal-image"
  +:+ " onerror=" +:+ q ("this.src='" +:+ placeholderURL "800x300" (title project) +:+ "'").

Definition modal_link_anchor (href : string) : string :=
  "a href=" +:+ q href +:+ " target=" +:+ q "_blank" +:+ " class=" +:+ q "modal-link".

(** A project without links whose first image is empty. *)
Definition unlinked_project : Project :=
  {| id := "p2"; category := "Mobile"; title := "Notes"; shortDescription := "Notes";
     description := "A notes app"; thumbnail := "notes.png"; images := [EmptyString];
     techStack := ["Kotlin"]; highlights := ["Offline"; "Sync"]; year := "2023";
     links := {| links_github := None; links_demo := Some EmptyString |} |}.

(** *** Project cards *)

Definition project_category_tag : string :=
  Eval vm_compute in "span class=" +:+ q "project-category".
Definition project_title_tag : string :=
  Eval vm_compute in "h3 class=" +:+ q "project-title".
Definition project_description_tag : string :=
  Eval vm_compute in "p class=" +:+ q "project-description".

(** The opening of a card's start tag, up to its class. *)
Definition project_card : string :=
  Eval vm_compute in "div class=" +:+ q "project-card reveal".

(** The start tag of the card of a project and of its image. *)
Definition card_tag (project : Project) : string :=
  "div class=" +:+ q "project-card reveal" +:+ " data-category=" +:+ q (category project)
  +:+ " data-id=" +:+ q (id project).

Definition card_image_tag (project : Project) : string :=
  "img src=" +:+ q (thumbnail project) +:+ " alt=" +:+ q (title project)
  +:+ " onerror=" +:+ q ("this.src='" +:+ placeholderURL "400x200" (title project) +:+ "'").

(** *** The fallback image *)

(** The text of the [onerror] handler of an image: an assignment of a
    single-quoted string literal. *)
Definition onerrorHandler (size text : string) : string :=
  "this.src='" +:+ placeholderURL size text +:+ "'".

(** A single-quoted string literal of a script, read from right after its
    opening quote: its text and what follows its closing quote, or [None]
    when the literal is not closed.  Escape sequences are not modelled; the
    handlers read here hold no backslash. *)
Fixpoint string_literal (s : string) : option (string * string) :=
  match s with
  | EmptyString => None
  | String c s' =>
      if Ascii.eqb c "'" then Some (EmptyString, s')
      else match string_literal s' with
           | Some (text, rest) => Some (String c text, rest)
           | None => None
           end
  end.

Fixpoint apostrophe_free (s : string) : bool :=
  match s with
  | EmptyString => true
  | String c s' => negb (Ascii.eqb c "'") && apostrophe_free s'
  end.

(** *** Roles *)

Definition role_separator_tag : string :=
  Eval vm_compute in "span class=" +:+ q "role-separator".

(** The tags of one role, with or without the separator after it. *)
Definition role_tags (separated : bool) : list string :=
  [role_span; "/span"] ++ (if separated then [role_separator_tag; "/span"] else []).

(** * Properties *)

(** ** The page monad *)

Lemma elems_write k v s : elems (write k v s) = elems s.
Proof. reflexivity. Qed.

Lemma elems_write_all ws s : elems (write_all ws s) = elems s.
Proof.
  revert s. induction ws as [|w ws IH]; intros s; [reflexivity|].
  cbn. rewrite IH. reflexivity.
Qed.

Lemma write_all_app ws1 ws2 s :
  write_all (ws1 ++ ws2) s = write_all ws2 (write_all ws1 s).
Proof. unfold write_all. apply fold_left_app. Qed.

Lemma props_write_all ws s :
  props (write_all ws s) = list_to_map (reverse ws) ∪ props s.
Proof.
  revert s. induction ws as [|[k v] ws IH]; intros s.
  - cbn. by rewrite (left_id_L ∅ (∪)).
  - change (write_all ((k, v) :: ws) s) with (write_all ws (write k v s)).
    rewrite IH, reverse_cons, list_to_map_app.
    rewrite <- (assoc_L (∪)). f_equal.
    change (props (write k v s)) with (<[k := v]> (props s)).
    rewrite insert_union_singleton_l. f_equal.
Qed.

Lemma write_all_frame ws s :
  write_all ws s =
  {| elems := elems s; props := props (write_all ws s); classes := classes s;
     body_overflow := body_overflow s; console := console s;
     projectsData := projectsData s |}.
Proof.
  revert s. induction ws as [|w ws IH]; intros s; [by destruct s|].
  cbn. rewrite IH at 1. reflexivity.
Qed.

Lemma page_ext (s1 s2 : Page) :
  elems s1 = elems s2 -> props s1 = props s2 -> classes s1 = classes s2 ->
  body_overflow s1 = body_overflow s2 -> console s1 = console s2 ->
  projectsData s1 = projectsData s2 -> s1 = s2.
Proof. destruct s1, s2; cbn; congruence. Qed.

Lemma write_all_idem ws s : write_all ws (write_all ws s) = write_all ws s.
Proof.
  apply page_ext;
    try (rewrite (write_all_frame ws (write_all ws s)),
           (write_all_frame ws s); reflexivity).
  rewrite !props_write_all, (assoc_L (∪)). f_equal.
  apply (idemp_L (∪)).
Qed.

(** *** Scripted statements *)

Lemma scripted_ret {A} (a : A) : scripted (ret a).
Proof. intros s. exists (Normal a), []. reflexivity. Qed.

Lemma scripted_throw {A} (e : string) : scripted (@throw A e).
Proof. intros s. exists (Throw e), []. reflexivity. Qed.

Lemma scripted_getElementById i : scripted (getElementById i).
Proof.
  intros s. exists (Normal (if bool_decide (i ∈ elems s) then Some i else None)), [].
  intros s' E. unfold getElementById. rewrite E. reflexivity.
Qed.

Lemma scripted_assign el p v : scripted (assign el p v).
Proof.
  destruct el as [i|]; [|apply scripted_throw].
  intros s. exists (Normal tt), [((i, p), v)]. reflexivity.
Qed.

Lemma scripted_bind {A B} (m : M A) (k : A -> M B) :
  scripted m -> (forall a, scripted (k a)) -> scripted (bind m k).
Proof.
  intros Hm Hk s. destruct (Hm s) as (c & ws & Hrun).
  destruct c as [a|e].
  - destruct (Hk a (write_all ws s)) as (c' & ws' & Hrun').
    exists c', (ws ++ ws'). intros s' E.
    unfold bind. rewrite (Hrun s' E), write_all_app.
    apply Hrun'. by rewrite !elems_write_all.
  - exists (Throw e), ws. intros s' E.
    unfold bind. by rewrite (Hrun s' E).
Qed.

Lemma scripted_if {A} (b : bool) (m1 m2 : M A) :
  scripted m1 -> scripted m2 -> scripted (if b then m1 else m2).
Proof. by destruct b. Qed.

Create HintDb scripted.
#[local] Hint Resolve scripted_ret scripted_throw scripted_getElementById
  scripted_assign scripted_if : scripted.
#[local] Hint Extern 2 (scripted (bind _ _)) =>
  simple apply scripted_bind; [|intros ?] : scripted.

Lemma scripted_renderContactButtons social cvPath :
  scripted (renderContactButtons social cvPath).
Proof. unfold renderContactButtons. auto with scripted. Qed.

Lemma scripted_renderFooterSocial social : scripted (renderFooterSocial social).
Proof. unfold renderFooterSocial. auto with scripted. Qed.

Lemma scripted_renderProfile data : scripted (renderProfile data).
Proof.
  unfold renderProfile.
  do 20 (simple apply scripted_bind; [auto with scripted|intros ?]).
  apply scripted_bind; [apply scripted_renderContactButtons|intros ?].
  apply scripted_renderFooterSocial.
Qed.

Lemma scripted_renderSkills data : scripted (renderSkills data).
Proof. unfold renderSkills. auto with scripted. Qed.

Lemma scripted_renderExperience data : scripted (renderExperience data).
Proof. unfold renderExperience. auto with scripted. Qed.

Lemma scripted_renderProjects data : scripted (renderProjects data).
Proof. unfold renderProjects. auto 10 with scripted. Qed.

Lemma scripted_renderAchievements data : scripted (renderAchievements data).
Proof. unfold renderAchievements. auto with scripted. Qed.

(** Running a scripted statement twice in a row is running it once. *)
Lemma scripted_twice (m : M unit) s : scripted m -> (m ;; m) s = m s.
Proof.
  intros Hm. destruct (Hm s) as (c & ws & Hrun).
  unfold bind. rewrite (Hrun s eq_refl).
  destruct c as [[]|e]; [|reflexivity].
  rewrite (Hrun (write_all ws s) (elems_write_all ws s)).
  by rewrite write_all_idem.
Qed.

(** C4: every render function is idempotent.  Calling it twice in a row
    with the same document gives the same completion and leaves the page,
    and so each of its anchors, exactly as a single call does; this holds
    on every page, whether or not the anchors exist. *)
Theorem renderers_idempotent (s : Page) :
  (forall data, (renderProfile data ;; renderProfile data) s = renderProfile data s) /\
  (forall data, (renderSkills data ;; renderSkills data) s = renderSkills data s) /\
  (forall data, (renderExperience data ;; renderExperience data) s
                = renderExperience data s) /\
  (forall data, (renderProjects data ;; renderProjects data) s = renderProjects data s) /\
  (forall data, (renderAchievements data ;; renderAchievements data) s
                = renderAchievements data s).
Proof.
  repeat split; intros data; apply scripted_twice.
  - apply scripted_renderProfile.
  - apply scripted_renderSkills.
  - apply scripted_renderExperience.
  - apply scripted_renderProjects.
  - apply scripted_renderAchievements.
Qed.

(** ** Data loading and start-up *)

Lemma bind_run {A B} (m : M A) (k : A -> M B) s a s1 :
  m s = (Normal a, s1) -> bind m k s = k a s1.
Proof. intros E. unfold bind. by rewrite E. Qed.

Lemma logged_nil s : logged [] s = s.
Proof. destruct s. unfold logged. cbn. by rewrite app_nil_r. Qed.

Lemma logged_logged l1 l2 s : logged l2 (logged l1 s) = logged (l1 ++ l2) s.
Proof. unfold logged. cbn. by rewrite <- app_assoc. Qed.

Lemma loadJSON_run {A} path (f : Fetched A) s :
  loadJSON path f s = (Normal (loaded f), logged (failure_line path f) s).
Proof.
  destruct f as [reason|[|] [doc|]]; cbn; try reflexivity.
  unfold loadJSON. cbn. by rewrite logged_nil.
Qed.

Lemma get_ok i s : i ∈ elems s -> getElementById i s = (Normal (Some i), s).
Proof. intros H. unfold getElementById. by rewrite bool_decide_eq_true_2. Qed.

Lemma shell_has s i :
  shell_ok s ->
  i ∈ profile_anchors ++ skills_anchors ++ experience_anchors ++ projects_anchors
      ++ achievements_anchors ++ controller_anchors ->
  i ∈ elems s.
Proof. intros H Hi. unfold shell_ok in H. rewrite Forall_forall in H. auto. Qed.

Lemma shell_ok_elems s s' : elems s' = elems s -> shell_ok s -> shell_ok s'.
Proof. unfold shell_ok. by intros ->. Qed.

(** One step of a render function on a page that has the element. *)
Ltac anchor_in Hs :=
  apply (shell_has _ _ Hs); compute_done.

Ltac run_anchor Hs :=
  first
    [ erewrite (bind_run (getElementById _)) by (apply get_ok; anchor_in Hs)
    | erewrite (bind_run (assign (Some _) _ _)) by reflexivity
    | erewrite (bind_run (addEventListener (Some _) _)) by reflexivity ].

Lemma renderContactButtons_ok social cvPath s :
  shell_ok s ->
  renderContactButtons social cvPath s =
  (Normal tt, write ("contact-buttons", "innerHTML") (join (contactButtons social)) s).
Proof. intros Hs. unfold renderContactButtons. run_anchor Hs. reflexivity. Qed.

Lemma renderFooterSocial_ok social s :
  shell_ok s ->
  renderFooterSocial social s =
  (Normal tt, write ("footer-social", "innerHTML") (join (footerLinks social)) s).
Proof. intros Hs. unfold renderFooterSocial. run_anchor Hs. reflexivity. Qed.

Lemma renderProfile_ok data s :
  shell_ok s -> renderProfile data s = (Normal tt, write_all (profile_writes data) s).
Proof.
  intros Hs. unfold renderProfile.
  repeat run_anchor Hs.
  erewrite bind_run by (apply renderContactButtons_ok; exact Hs).
  rewrite renderFooterSocial_ok by exact Hs.
  reflexivity.
Qed.

Lemma renderSkills_ok data s :
  shell_ok s -> renderSkills data s = (Normal tt, write_all (skills_writes data) s).
Proof. intros Hs. unfold renderSkills. run_anchor Hs. reflexivity. Qed.

Lemma renderExperience_ok data s :
  shell_ok s ->
  renderExperience data s = (Normal tt, write_all (experience_writes data) s).
Proof. intros Hs. unfold renderExperience. run_anchor Hs. reflexivity. Qed.

Lemma renderProjects_ok data s :
  shell_ok s -> renderProjects data s = (Normal tt, write_all (projects_writes data) s).
Proof. intros Hs. unfold renderProjects. repeat run_anchor Hs. reflexivity. Qed.

Lemma renderAchievements_ok data s :
  shell_ok s ->
  renderAchievements data s = (Normal tt, write_all (achievements_writes data) s).
Proof.
  intros Hs. unfold renderAchievements. run_anchor Hs.
  unfold achievements_writes. by destruct (length (allItems data) =? 0)%nat.
Qed.

Lemma when_present_ok {A} (o : option A) (render : A -> M unit) writes s :
  (forall d, render d s = (Normal tt, write_all (writes d) s)) ->
  when_present o render s = (Normal tt, write_all (writes_of writes o) s).
Proof. intros H. destruct o; cbn; [apply H|reflexivity]. Qed.

Lemma elems_logged l s : elems (logged l s) = elems s.
Proof. reflexivity. Qed.

Lemma bind_get {B} i (k : handle -> M B) s :
  bind (getElementById i) k s
  = k (if bool_decide (i ∈ elems s) then Some i else None) s.
Proof. reflexivity. Qed.

Lemma initNavigation_ok s : shell_ok s -> initNavigation s = (Normal tt, s).
Proof.
  intros Hs. unfold initNavigation.
  rewrite bind_get. run_anchor Hs. rewrite bind_get. reflexivity.
Qed.

Lemma initModal_ok s : shell_ok s -> initModal s = (Normal tt, s).
Proof.
  intros Hs. unfold initModal. do 2 run_anchor Hs.
  erewrite (bind_run (querySelectorIn _ _)) by (apply get_ok; anchor_in Hs).
  repeat run_anchor Hs. reflexivity.
Qed.

Lemma initFilters_ok projectsData s :
  shell_ok s -> initFilters projectsData s = (Normal tt, s).
Proof. intros Hs. unfold initFilters. repeat run_anchor Hs. reflexivity. Qed.

(** *** The five loads *)

Lemma insert_settled_perm time d order : insert_settled time d order ≡ₚ d :: order.
Proof.
  induction order as [|d' order IH]; [done|].
  cbn [insert_settled]. destruct (time d <? time d')%nat; [done|].
  rewrite IH. apply Permutation_swap.
Qed.

Lemma settle_order_perm net : settle_order net ≡ₚ all_documents.
Proof.
  unfold settle_order.
  assert (Hfold : forall docs order,
            fold_left (fun order d => insert_settled (settles net) d order) docs order
            ≡ₚ docs ++ order).
  { induction docs as [|d docs IH]; intros order; [done|].
    cbn [fold_left]. rewrite IH, insert_settled_perm.
    by rewrite <- Permutation_middle. }
  rewrite Hfold. by rewrite app_nil_r.
Qed.

Lemma settle_run net docs d s :
  settle net docs d s = (Normal (record_load net docs d), logged (load_failure net d) s).
Proof.
  destruct d; unfold settle; erewrite bind_run by apply loadJSON_run; reflexivity.
Qed.

Lemma Promise_all_run net order docs s :
  Promise_all net order docs s
  = (Normal (fold_left (record_load net) order docs),
     logged (flat_map (load_failure net) order) s).
Proof.
  revert docs s. induction order as [|d order IH]; intros docs s.
  - cbn. by rewrite logged_nil.
  - cbn [Promise_all fold_left flat_map].
    erewrite bind_run by apply settle_run. by rewrite IH, logged_logged.
Qed.

Lemma settled_cons (d d' : Document) order :
  bool_decide (d ∈ d' :: order) = bool_decide (d = d') || bool_decide (d ∈ order).
Proof.
  destruct (decide (d = d')) as [->|Hd].
  - rewrite (bool_decide_eq_true_2 (d' = d')) by done.
    by rewrite bool_decide_eq_true_2 by left.
  - rewrite (bool_decide_eq_false_2 (d = d')) by done. cbn.
    apply bool_decide_ext. rewrite elem_of_cons. tauto.
Qed.

(** Whatever the order, every load that has settled has its result in its
    place of the array. *)
Lemma record_loads net order docs :
  fold_left (record_load net) order docs
  = {| profile_doc := if bool_decide (ProfileDoc ∈ order)
                      then loaded (profile_json net) else profile_doc docs;
       skills_doc := if bool_decide (SkillsDoc ∈ order)
                     then loaded (skills_json net) else skills_doc docs;
       experience_doc := if bool_decide (ExperienceDoc ∈ order)
                         then loaded (experience_json net) else experience_doc docs;
       projects_doc := if bool_decide (ProjectsDoc ∈ order)
                       then loaded (projects_json net) else projects_doc docs;
       achievements_doc := if bool_decide (AchievementsDoc ∈ order)
                           then loaded (achievements_json net)
                           else achievements_doc docs |}.
Proof.
  revert docs. induction order as [|d order IH]; intros docs.
  - by destruct docs.
  - cbn [fold_left]. rewrite IH, !settled_cons.
    destruct d; cbn [record_load profile_doc skills_doc experience_doc projects_doc
                     achievements_doc];
      f_equal; repeat case_bool_decide; done.
Qed.

Lemma loads_run {B} net (k : Loaded -> M B) s :
  bind (Promise_all net (settle_order net) nothing_loaded) k s
  = k (all_loaded net) (logged (startup_failures net) s).
Proof.
  erewrite bind_run by apply Promise_all_run.
  fold (startup_failures net). f_equal.
  rewrite record_loads. unfold all_loaded.
  assert (Hin : forall d, d ∈ settle_order net).
  { intros d. rewrite settle_order_perm. destruct d; compute_done. }
  by rewrite !bool_decide_eq_true_2 by apply Hin.
Qed.

Lemma startup_failures_perm net :
  startup_failures net ≡ₚ flat_map (load_failure net) all_documents.
Proof.
  unfold startup_failures. rewrite !flat_map_concat_map.
  by rewrite (settle_order_perm net).
Qed.

Lemma onDOMContentLoaded_run net fullYear s :
  shell_ok s ->
  onDOMContentLoaded net fullYear s =
  (Normal tt, write_all (startup_writes net fullYear) (logged (startup_failures net) s)).
Proof.
  intros Hs. unfold onDOMContentLoaded.
  rewrite loads_run. cbn [all_loaded profile_doc skills_doc experience_doc projects_doc
                          achievements_doc].
  set (s0 := logged (startup_failures net) s).
  assert (Hs0 : shell_ok s0) by (by apply (shell_ok_elems s)).
  assert (Hw : forall ws, shell_ok (write_all ws s0)).
  { intros ws. apply (shell_ok_elems s0); [apply elems_write_all|done]. }
  erewrite bind_run
    by (apply when_present_ok; intros d; by apply renderProfile_ok).
  repeat (erewrite bind_run;
    [|apply when_present_ok; intros d;
      first [ apply renderSkills_ok | apply renderExperience_ok
            | apply renderProjects_ok | apply renderAchievements_ok ];
      apply Hw];
    rewrite <- write_all_app).
  erewrite bind_run by (apply initNavigation_ok; apply Hw).
  erewrite bind_run by reflexivity.
  erewrite bind_run by (apply initModal_ok; apply Hw).
  erewrite bind_run by (apply initFilters_ok; apply Hw).
  erewrite (bind_run (getElementById _))
    by (apply get_ok; apply (shell_has _ _ (Hw _)); compute_done).
  cbn [assign].
  unfold startup_writes. rewrite !app_assoc, (write_all_app _ [_]). reflexivity.
Qed.

Lemma props_write_all_logged ws l s :
  props (write_all ws (logged l s)) = list_to_map (reverse ws) ∪ props s.
Proof. by rewrite props_write_all. Qed.

Lemma skipped_by ws l s anchors :
  Forall (fun a => a ∉ (ws.*1).*1) anchors ->
  section_skipped anchors s (write_all ws (logged l s)).
Proof.
  intros Hall a p Ha. rewrite Forall_forall in Hall.
  rewrite props_write_all_logged, lookup_union_r; [done|].
  apply not_elem_of_list_to_map_1. rewrite fmap_reverse, elem_of_reverse.
  intros Hin. apply (Hall a Ha).
  apply (list_elem_of_fmap_2 fst) in Hin. exact Hin.
Qed.

Lemma rendered_by ws l s sub :
  NoDup (ws.*1) -> (forall w, w ∈ sub -> w ∈ ws) ->
  section_rendered sub (write_all ws (logged l s)).
Proof.
  intros Hnd Hsub k v Hin.
  rewrite props_write_all_logged. apply lookup_union_Some_l.
  apply elem_of_list_to_map_1.
  - rewrite fmap_reverse. by rewrite reverse_Permutation.
  - rewrite elem_of_reverse. auto.
Qed.

(** C2: the loader never throws: whatever the fetch does, [loadJSON]
    completes normally with the document or with nothing, and in the
    latter case it has logged one line.  On a page that has the script's
    elements, the start-up listener completes normally for every
    combination of the five fetch outcomes and every order in which the
    five loads settle; the console then holds the lines of the failed
    loads, in the order in which they settled; each section whose document
    is absent keeps every property of its anchors, and each section whose
    document is present has all the assignments of its render function. *)
Theorem startup_tolerates_failed_loads (s : Page) (net : Network)
    (fullYear : SafeInteger) :
  shell_ok s ->
  (forall A path (f : Fetched A) s0,
     loadJSON path f s0 = (Normal (loaded f), logged (failure_line path f) s0) /\
     (loaded f = None -> length (failure_line path f) = 1)) /\
  exists s',
    onDOMContentLoaded net fullYear s = (Normal tt, s') /\
    console s' = console s ++ flat_map (load_failure net) (settle_order net) /\
    flat_map (load_failure net) (settle_order net)
    ≡ₚ flat_map (load_failure net) all_documents /\
    section_outcome (loaded (profile_json net)) profile_anchors profile_writes s s' /\
    section_outcome (loaded (skills_json net)) skills_anchors skills_writes s s' /\
    section_outcome (loaded (experience_json net)) experience_anchors
      experience_writes s s' /\
    section_outcome (loaded (projects_json net)) projects_anchors projects_writes s s' /\
    section_outcome (loaded (achievements_json net)) achievements_anchors
      achievements_writes s s'.
Proof.
  intros Hs. split.
  { intros A path f s0. split; [apply loadJSON_run|].
    by destruct f as [reason|[|] [doc|]]. }
  eexists. split; [by apply onDOMContentLoaded_run|].
  split.
  { by rewrite write_all_frame. }
  split; [apply startup_failures_perm|].
  unfold startup_writes, section_outcome.
  destruct (loaded (profile_json net)), (loaded (skills_json net)),
    (loaded (experience_json net)), (loaded (projects_json net)),
    (loaded (achievements_json net));
    cbn [writes_of];
    repeat split;
    first [ apply skipped_by; compute_done
          | apply rendered_by;
            [compute_done|intros w Hw; rewrite !elem_of_app; tauto] ].
Qed.

Lemma shell_page_ok : shell_ok shell_page.
Proof.
  unfold shell_ok. rewrite Forall_forall. intros i Hi.
  apply elem_of_list_to_set. rewrite !elem_of_app in *. tauto.
Qed.

(** The start-up of [skills_down] on [shell_page]: the hypothesis of
    [startup_tolerates_failed_loads] holds there, the profile is rendered and
    the skills grid is left alone. *)
Lemma startup_tolerates_failed_loads_witness :
  shell_ok shell_page /\
  exists s',
    onDOMContentLoaded skills_down year_2026 shell_page = (Normal tt, s') /\
    console s'
    = [ "Error loading ./data/achievements.json: SyntaxError";
        "Error loading ./data/experience.json: Failed to load ./data/experience.json";
        "Error loading ./data/skills.json: NetworkError" ] /\
    section_rendered (profile_writes sample_profile) s' /\
    section_skipped skills_anchors shell_page s'.
Proof.
  split; [exact shell_page_ok|].
  destruct (startup_tolerates_failed_loads shell_page skills_down year_2026
              shell_page_ok)
    as (_ & s' & Hrun & Hlog & _ & Hprofile & Hskills & _).
  exists s'. repeat split; assumption.
Defined.

(** ** The project modal *)

Lemma closeModal_run s :
  closeModal s =
  if bool_decide ("project-modal" ∈ elems s)
  then (Normal tt,
        {| elems := elems s; props := props s;
           classes := classes s ∖ {[ ("project-modal", "active") ]};
           body_overflow := EmptyString; console := console s;
           projectsData := projectsData s |})
  else (Throw "TypeError", s).
Proof. unfold closeModal. rewrite bind_get. by case_bool_decide. Qed.

Lemma openModal_run project s :
  openModal project s =
  if bool_decide ("modal-body" ∈ elems s) then
    let s1 := write ("modal-body", "innerHTML") (modalHTML project) s in
    if bool_decide ("project-modal" ∈ elems s) then
      (Normal tt,
       {| elems := elems s; props := props s1;
          classes := {[ ("project-modal", "active") ]} ∪ classes s;
          body_overflow := "hidden"; console := console s;
          projectsData := projectsData s |})
    else (Throw "TypeError", s1)
  else (Throw "TypeError", s).
Proof.
  unfold openModal. rewrite !bind_get.
  destruct (bool_decide ("modal-body" ∈ elems s)); [|by case_bool_decide].
  by case_bool_decide.
Qed.

Lemma modal_inv_closeModal s : modal_inv s -> modal_inv (after closeModal s).
Proof.
  intros Hinv. unfold after. rewrite closeModal_run.
  case_bool_decide; [|exact Hinv].
  unfold modal_inv, modal_open, scroll_locked. cbn. split.
  - intros Hin. apply elem_of_difference in Hin as [_ Hin].
    by rewrite elem_of_singleton in Hin.
  - discriminate.
Qed.

Lemma modal_inv_openModal project s : modal_inv s -> modal_inv (after (openModal project) s).
Proof.
  intros Hinv. unfold after. rewrite openModal_run.
  case_bool_decide; [|exact Hinv].
  case_bool_decide; [|exact Hinv].
  unfold modal_inv, modal_open, scroll_locked. cbn. split; [done|].
  intros _. apply elem_of_union_l. by apply elem_of_singleton.
Qed.

Lemma onGridClick_run card s :
  onGridClick card s =
  match card, projectsData s with
  | Some projectId, Some data =>
      match find_project data projectId with
      | Some project => openModal project s
      | None => (Normal tt, s)
      end
  | _, _ => (Normal tt, s)
  end.
Proof.
  unfold onGridClick, bind, get_projectsData.
  destruct card as [projectId|], (projectsData s) as [data|]; try reflexivity.
  by destruct (find_project data projectId).
Qed.

Lemma onKeyDown_run key s :
  onKeyDown (Some "project-modal") key s =
  if String.eqb key "Escape" then
    if bool_decide (("project-modal", "active") ∈ classes s)
    then closeModal s else (Normal tt, s)
  else (Normal tt, s).
Proof.
  unfold onKeyDown. destruct (String.eqb key "Escape"); [|reflexivity].
  unfold bind, classList_contains. by case_bool_decide.
Qed.

Lemma onModalDataLoaded_run f s :
  onModalDataLoaded f s =
  (Normal tt,
   {| elems := elems s; props := props s; classes := classes s;
      body_overflow := body_overflow s;
      console := console s ++ failure_line "./data/projects.json" f;
      projectsData := loaded f |}).
Proof.
  unfold onModalDataLoaded.
  erewrite bind_run by apply loadJSON_run. reflexivity.
Qed.

Lemma modal_inv_step e s : modal_inv s -> modal_inv (after (modalListener e) s).
Proof.
  intros Hinv. destruct e as [card| | |key|f]; cbn [modalListener].
  - unfold after. rewrite onGridClick_run.
    destruct card as [projectId|], (projectsData s) as [data|]; try exact Hinv.
    destruct (find_project data projectId) as [project|]; [|exact Hinv].
    by apply modal_inv_openModal.
  - by apply modal_inv_closeModal.
  - by apply modal_inv_closeModal.
  - unfold after. rewrite onKeyDown_run.
    destruct (String.eqb key "Escape"); [|exact Hinv].
    case_bool_decide; [|exact Hinv]. by apply modal_inv_closeModal.
  - unfold after. rewrite onModalDataLoaded_run. exact Hinv.
Qed.

Lemma elems_step e s : elems (after (modalListener e) s) = elems s.
Proof.
  unfold after. destruct e as [card| | |key|f]; cbn [modalListener].
  - rewrite onGridClick_run.
    destruct card as [projectId|], (projectsData s) as [data|]; try reflexivity.
    destruct (find_project data projectId) as [project|]; [|reflexivity].
    rewrite openModal_run. by repeat case_bool_decide.
  - rewrite closeModal_run. by case_bool_decide.
  - rewrite closeModal_run. by case_bool_decide.
  - rewrite onKeyDown_run. destruct (String.eqb key "Escape"); [|reflexivity].
    case_bool_decide; [|reflexivity]. rewrite closeModal_run. by case_bool_decide.
  - by rewrite onModalDataLoaded_run.
Qed.

Lemma modalRun_snoc es e s :
  modalRun (es ++ [e]) s = after (modalListener e) (modalRun es s).
Proof. unfold modalRun. by rewrite fold_left_app. Qed.

Lemma modal_inv_run es s : modal_inv s -> modal_inv (modalRun es s).
Proof.
  induction es as [|e es IH] using rev_ind; [done|].
  intros Hinv. rewrite modalRun_snoc. by apply modal_inv_step, IH.
Qed.

Lemma elems_run es s : elems (modalRun es s) = elems s.
Proof.
  induction es as [|e es IH] using rev_ind; [done|].
  by rewrite modalRun_snoc, elems_step.
Qed.

Lemma closeModal_closes s :
  "project-modal" ∈ elems s ->
  ~ modal_open (after closeModal s) /\ ~ scroll_locked (after closeModal s).
Proof.
  intros Hel. unfold after. rewrite closeModal_run, bool_decide_eq_true_2 by done.
  unfold modal_open, scroll_locked. cbn. split; [|discriminate].
  intros Hin. apply elem_of_difference in Hin as [_ Hin].
  by rewrite elem_of_singleton in Hin.
Qed.

(** C6: while the modal's projects document is absent, a click in the
    projects grid, on a card or elsewhere, completes without an error and
    leaves the whole page, and so the closed modal, as it was. *)
Theorem click_before_data_is_noop (s : Page) (card : option string) :
  projectsData s = None ->
  modalListener (GridClick card) s = (Normal tt, s).
Proof.
  intros Hnone. cbn [modalListener]. rewrite onGridClick_run, Hnone.
  by destruct card.
Qed.

(** A click on the card of [p1] on [shell_page], whose data has not arrived. *)
Lemma click_before_data_is_noop_witness :
  projectsData shell_page = None /\
  modalListener (GridClick (Some "p1")) shell_page = (Normal tt, shell_page).
Proof.
  split; [reflexivity|].
  apply (click_before_data_is_noop shell_page (Some "p1")). reflexivity.
Defined.

(** C7: on a page that has the modal and its body, background scrolling is
    disabled exactly when the modal is open, and this is kept by every
    sequence of modal events.  A click on the card of a loaded project
    opens the modal and locks scrolling; the close control, the overlay and
    the escape key each leave the modal closed and scrolling enabled; any
    other key, a click outside the cards or on an unknown card, changes
    nothing; the arrival of the data changes neither. *)
Theorem modal_scroll_lock (s : Page) (es : list ModalEvent) (e : ModalEvent) :
  "project-modal" ∈ elems s -> "modal-body" ∈ elems s -> modal_inv s ->
  let s1 := modalRun es s in
  let s2 := after (modalListener e) s1 in
  modal_inv s1 /\ modal_inv s2 /\
  match e with
  | GridClick (Some projectId) =>
      match projectsData s1 with
      | Some data =>
          match find_project data projectId with
          | Some project =>
              modal_open s2 /\ scroll_locked s2 /\
              props s2 !! ("modal-body", "innerHTML") = Some (modalHTML project)
          | None => s2 = s1
          end
      | None => s2 = s1
      end
  | GridClick None => s2 = s1
  | CloseClick | OverlayClick => ~ modal_open s2 /\ ~ scroll_locked s2
  | KeyDown key =>
      if String.eqb key "Escape"
      then ~ modal_open s2 /\ ~ scroll_locked s2
      else s2 = s1
  | ModalDataLoaded f =>
      classes s2 = classes s1 /\ body_overflow s2 = body_overflow s1
  end.
Proof.
  intros Hmodal Hbody Hinv s1 s2.
  assert (Hinv1 : modal_inv s1) by (by apply modal_inv_run).
  assert (Hmodal1 : "project-modal" ∈ elems s1) by (subst s1; by rewrite elems_run).
  assert (Hbody1 : "modal-body" ∈ elems s1) by (subst s1; by rewrite elems_run).
  split; [exact Hinv1|]. split; [by apply modal_inv_step|].
  subst s2. clearbody s1. unfold after.
  destruct e as [card| | |key|f]; cbn [modalListener].
  - rewrite onGridClick_run.
    destruct card as [projectId|]; [|reflexivity].
    destruct (projectsData s1) as [data|]; [|reflexivity].
    destruct (find_project data projectId) as [project|]; [|reflexivity].
    rewrite openModal_run, !bool_decide_eq_true_2 by done.
    unfold modal_open, scroll_locked. cbn. repeat split.
    + apply elem_of_union_l. by apply elem_of_singleton.
    + apply lookup_insert_eq.
  - by apply closeModal_closes.
  - by apply closeModal_closes.
  - rewrite onKeyDown_run. destruct (String.eqb key "Escape"); [|reflexivity].
    case_bool_decide as Hopen; [by apply closeModal_closes|].
    cbn. split; [exact Hopen|]. intros Hlocked. by apply Hopen, Hinv1.
  - by rewrite onModalDataLoaded_run.
Qed.

(** The modal's data arrives on [shell_page], the card of [p1] is clicked
    and then the overlay: the modal is closed again and scrolling enabled. *)
Lemma modal_scroll_lock_witness :
  "project-modal" ∈ elems shell_page /\ "modal-body" ∈ elems shell_page /\
  modal_inv shell_page /\
  let s1 :=
    modalRun [ModalDataLoaded (Response true (Some sample_projects));
              GridClick (Some "p1")] shell_page in
  let s2 := after (modalListener OverlayClick) s1 in
  ~ modal_open s2 /\ ~ scroll_locked s2.
Proof.
  assert (H1 : "project-modal" ∈ elems shell_page).
  { apply (shell_has _ _ shell_page_ok). compute_done. }
  assert (H2 : "modal-body" ∈ elems shell_page).
  { unfold shell_page. cbn [elems]. apply elem_of_list_to_set. compute_done. }
  assert (H3 : modal_inv shell_page).
  { unfold modal_inv, modal_open, scroll_locked, shell_page.
    cbn [classes body_overflow]. split; [|discriminate].
    intros Hin. destruct (not_elem_of_empty _ Hin). }
  split; [exact H1|]. split; [exact H2|]. split; [exact H3|].
  exact (proj2 (proj2 (modal_scroll_lock shell_page
             [ModalDataLoaded (Response true (Some sample_projects));
              GridClick (Some "p1")] OverlayClick H1 H2 H3))).
Defined.

(** ** The scroll spy *)

Lemma is_active_mark_link sectionId link :
  is_active (mark_link sectionId link)
  = bool_decide (href link = Some ("#" +:+ sectionId)).
Proof.
  unfold mark_link, is_active. cbn [href link_remove].
  destruct (bool_decide (href link = Some ("#" +:+ sectionId)));
    cbn [link_add link_remove classList].
  - apply bool_decide_eq_true_2. apply elem_of_union_l. by apply elem_of_singleton.
  - apply bool_decide_eq_false_2. intros Hin.
    apply elem_of_difference in Hin as [_ Hin]. by rewrite elem_of_singleton in Hin.
Qed.

Lemma href_mark_link sectionId link : href (mark_link sectionId link) = href link.
Proof. unfold mark_link. cbn [href link_remove]. by case_bool_decide. Qed.

Lemma hrefs_mark sectionId navLinks :
  omap href (map (mark_link sectionId) navLinks) = omap href navLinks.
Proof.
  induction navLinks as [|link navLinks IH]; [done|].
  cbn. by rewrite href_mark_link, IH.
Qed.

Lemma active_count_cons link navLinks :
  active_count (link :: navLinks)
  = ((if is_active link then 1 else 0) + active_count navLinks)%nat.
Proof.
  unfold active_count. rewrite filter_cons.
  destruct (is_active link); by case_decide.
Qed.

(** No link is marked when the section's target is not among the hrefs. *)
Lemma active_count_mark_absent sectionId navLinks :
  ("#" +:+ sectionId) ∉ omap href navLinks ->
  active_count (map (mark_link sectionId) navLinks) = 0%nat.
Proof.
  induction navLinks as [|link navLinks IH]; intros Hnot; [done|].
  cbn [map]. rewrite active_count_cons, is_active_mark_link.
  cbn [omap list_omap] in Hnot. fold (omap href navLinks) in Hnot.
  case_bool_decide as Hhref.
  - rewrite Hhref in Hnot. exfalso. apply Hnot. apply list_elem_of_here.
  - rewrite IH; [done|]. intros Hin. apply Hnot.
    destruct (href link); [by apply list_elem_of_further|done].
Qed.

Lemma active_count_mark sectionId navLinks :
  NoDup (omap href navLinks) ->
  (active_count (map (mark_link sectionId) navLinks) <= 1)%nat.
Proof.
  induction navLinks as [|link navLinks IH]; intros Hnd; [cbn; lia|].
  cbn [map]. rewrite active_count_cons, is_active_mark_link.
  cbn [omap list_omap] in Hnd. fold (omap href navLinks) in Hnd.
  case_bool_decide as Hhref.
  - rewrite Hhref in Hnd. apply NoDup_cons in Hnd as [Hnot _].
    rewrite active_count_mark_absent by done. lia.
  - cbn. apply IH. destruct (href link); [by apply NoDup_cons in Hnd as [_ ?]|done].
Qed.

Lemma hrefs_spy_section scrollY navLinks section :
  omap href (spy_section scrollY navLinks section) = omap href navLinks.
Proof. unfold spy_section. destruct (in_view _ _); [apply hrefs_mark|done]. Qed.

Lemma updateActiveNav_at_most_one scrollY sections navLinks :
  NoDup (omap href navLinks) ->
  (active_count navLinks <= 1)%nat \/ existsb (in_view scrollY) sections = true ->
  (active_count (updateActiveNav scrollY sections navLinks) <= 1)%nat.
Proof.
  revert navLinks. induction sections as [|section sections IH];
    intros navLinks Hnd Hpre.
  - cbn in *. destruct Hpre; [done|discriminate].
  - cbn [updateActiveNav fold_left]. apply IH.
    + by rewrite hrefs_spy_section.
    + unfold spy_section. cbn [existsb] in Hpre.
      destruct (in_view scrollY section).
      * left. by apply active_count_mark.
      * done.
Qed.

Lemma updateActiveNav_out_of_view scrollY sections navLinks :
  existsb (in_view scrollY) sections = false ->
  updateActiveNav scrollY sections navLinks = navLinks.
Proof.
  induction sections as [|section sections IH]; intros Hnone; [done|].
  cbn [existsb] in Hnone. apply orb_false_iff in Hnone as [Hsec Hrest].
  cbn [updateActiveNav fold_left]. unfold spy_section. rewrite Hsec.
  by apply IH.
Qed.

(** C8, as the code has it: when the navigation links have pairwise
    distinct [href] values, then after a scroll-spy update at most one link
    is active, provided some section is in view at the scroll position or
    at most one link was active before; when no section is in view the
    update leaves the links as they were. *)
Theorem scroll_spy_at_most_one (scrollY : Z) (sections : list PageSection)
    (navLinks : list NavLink) :
  NoDup (omap href navLinks) ->
  (active_count navLinks <= 1)%nat \/ existsb (in_view scrollY) sections = true ->
  (active_count (updateActiveNav scrollY sections navLinks) <= 1)%nat /\
  (existsb (in_view scrollY) sections = false ->
   updateActiveNav scrollY sections navLinks = navLinks).
Proof.
  intros Hnd Hpre. split.
  - by apply updateActiveNav_at_most_one.
  - apply updateActiveNav_out_of_view.
Qed.

(** Scrolling to the [about] section with [plain_links]. *)
Lemma scroll_spy_at_most_one_witness :
  NoDup (omap href plain_links) /\
  ((active_count plain_links <= 1)%nat
   \/ existsb (in_view 0) [about_section] = true) /\
  (active_count (updateActiveNav 0 [about_section] plain_links) <= 1)%nat.
Proof.
  assert (Hnd : NoDup (omap href plain_links)) by compute_done.
  assert (Hpre : (active_count plain_links <= 1)%nat
                 \/ existsb (in_view 0) [about_section] = true)
    by (right; reflexivity).
  split; [exact Hnd|]. split; [exact Hpre|].
  exact (proj1 (scroll_spy_at_most_one 0 [about_section] plain_links Hnd Hpre)).
Defined.

(** C8 as stated fails: with two links to the same section, a scroll
    position inside that section marks both of them. *)
Lemma scroll_spy_two_active :
  ~ (forall scrollY sections navLinks,
       (active_count (updateActiveNav scrollY sections navLinks) <= 1)%nat).
Proof.
  intros Hclaim. specialize (Hclaim 0%Z [about_section] twin_links).
  assert (Htwo : active_count (updateActiveNav 0 [about_section] twin_links) = 2%nat).
  { cbn [updateActiveNav fold_left spy_section]. unfold spy_section.
    change (in_view 0 about_section) with true. cbn [twin_links map].
    rewrite !active_count_cons, !is_active_mark_link. reflexivity. }
  rewrite Htwo in Hclaim. lia.
Qed.

(** ** Filter buttons *)

Lemma first_seen_filter (P : string -> Prop) `{!forall x, Decision (P x)} l :
  first_seen (filter P l) = filter P (first_seen l).
Proof.
  induction l as [|x l IH]; [done|].
  rewrite filter_cons. cbn [first_seen]. case_decide as HP.
  - cbn [first_seen]. rewrite filter_cons, decide_True by done.
    rewrite IH. f_equal.
    rewrite !list_filter_filter. apply list_filter_iff. intros y. tauto.
  - rewrite filter_cons, decide_False by done.
    rewrite IH, list_filter_filter. apply list_filter_iff.
    intros y. split; [|tauto]. intros HPy. split; [done|]. by intros ->.
Qed.

Lemma fold_Set_add items set :
  fold_left Set_add items set
  = set ++ first_seen (filter (fun x => x ∉ set) items).
Proof.
  revert set. induction items as [|x items IH]; intros set.
  - cbn. by rewrite app_nil_r.
  - cbn [fold_left]. rewrite IH, filter_cons. unfold Set_add.
    case_bool_decide as Hin.
    + by rewrite decide_False by tauto.
    + rewrite decide_True by done. cbn [first_seen].
      rewrite <- app_assoc. cbn [app]. do 2 f_equal.
      rewrite <- first_seen_filter, list_filter_filter. f_equal.
      apply list_filter_iff. intros y.
      rewrite not_elem_of_app, not_elem_of_cons. split.
      * intros (? & ? & _). done.
      * intros (? & ?). repeat split; [done..|apply not_elem_of_nil].
Qed.

Lemma new_Set_first_seen items : new_Set items = first_seen items.
Proof.
  unfold new_Set. rewrite fold_Set_add. cbn [app]. f_equal.
  induction items as [|x items IH]; [done|].
  rewrite filter_cons, decide_True by apply not_elem_of_nil. by rewrite IH.
Qed.

Lemma elem_of_first_seen x l : x ∈ first_seen l <-> x ∈ l.
Proof.
  induction l as [|y l IH]; [done|].
  cbn [first_seen]. rewrite !elem_of_cons, list_elem_of_filter, IH.
  destruct (decide (x = y)); tauto.
Qed.

Lemma NoDup_first_seen l : NoDup (first_seen l).
Proof.
  induction l as [|y l IH]; [constructor|].
  cbn [first_seen]. constructor.
  - rewrite list_elem_of_filter. tauto.
  - by apply NoDup_filter.
Qed.

(** ** Markup and text *)

Lemma append_cons x (a b : string) : String x a +:+ b = String x (a +:+ b).
Proof. reflexivity. Qed.

Lemma append_assoc (a b c : string) : (a +:+ b) +:+ c = a +:+ (b +:+ c).
Proof. induction a as [|x a IH]; [done|]. rewrite !append_cons. by f_equal. Qed.

Lemma append_nil_r (a : string) : a +:+ EmptyString = a.
Proof. induction a as [|x a IH]; [done|]. rewrite append_cons. by f_equal. Qed.

Lemma attr_literal_safe v : attr_literal v = true -> attr_safe v = true.
Proof.
  induction v as [|c v IH]; [done|]. cbn [attr_literal attr_safe].
  unfold attr_literal_char. rewrite !andb_true_iff. intros [[[[Hc _] _] _] Hv]. auto.
Qed.

(** A field value without markup characters is read as text, character
    for character. *)
Lemma tokenize_literal f rest :
  literal f = true ->
  tokenize Data (f +:+ rest) = text_tokens f ++ tokenize Data rest.
Proof.
  induction f as [|c f IH]; intros Hliteral; [done|].
  cbn [literal] in Hliteral. apply andb_true_iff in Hliteral as [Hc Hf].
  unfold literal_char, plain_char in Hc. rewrite !andb_true_iff in Hc.
  destruct Hc as [[[Hlt Hamp] Hcr] Hnul].
  apply negb_true_iff in Hlt, Hamp, Hcr, Hnul.
  rewrite append_cons. cbn [tokenize text_tokens app]. rewrite Hlt, Hamp, Hcr, Hnul.
  by rewrite IH.
Qed.

(** A field value without [<] and [&] is read as text, and as text only:
    the characters are those of the value, except that the parser
    normalizes line ends and drops NUL. *)
Lemma tokenize_plain_text f rest :
  plain f = true ->
  exists text, tokenize Data (f +:+ rest) = text_tokens text ++ tokenize Data rest.
Proof.
  induction f as [|c f IH]; intros Hplain; [by exists EmptyString|].
  cbn [plain] in Hplain. apply andb_true_iff in Hplain as [Hc Hf].
  unfold plain_char in Hc. apply andb_true_iff in Hc as [Hlt Hamp].
  apply negb_true_iff in Hlt, Hamp.
  destruct (IH Hf) as [text Htext].
  rewrite append_cons. cbn [tokenize]. rewrite Hlt, Hamp, Htext.
  destruct (Ascii.eqb c "013").
  { destruct (starts_with nl (f +:+ rest));
      [by exists text|by exists (String "010" text)]. }
  destruct (Ascii.eqb c "000"); [by exists text|by exists (String c text)].
Qed.

Lemma tagsOf_text_tokens f ts : tagsOf (text_tokens f ++ ts) = tagsOf ts.
Proof. induction f as [|c f IH]; [done|]. exact IH. Qed.

Lemma textIn_text_tokens tag f ts : textIn tag (text_tokens f ++ ts) = textIn tag ts.
Proof. induction f as [|c f IH]; [done|]. exact IH. Qed.

Lemma leading_text_text_tokens f ts :
  leading_text (text_tokens f ++ ts) = f +:+ leading_text ts.
Proof. induction f as [|c f IH]; [done|]. rewrite append_cons. cbn. by f_equal. Qed.

Lemma tokenize_attr v buf rest :
  attr_safe v = true ->
  tokenize (InTag true buf) (v +:+ rest) = tokenize (InTag true (buf +:+ v)) rest.
Proof.
  revert buf. induction v as [|c v IH]; intros buf Hsafe.
  - by rewrite append_nil_r.
  - cbn [attr_safe] in Hsafe. apply andb_true_iff in Hsafe as [Hc Hv].
    apply negb_true_iff in Hc.
    rewrite append_cons. cbn [tokenize]. rewrite Hc, andb_false_r.
    rewrite IH by done. unfold snoc. by rewrite append_assoc.
Qed.

Lemma tokenize_attr_literal v buf rest :
  attr_literal v = true ->
  tokenize (InTag true buf) (v +:+ rest) = tokenize (InTag true (buf +:+ v)) rest.
Proof. intros Hv. by apply tokenize_attr, attr_literal_safe. Qed.

Lemma tokenize_feed a : forall m rest ts m',
  feed m a = Some (ts, m') ->
  tokenize m (a +:+ rest) = ts ++ tokenize m' rest.
Proof.
  induction a as [|c a IH]; intros m rest ts m' Hfeed.
  - cbn in Hfeed. by injection Hfeed as <- <-.
  - rewrite append_cons. cbn [tokenize]. cbn [feed] in Hfeed.
    destruct m as [|n|quoted buf].
    + destruct (Ascii.eqb c "<").
      * destruct a as [|c1 a]; [discriminate|].
        rewrite append_cons.
        change (starts_tag (String c1 (a +:+ rest))) with (starts_tag (String c1 a)).
        rewrite <- append_cons.
        destruct (starts_tag (String c1 a)); [by apply IH|].
        destruct (feed Data (String c1 a)) as [[ts0 m0]|] eqn:Hrec; [|discriminate].
        cbn in Hfeed. injection Hfeed as <- <-.
        by rewrite (IH _ _ _ _ Hrec).
      * destruct (Ascii.eqb c "&").
        -- destruct a as [|c1 [|c2 [|c3 [|c4 [|c5 a]]]]]; try discriminate.
           rewrite !append_cons.
           change (char_reference
                     (String c1 (String c2 (String c3 (String c4 (String c5 (a +:+ rest)))))))
             with (char_reference
                     (String c1 (String c2 (String c3 (String c4 (String c5 a)))))).
           rewrite <- !append_cons.
           destruct (char_reference _) as [[c' n]|].
           ++ destruct (feed (Skip n) _) as [[ts0 m0]|] eqn:Hrec; [|discriminate].
              cbn in Hfeed. injection Hfeed as <- <-.
              by rewrite (IH _ _ _ _ Hrec).
           ++ destruct (feed Data _) as [[ts0 m0]|] eqn:Hrec; [|discriminate].
              cbn in Hfeed. injection Hfeed as <- <-.
              by rewrite (IH _ _ _ _ Hrec).
        -- destruct (Ascii.eqb c "013").
           ++ destruct a as [|c1 a]; [discriminate|].
              rewrite append_cons.
              change (starts_with nl (String c1 (a +:+ rest)))
                with (starts_with nl (String c1 a)).
              rewrite <- append_cons.
              destruct (starts_with nl (String c1 a)); [by apply IH|].
              destruct (feed Data (String c1 a)) as [[ts0 m0]|] eqn:Hrec; [|discriminate].
              cbn in Hfeed. injection Hfeed as <- <-.
              by rewrite (IH _ _ _ _ Hrec).
           ++ destruct (Ascii.eqb c "000"); [by apply IH|].
              destruct (feed Data a) as [[ts0 m0]|] eqn:Hrec; [|discriminate].
              cbn in Hfeed. injection Hfeed as <- <-.
              by rewrite (IH _ _ _ _ Hrec).
    + by apply IH.
    + destruct (Ascii.eqb c "034"); [by apply IH|].
      destruct (Ascii.eqb c ">" && negb quoted); [|by apply IH].
      destruct (feed Data a) as [[ts0 m0]|] eqn:Hrec; [|discriminate].
      cbn in Hfeed. injection Hfeed as <- <-.
      by rewrite (IH _ _ _ _ Hrec).
Qed.

Lemma feed_graft a : forall quoted b0 buf ts m',
  feed (InTag quoted b0) a = Some (ts, m') ->
  feed (InTag quoted (buf +:+ b0)) a = Some (graft buf (ts, m')).
Proof.
  induction a as [|c a IH]; intros quoted b0 buf ts m' Hfeed.
  - cbn in Hfeed. by injection Hfeed as <- <-.
  - cbn [feed] in *.
    assert (Hsnoc : snoc (buf +:+ b0) c = buf +:+ snoc b0 c)
      by (unfold snoc; apply append_assoc).
    rewrite Hsnoc.
    destruct (Ascii.eqb c "034"); [by apply IH|].
    destruct (Ascii.eqb c ">" && negb quoted); [|by apply IH].
    destruct (feed Data a) as [[ts0 m0]|]; [|discriminate].
    cbn in *. by injection Hfeed as <- <-.
Qed.

Lemma tokenize_feed_tag a quoted buf rest ts m' :
  feed (InTag quoted EmptyString) a = Some (ts, m') ->
  tokenize (InTag quoted buf) (a +:+ rest)
  = fst (graft buf (ts, m')) ++ tokenize (snd (graft buf (ts, m'))) rest.
Proof.
  intros Hfeed. apply tokenize_feed.
  rewrite <- (append_nil_r buf) at 1.
  rewrite (feed_graft _ _ _ buf _ _ Hfeed). by destruct (graft buf (ts, m')).
Qed.

(** One piece of closed markup at the head of the input is tokenized by
    evaluation; inside a tag the buffer may hold field values. *)
Ltac feed_step :=
  match goal with
  | |- context [tokenize (InTag ?quoted (?b1 +:+ ?b2)) (?p +:+ ?rest)] =>
      let r := eval vm_compute in (feed (InTag quoted EmptyString) p) in
      match r with
      | Some (?ts, ?m') =>
          let H := fresh "Hfeed" in
          assert (H : feed (InTag quoted EmptyString) p = Some (ts, m'))
            by (vm_compute; reflexivity);
          rewrite (tokenize_feed_tag p quoted (b1 +:+ b2) rest ts m' H); clear H;
          cbn [graft graft_mode fst snd]
      end
  | |- context [tokenize ?m (?p +:+ ?rest)] =>
      let r := eval vm_compute in (feed m p) in
      match r with
      | Some (?ts, ?m') =>
          let H := fresh "Hfeed" in
          assert (H : feed m p = Some (ts, m')) by (vm_compute; reflexivity);
          rewrite (tokenize_feed p m rest ts m' H); clear H
      end
  end.

#[local] Arguments starts_with !p s : simpl nomatch.
#[local] Arguments String.eqb !s1 !s2.

(** A tag whose name starts with another letter is not the tag looked for. *)
Lemma eqb_head c a x c' t :
  Ascii.eqb c c' = false -> String.eqb (String c a +:+ x) (String c' t) = false.
Proof. intros Hc. rewrite append_cons. cbn [String.eqb]. by rewrite Hc. Qed.

Lemma starts_with_cons c a x c' p :
  starts_with (String c' p) (String c a +:+ x)
  = Ascii.eqb c' c && starts_with p (a +:+ x).
Proof. by rewrite append_cons. Qed.

Lemma tagsOf_app ts1 ts2 : tagsOf (ts1 ++ ts2) = tagsOf ts1 ++ tagsOf ts2.
Proof.
  induction ts1 as [|[c|t] ts1 IH]; [done| |]; cbn; by rewrite ?IH.
Qed.



Lemma tagsOf_highlights hs :
  tagsOf (flat_map highlight_tokens hs)
  = concat (replicate (length hs) [highlight_tag; "/li"]).
Proof.
  induction hs as [|h hs IH]; [done|].
  cbn [flat_map length replicate concat]. rewrite tagsOf_app, IH.
  unfold highlight_tokens. cbn [tagsOf]. by rewrite tagsOf_text_tokens.
Qed.



Ltac read_tags :=
  repeat first
    [ progress cbn [tagsOf app]
    | rewrite tagsOf_text_tokens
    | rewrite tagsOf_app, tagsOf_highlights ].








(** ** Filter buttons, parsed *)

Lemma buttonLabels_text_tokens f ts :
  buttonLabels (text_tokens f ++ ts) = buttonLabels ts.
Proof. induction f as [|c f IH]; [done|]. exact IH. Qed.

Lemma filter_button_item cat rest :
  button_safe cat = true ->
  buttonLabels (tokenize Data (filterButtonTemplate cat +:+ rest))
  = cat :: buttonLabels (tokenize Data rest).
Proof.
  unfold button_safe. rewrite andb_true_iff. intros [Hliteral Hattr].
  unfold filterButtonTemplate, q. rewrite !append_assoc.
  repeat first [ feed_step
               | rewrite tokenize_literal by assumption
               | rewrite tokenize_attr by assumption
               | rewrite tokenize_attr_literal by assumption ].
  cbn [app]. rewrite ?append_assoc.
  repeat first
    [ rewrite starts_with_cons
    | progress cbn [buttonLabels leading_text app starts_with Ascii.eqb Bool.eqb andb]
    | rewrite buttonLabels_text_tokens
    | rewrite leading_text_text_tokens ].
  by rewrite append_nil_r.
Qed.

Lemma filter_button_items cats rest :
  forallb button_safe cats = true ->
  buttonLabels (tokenize Data (join (map filterButtonTemplate cats) +:+ rest))
  = cats ++ buttonLabels (tokenize Data rest).
Proof.
  induction cats as [|cat cats IH]; intros Hsafe; [done|].
  cbn [forallb] in Hsafe. apply andb_true_iff in Hsafe as [Hcat Hcats].
  cbn [map join]. rewrite append_assoc, filter_button_item by done.
  by rewrite IH.
Qed.

Lemma forallb_first_seen (P : string -> bool) l :
  forallb P l = true -> forallb P (first_seen l) = true.
Proof.
  rewrite !forallb_forall. intros Hall x Hx. apply Hall.
  apply list_elem_of_In. apply elem_of_first_seen. by apply list_elem_of_In.
Qed.

Lemma filterHTML_labels data :
  forallb button_safe (map category (projects data)) = true ->
  buttonLabels (parseHTML (filterHTML data))
  = "All" :: first_seen (map category (projects data)).
Proof.
  intros Hsafe. unfold parseHTML, filterHTML, projectCategories.
  rewrite new_Set_first_seen.
  rewrite <- (append_nil_r (ind 4)). unfold allButton, q. rewrite !append_assoc.
  repeat first [ feed_step ]. cbn [app].
  repeat first
    [ progress cbn [buttonLabels leading_text app starts_with Ascii.eqb Bool.eqb andb]
    | rewrite filter_button_items by (by apply forallb_first_seen) ].
  feed_step. cbn. by rewrite app_nil_r.
Qed.

(** ** Technology labels *)

Lemma attr_safe_app a b : attr_safe (a +:+ b) = attr_safe a && attr_safe b.
Proof.
  induction a as [|c a IH]; [done|].
  rewrite append_cons. cbn [attr_safe]. by rewrite IH, andb_assoc.
Qed.

Lemma attr_safe_percent_byte c : attr_safe (percent_byte c) = true.
Proof.
  unfold percent_byte, hex_digit.
  assert (Hlt : (nat_of_ascii c / 16 < 16)%nat).
  { apply Nat.Div0.div_lt_upper_bound. pose proof (nat_ascii_bounded c). lia. }
  assert (Hmod : (nat_of_ascii c mod 16 < 16)%nat) by (apply Nat.mod_upper_bound; lia).
  generalize dependent (nat_of_ascii c / 16)%nat. intros hi Hhi.
  generalize dependent (nat_of_ascii c mod 16)%nat. intros lo Hlo.
  do 16 (destruct hi as [|hi]; [do 16 (destruct lo as [|lo]; [reflexivity|]); lia|]).
  lia.
Qed.

Lemma attr_safe_encodeURIComponent s : attr_safe (encodeURIComponent s) = true.
Proof.
  induction s as [|c s IH]; [done|].
  cbn [encodeURIComponent]. rewrite attr_safe_app, IH, andb_true_r.
  destruct (uri_unreserved c) eqn:Hc; [|apply attr_safe_percent_byte].
  cbn [attr_safe]. rewrite andb_true_r. apply negb_true_iff.
  destruct (Ascii.eqb c "034") eqn:Hq; [|done].
  apply Ascii.eqb_eq in Hq. subst c. discriminate Hc.
Qed.



Lemma slice_0_4 {A} (l : list A) : slice 0 4 l = take 4 l.
Proof. reflexivity. Qed.

Lemma forallb_take {A} (P : A -> bool) n l :
  forallb P l = true -> forallb P (take n l) = true.
Proof.
  rewrite !forallb_forall. intros Hall x Hx. apply Hall.
  apply list_elem_of_In. apply list_elem_of_In in Hx.
  by apply (subseteq_take n l).
Qed.









(** ** Achievements placeholder *)

(** C10: when the achievements and the certifications are both empty,
    [renderAchievements] assigns the fixed placeholder paragraph to its
    container: one [p] element with the text "Achievements coming soon..."
    and no achievement card. *)
Theorem empty_achievements_placeholder (data : Achievements) (s : Page) :
  achievements data = [] -> certifications data = [] ->
  "achievements-grid" ∈ elems s ->
  renderAchievements data s
  = (Normal tt, write ("achievements-grid", "innerHTML") achievementsPlaceholder s) /\
  props (after (renderAchievements data) s) !! ("achievements-grid", "innerHTML")
  = Some achievementsPlaceholder /\
  tagsOf (parseHTML achievementsPlaceholder)
  = ["p style=" +:+ q "text-align: center; color: var(--color-text-secondary);"; "/p"] /\
  textOf (parseHTML achievementsPlaceholder) = "Achievements coming soon...".
Proof.
  intros Ha Hc Hel.
  assert (Hrun : renderAchievements data s
                 = (Normal tt,
                    write ("achievements-grid", "innerHTML") achievementsPlaceholder s)).
  { unfold renderAchievements, allItems. rewrite Ha, Hc.
    erewrite bind_run by (by apply get_ok). reflexivity. }
  split; [exact Hrun|]. split.
  - unfold after. rewrite Hrun. apply lookup_insert_eq.
  - split; reflexivity.
Qed.

(** An achievements document with two empty lists on [shell_page]. *)
Lemma empty_achievements_placeholder_witness :
  props (after (renderAchievements {| achievements := []; certifications := [] |})
           shell_page) !! ("achievements-grid", "innerHTML")
  = Some achievementsPlaceholder.
Proof.
  apply (empty_achievements_placeholder
           {| achievements := []; certifications := [] |} shell_page eq_refl eq_refl).
  apply (shell_has _ _ shell_page_ok). compute_done.
Defined.

(** ** URLs *)

Lemma is_hex_hex_digit k : (k < 16)%nat -> is_hex (hex_digit k) = true.
Proof.
  intros Hk. do 16 (destruct k as [|k]; [reflexivity|]). lia.
Qed.

Lemma percent_encoded_encodeURIComponent s :
  is_percent_encoded (encodeURIComponent s) = true.
Proof.
  unfold is_percent_encoded. induction s as [|c s IH]; [done|].
  cbn [encodeURIComponent]. destruct (uri_unreserved c) eqn:Hc.
  - rewrite append_cons. cbn [percent_encoded_from]. by rewrite Hc.
  - unfold percent_byte. rewrite !append_cons.
    cbn [percent_encoded_from]. cbn [String.append].
    change (uri_unreserved "%") with false. cbn [Ascii.eqb Bool.eqb].
    rewrite !is_hex_hex_digit; [exact IH| |].
    + apply Nat.mod_upper_bound. lia.
    + apply Nat.Div0.div_lt_upper_bound. pose proof (nat_ascii_bounded c). lia.
Qed.

(** ** Mobile menu, navbar background and back-to-top control *)

Ltac class_mem :=
  rewrite ?elem_of_union, ?elem_of_difference, ?elem_of_singleton.

Lemma toggle_mem i c s x :
  x ∈ classes (after (classList_toggle (Some i) c) s)
  <-> if decide (x = (i, c)) then x ∉ classes s else x ∈ classes s.
Proof.
  unfold after, classList_toggle.
  destruct (bool_decide ((i, c) ∈ classes s)) eqn:Hin; cbn [snd classes];
    [apply bool_decide_eq_true_1 in Hin|apply bool_decide_eq_false_1 in Hin];
    class_mem; case_decide as Hx; subst; tauto.
Qed.

Lemma onNavToggleClick_after a b s :
  after (onNavToggleClick (Some a) (Some b)) s
  = after (classList_toggle (Some b) "active")
      (after (classList_toggle (Some a) "active") s).
Proof.
  unfold after, onNavToggleClick, bind, classList_toggle, ret.
  destruct (bool_decide ((a, "active") ∈ classes s)); cbn;
    by destruct (bool_decide ((b, "active") ∈ _)).
Qed.

Lemma onNavToggleClick_flips s :
  let s' := after (onNavToggleClick (Some "nav-toggle") (Some "nav-menu")) s in
  (toggle_active s' <-> ~ toggle_active s) /\ (menu_open s' <-> ~ menu_open s).
Proof.
  cbv zeta. rewrite onNavToggleClick_after. unfold toggle_active, menu_open.
  split.
  - rewrite toggle_mem, decide_False by discriminate.
    by rewrite toggle_mem, decide_True.
  - rewrite toggle_mem, decide_True by done. unfold not.
    by rewrite toggle_mem, decide_False by discriminate.
Qed.

Lemma remove_mem i c s x :
  x ∈ classes (after (classList_remove (Some i) c) s) <-> x ∈ classes s /\ x ≠ (i, c).
Proof. unfold after, classList_remove. cbn [snd classes]. by class_mem. Qed.

Lemma add_mem i c s x :
  x ∈ classes (after (classList_add (Some i) c) s) <-> x = (i, c) \/ x ∈ classes s.
Proof. unfold after, classList_add. cbn [snd classes]. by class_mem. Qed.

Lemma onNavLinkClick_after a b s :
  after (onNavLinkClick (Some a) (Some b)) s
  = after (classList_remove (Some b) "active")
      (after (classList_remove (Some a) "active") s).
Proof. reflexivity. Qed.

Lemma onNavLinkClick_closes s :
  let s' := after (onNavLinkClick (Some "nav-toggle") (Some "nav-menu")) s in
  ~ toggle_active s' /\ ~ menu_open s'.
Proof.
  cbv zeta. rewrite onNavLinkClick_after. unfold toggle_active, menu_open.
  rewrite !remove_mem. tauto.
Qed.

Lemma scroll_mem y s x :
  x ∈ classes (navStep s (Scroll y))
  <-> (if (y >? 500)%Z then x = ("back-to-top", "visible") \/
         (if (y >? 50)%Z then x = ("navbar", "scrolled") \/ x ∈ classes s
          else x ∈ classes s /\ x ≠ ("navbar", "scrolled"))
       else (if (y >? 50)%Z then x = ("navbar", "scrolled") \/ x ∈ classes s
             else x ∈ classes s /\ x ≠ ("navbar", "scrolled"))
            /\ x ≠ ("back-to-top", "visible")).
Proof.
  unfold navStep, updateNavbar, onScrollBackToTop.
  destruct (y >? 500)%Z, (y >? 50)%Z;
    by repeat (rewrite add_mem || rewrite remove_mem).
Qed.

Lemma scroll_keeps_menu y s :
  let s' := navStep s (Scroll y) in
  (toggle_active s' <-> toggle_active s) /\ (menu_open s' <-> menu_open s).
Proof.
  cbv zeta. unfold toggle_active, menu_open. rewrite !scroll_mem.
  destruct (y >? 500)%Z, (y >? 50)%Z; split; split; intros Hgoal;
    repeat match goal with
           | H : _ \/ _ |- _ => destruct H
           | H : _ /\ _ |- _ => destruct H
           end; try discriminate; try assumption;
    repeat first [ split | by right | by (right; right) | discriminate | assumption ].
Qed.

Lemma menu_sync_step e s :
  (toggle_active s <-> menu_open s) ->
  (toggle_active (navStep s e) <-> menu_open (navStep s e)).
Proof.
  intros Hsync. destruct e as [| |y].
  - destruct (onNavToggleClick_flips s) as [Ht Hm]. cbn [navStep]. tauto.
  - destruct (onNavLinkClick_closes s) as [Ht Hm]. cbn [navStep]. tauto.
  - destruct (scroll_keeps_menu y s) as [Ht Hm]. tauto.
Qed.

Lemma navRun_snoc es e s : navRun (es ++ [e]) s = navStep (navRun es s) e.
Proof. unfold navRun. by rewrite fold_left_app. Qed.

Lemma menu_sync_run es s :
  (toggle_active s <-> menu_open s) ->
  (toggle_active (navRun es s) <-> menu_open (navRun es s)).
Proof.
  induction es as [|e es IH] using rev_ind; [done|].
  intros Hsync. rewrite navRun_snoc. by apply menu_sync_step, IH.
Qed.

(** X1: the menu toggle and the menu carry the [active] class together.
    From a page where they agree, they agree after every sequence of toggle
    clicks, link clicks and scrolls; a toggle click flips the menu, a click
    on a navigation link always leaves it closed, a scroll leaves it as it
    is. *)
Theorem mobile_menu_in_sync (s : Page) (es : list NavEvent) (e : NavEvent) :
  (toggle_active s <-> menu_open s) ->
  let s1 := navRun es s in
  let s2 := navStep s1 e in
  (toggle_active s1 <-> menu_open s1) /\
  (toggle_active s2 <-> menu_open s2) /\
  match e with
  | ToggleClick => menu_open s2 <-> ~ menu_open s1
  | LinkClick => ~ menu_open s2
  | Scroll _ => menu_open s2 <-> menu_open s1
  end.
Proof.
  intros Hsync s1 s2.
  assert (Hsync1 : toggle_active s1 <-> menu_open s1) by (by apply menu_sync_run).
  split; [exact Hsync1|]. split; [by apply menu_sync_step|].
  subst s2. destruct e as [| |y].
  - apply onNavToggleClick_flips.
  - apply onNavLinkClick_closes.
  - apply scroll_keeps_menu.
Qed.

(** The menu is opened on [shell_page], the page is scrolled and a link is
    clicked. *)
Lemma mobile_menu_in_sync_witness :
  (toggle_active shell_page <-> menu_open shell_page) /\
  ~ menu_open (navStep (navRun [ToggleClick; Scroll 120] shell_page) LinkClick).
Proof.
  assert (Hsync : toggle_active shell_page <-> menu_open shell_page).
  { unfold toggle_active, menu_open, shell_page. cbn [classes].
    split; intros Hin; destruct (not_elem_of_empty _ Hin). }
  split; [exact Hsync|].
  exact (proj2 (proj2 (mobile_menu_in_sync shell_page [ToggleClick; Scroll 120]
                         LinkClick Hsync))).
Defined.

Lemma scroll_sets_thresholds y s :
  let s' := navStep s (Scroll y) in
  (navbar_scrolled s' <-> (y > 50)%Z) /\ (back_to_top_visible s' <-> (y > 500)%Z).
Proof.
  cbv zeta. unfold navbar_scrolled, back_to_top_visible. rewrite !scroll_mem.
  destruct (Z.gtb_spec y 500), (Z.gtb_spec y 50); split; split; intros Hgoal;
    repeat match goal with
           | H : _ \/ _ |- _ => destruct H
           | H : _ /\ _ |- _ => destruct H
           end; try discriminate; try lia; try congruence;
    repeat first [ split | by left | by (right; left) | discriminate | lia ].
Qed.

(** X2: after a scroll event the navbar has the [scrolled] class exactly
    when the scroll offset exceeds 50 and the back-to-top control is
    [visible] exactly when it exceeds 500, whatever happened before; so a
    visible back-to-top control always comes with a scrolled navbar. *)
Theorem scroll_thresholds (s : Page) (es : list NavEvent) (scrollY : Z) :
  let s' := navStep (navRun es s) (Scroll scrollY) in
  (navbar_scrolled s' <-> (scrollY > 50)%Z) /\
  (back_to_top_visible s' <-> (scrollY > 500)%Z) /\
  (back_to_top_visible s' -> navbar_scrolled s').
Proof.
  intros s'. destruct (scroll_sets_thresholds scrollY (navRun es s)) as [Hn Hb].
  fold s' in Hn, Hb. split; [exact Hn|]. split; [exact Hb|].
  intros Hvis. apply Hn. apply Hb in Hvis. lia.
Qed.

(** ** The scroll spy: which link is marked *)

Lemma mark_link_mark_link id1 id2 link :
  mark_link id2 (mark_link id1 link) = mark_link id2 link.
Proof.
  unfold mark_link. cbn [href link_remove].
  destruct (bool_decide (href link = Some ("#" +:+ id1)));
    cbn [href link_add link_remove classList];
    destruct (bool_decide (href link = Some ("#" +:+ id2)));
    unfold link_add, link_remove; cbn [href classList]; f_equal;
    apply set_eq; intros x;
    repeat (rewrite elem_of_union || rewrite elem_of_difference
            || rewrite elem_of_singleton); tauto.
Qed.

Lemma map_mark_mark id1 id2 navLinks :
  map (mark_link id2) (map (mark_link id1) navLinks) = map (mark_link id2) navLinks.
Proof.
  rewrite map_map. apply map_ext. intros link. apply mark_link_mark_link.
Qed.

Lemma updateActiveNav_marked scrollY id0 sections navLinks :
  updateActiveNav scrollY sections (map (mark_link id0) navLinks)
  = map (mark_link
           (match last_in_view scrollY sections with
            | Some section => section_id section
            | None => id0
            end)) navLinks.
Proof.
  unfold updateActiveNav, last_in_view.
  revert id0. induction sections as [|section sections IH]; intros id0; [done|].
  cbn [fold_left List.filter]. unfold spy_section at 2.
  destruct (in_view scrollY section) eqn:Hview.
  - rewrite map_mark_mark, IH.
    destruct (List.filter (in_view scrollY) sections) as [|y l]; [done|].
    rewrite last_cons_cons.
    destruct (last (y :: l)) eqn:Hlast; [done|].
    by apply last_None in Hlast.
  - apply IH.
Qed.

Lemma updateActiveNav_last scrollY sections navLinks :
  updateActiveNav scrollY sections navLinks
  = match last_in_view scrollY sections with
    | Some section => map (mark_link (section_id section)) navLinks
    | None => navLinks
    end.
Proof.
  induction sections as [|section sections IH]; [done|].
  unfold updateActiveNav, last_in_view in *.
  cbn [fold_left List.filter]. unfold spy_section at 2.
  destruct (in_view scrollY section) eqn:Hview.
  - pose proof (updateActiveNav_marked scrollY (section_id section) sections navLinks)
      as Hmarked.
    unfold updateActiveNav, last_in_view in Hmarked. rewrite Hmarked.
    destruct (List.filter (in_view scrollY) sections) as [|y l]; [done|].
    rewrite last_cons_cons.
    destruct (last (y :: l)) eqn:Hlast; [done|].
    by apply last_None in Hlast.
  - exact IH.
Qed.

(** X3: a scroll-spy update depends on the sections only through the last
    one, in document order, that the scroll position is in.  When there is
    one, every link is active exactly when its [href] is that section's
    fragment, whatever was active before and whichever earlier sections
    are in view too; when there is none, the links are left as they
    were. *)
Theorem scroll_spy_last_section_wins (scrollY : Z) (sections : list PageSection)
    (navLinks : list NavLink) :
  match last_in_view scrollY sections with
  | Some section =>
      updateActiveNav scrollY sections navLinks
      = map (mark_link (section_id section)) navLinks /\
      map href (updateActiveNav scrollY sections navLinks) = map href navLinks /\
      map is_active (updateActiveNav scrollY sections navLinks)
      = map (fun link =>
               bool_decide (href link = Some ("#" +:+ section_id section))) navLinks
  | None => updateActiveNav scrollY sections navLinks = navLinks
  end.
Proof.
  rewrite updateActiveNav_last.
  destruct (last_in_view scrollY sections) as [section|]; [|done].
  split; [done|]. rewrite !map_map. split; apply map_ext; intros link.
  - apply href_mark_link.
  - apply is_active_mark_link.
Qed.

(** ** The modal's own copy of the projects *)

Lemma find_project_unique data project :
  NoDup (map id (projects data)) -> project ∈ projects data ->
  find_project data (id project) = Some project.
Proof.
  unfold find_project. induction (projects data) as [|p ps IH]; intros Hnd Hin.
  - by apply elem_of_nil in Hin.
  - cbn [map] in Hnd. apply NoDup_cons in Hnd as [Hfresh Hnd].
    cbn [find]. destruct (String.eqb (id p) (id project)) eqn:Hid.
    + apply String.eqb_eq in Hid. apply elem_of_cons in Hin as [->|Hin]; [done|].
      exfalso. apply Hfresh. rewrite Hid. by apply (list_elem_of_fmap_2 id).
    + apply elem_of_cons in Hin as [->|Hin].
      * by rewrite String.eqb_refl in Hid.
      * by apply IH.
Qed.

Lemma find_project_split data projectId before shown rest :
  projects data = before ++ shown :: rest ->
  Forall (fun p => id p ≠ projectId) before ->
  id shown = projectId ->
  find_project data projectId = Some shown.
Proof.
  unfold find_project. intros -> Hbefore Hid.
  induction Hbefore as [|p before Hp _ IH]; cbn [app find].
  - by rewrite Hid, String.eqb_refl.
  - apply String.eqb_neq in Hp. by rewrite Hp.
Qed.

Lemma find_project_none data projectId :
  Forall (fun p => id p ≠ projectId) (projects data) ->
  find_project data projectId = None.
Proof.
  unfold find_project. induction 1 as [|p ps Hp _ IH]; [done|].
  cbn [find]. apply String.eqb_neq in Hp. by rewrite Hp.
Qed.

(** X4: what a click inside a card does once the modal's data has loaded.
    The listener reads the card's [data-id] and opens the modal on the first
    project in document order whose id is that string: the modal body holds
    this project's detail markup, the modal is open and scrolling is locked.
    When no project has that id the click changes nothing.  So when the ids
    are pairwise distinct, a click on a card whose [data-id] is the id of a
    project opens that very project. *)
Theorem card_click_opens_first_match (s : Page) (data : Projects) (projectId : string) :
  "project-modal" ∈ elems s -> "modal-body" ∈ elems s ->
  projectsData s = Some data ->
  let s' := after (modalListener (GridClick (Some projectId))) s in
  (forall before shown rest,
     projects data = before ++ shown :: rest ->
     Forall (fun p => id p ≠ projectId) before ->
     id shown = projectId ->
     props s' !! ("modal-body", "innerHTML") = Some (modalHTML shown) /\
     modal_open s' /\ scroll_locked s') /\
  (Forall (fun p => id p ≠ projectId) (projects data) -> s' = s) /\
  (forall project,
     NoDup (map id (projects data)) ->
     project ∈ projects data ->
     id project = projectId ->
     props s' !! ("modal-body", "innerHTML") = Some (modalHTML project)).
Proof.
  intros Hmodal Hbody Hdata s'. subst s'. unfold after.
  cbn [modalListener]. rewrite onGridClick_run, Hdata.
  split; [|split].
  - intros before shown rest Hsplit Hbefore Hid.
    rewrite (find_project_split _ _ _ _ _ Hsplit Hbefore Hid).
    rewrite openModal_run, !bool_decide_eq_true_2 by done.
    unfold modal_open, scroll_locked. cbn. split; [apply lookup_insert_eq|].
    split; [apply elem_of_union_l; by apply elem_of_singleton|done].
  - intros Hnone. by rewrite find_project_none.
  - intros project Hnd Hin <-.
    rewrite find_project_unique by done.
    rewrite openModal_run, !bool_decide_eq_true_2 by done.
    cbn. apply lookup_insert_eq.
Qed.

(** The three projects of [three_projects] share the id [p]: once the
    modal's data has arrived, a click on any of their cards on [shell_page]
    shows the first of them. *)
Lemma card_click_opens_first_match_witness :
  let s := after (onModalDataLoaded (Response true (Some three_projects))) shell_page in
  "project-modal" ∈ elems s /\ "modal-body" ∈ elems s /\
  projectsData s = Some three_projects /\
  props (after (modalListener (GridClick (Some "p"))) s) !! ("modal-body", "innerHTML")
  = Some (modalHTML (project_in "Web")).
Proof.
  cbv zeta.
  set (s := after (onModalDataLoaded (Response true (Some three_projects))) shell_page).
  assert (H1 : "project-modal" ∈ elems s).
  { apply (shell_has _ _ shell_page_ok). compute_done. }
  assert (H2 : "modal-body" ∈ elems s).
  { subst s. unfold after. rewrite onModalDataLoaded_run. unfold shell_page.
    cbn [snd elems]. apply elem_of_list_to_set. compute_done. }
  assert (H3 : projectsData s = Some three_projects).
  { subst s. unfold after. by rewrite onModalDataLoaded_run. }
  split; [exact H1|]. split; [exact H2|]. split; [exact H3|].
  exact (proj1 (proj1 (card_click_opens_first_match s three_projects "p" H1 H2 H3)
                  [] (project_in "Web") [project_in "Mobile"; project_in "Web"]
                  eq_refl (Forall_nil_2 _) eq_refl)).
Defined.

Lemma grid_clicks_without_data es s :
  projectsData s = None -> forallb is_grid_click es = true -> modalRun es s = s.
Proof.
  intros Hnone. induction es as [|e es IH] using rev_ind; [done|].
  rewrite forallb_app. cbn [forallb]. rewrite andb_true_r, andb_true_iff.
  intros [Hes He]. rewrite modalRun_snoc, IH by done.
  destruct e as [card| | | |]; try discriminate He.
  unfold after. cbn [modalListener]. rewrite onGridClick_run, Hnone.
  by destruct card.
Qed.

(** X5: the modal depends on its own fetch of the projects, not on the one
    that rendered the cards.  When that fetch fails (rejected, error status
    or unparsable body) the failure is logged, the script's copy is null,
    and from then on no sequence of clicks in the projects grid changes the
    page: the modal cannot be opened, whatever cards are on the page. *)
Theorem failed_modal_fetch_disables_cards (s : Page) (f : Fetched Projects)
    (clicks : list ModalEvent) :
  loaded f = None -> forallb is_grid_click clicks = true ->
  let s1 := after (modalListener (ModalDataLoaded f)) s in
  projectsData s1 = None /\
  console s1 = console s ++ failure_line "./data/projects.json" f /\
  length (failure_line "./data/projects.json" f) = 1%nat /\
  classes s1 = classes s /\ props s1 = props s /\
  modalRun clicks s1 = s1.
Proof.
  intros Hfail Hclicks s1.
  assert (Hs1 : projectsData s1 = None).
  { subst s1. unfold after. cbn [modalListener]. by rewrite onModalDataLoaded_run. }
  split; [exact Hs1|].
  subst s1. unfold after in *. cbn [modalListener] in *.
  rewrite onModalDataLoaded_run in *. cbn [snd console classes props].
  split; [done|]. split; [by destruct f as [reason|[|] [doc|]]|].
  split; [done|]. split; [done|].
  by apply grid_clicks_without_data.
Qed.

(** The modal's request is rejected on [shell_page]; the card of [p1] is
    then clicked twice. *)
Lemma failed_modal_fetch_disables_cards_witness :
  loaded (@Rejected Projects "NetworkError") = None /\
  let s1 := after (modalListener (ModalDataLoaded (Rejected "NetworkError"))) shell_page in
  modalRun [GridClick (Some "p1"); GridClick (Some "p1")] s1 = s1.
Proof.
  split; [reflexivity|].
  exact (proj2 (proj2 (proj2 (proj2 (proj2
    (failed_modal_fetch_disables_cards shell_page (Rejected "NetworkError")
       [GridClick (Some "p1"); GridClick (Some "p1")] eq_refl eq_refl)))))).
Defined.

(** ** Start-up on a page that lacks an element *)

Lemma has_element ids s i : has_elements ids s -> i ∈ ids -> i ∈ elems s.
Proof. unfold has_elements. rewrite Forall_forall. auto. Qed.

Lemma has_elements_elems ids s s' :
  elems s' = elems s -> has_elements ids s -> has_elements ids s'.
Proof. unfold has_elements. by intros ->. Qed.

Lemma has_elements_app ids1 ids2 s :
  has_elements (ids1 ++ ids2) s <-> has_elements ids1 s /\ has_elements ids2 s.
Proof. apply Forall_app. Qed.

Ltac run_present H :=
  first
    [ erewrite (bind_run (getElementById _))
        by (apply get_ok; apply (has_element _ _ _ H); compute_done)
    | erewrite (bind_run (assign (Some _) _ _)) by reflexivity
    | erewrite (bind_run (addEventListener (Some _) _)) by reflexivity ].

Lemma renderProfile_present data s :
  has_elements profile_anchors s ->
  renderProfile data s = (Normal tt, write_all (profile_writes data) s).
Proof.
  intros H. unfold renderProfile, renderContactButtons, renderFooterSocial.
  repeat run_present H.
  erewrite (bind_run (bind (getElementById _) _)).
  2:{ run_present H. reflexivity. }
  run_present H. reflexivity.
Qed.

Lemma renderSkills_present data s :
  has_elements skills_anchors s ->
  renderSkills data s = (Normal tt, write_all (skills_writes data) s).
Proof. intros H. unfold renderSkills. run_present H. reflexivity. Qed.

Lemma renderExperience_present data s :
  has_elements experience_anchors s ->
  renderExperience data s = (Normal tt, write_all (experience_writes data) s).
Proof. intros H. unfold renderExperience. run_present H. reflexivity. Qed.

Lemma renderProjects_present data s :
  has_elements projects_anchors s ->
  renderProjects data s = (Normal tt, write_all (projects_writes data) s).
Proof. intros H. unfold renderProjects. repeat run_present H. reflexivity. Qed.

Lemma renderAchievements_present data s :
  has_elements achievements_anchors s ->
  renderAchievements data s = (Normal tt, write_all (achievements_writes data) s).
Proof.
  intros H. unfold renderAchievements. run_present H.
  unfold achievements_writes. by destruct (length (allItems data) =? 0)%nat.
Qed.

Lemma renderSkills_absent data s :
  "skills-grid" ∉ elems s -> renderSkills data s = (Throw "TypeError", s).
Proof.
  intros H. unfold renderSkills. rewrite bind_get.
  by rewrite bool_decide_eq_false_2.
Qed.

Lemma bind_throw {A B} (m : M A) (k : A -> M B) s e s1 :
  m s = (Throw e, s1) -> bind m k s = (Throw e, s1).
Proof. intros E. unfold bind. by rewrite E. Qed.

(** X6: a render function that does not find its anchor ends the start-up.
    On a page that has the profile's anchors but no [skills-grid], a skills
    document that loads makes the start-up listener throw a [TypeError]
    right after the profile section: the experience, projects and
    achievements anchors and the footer year keep all their properties
    although their documents may have loaded, and the page is otherwise
    the profile's assignments on top of the failures, logged in the order
    in which the loads settled. *)
Theorem missing_anchor_stops_startup (s : Page) (net : Network) (fullYear : SafeInteger)
    (skills : Skills) :
  has_elements profile_anchors s ->
  "skills-grid" ∉ elems s ->
  loaded (skills_json net) = Some skills ->
  onDOMContentLoaded net fullYear s
  = (Throw "TypeError",
     write_all (writes_of profile_writes (loaded (profile_json net)))
       (logged (startup_failures net) s)) /\
  let s' := after (onDOMContentLoaded net fullYear) s in
  section_outcome (loaded (profile_json net)) profile_anchors profile_writes s s' /\
  section_skipped
    (skills_anchors ++ experience_anchors ++ projects_anchors ++ achievements_anchors
     ++ ["current-year"]) s s'.
Proof.
  intros Hprofile Hmissing Hskills.
  assert (Hrun : onDOMContentLoaded net fullYear s
                 = (Throw "TypeError",
                    write_all (writes_of profile_writes (loaded (profile_json net)))
                      (logged (startup_failures net) s))).
  { unfold onDOMContentLoaded.
    rewrite loads_run.
    cbn [all_loaded profile_doc skills_doc experience_doc projects_doc
         achievements_doc]. rewrite Hskills.
    erewrite bind_run
      by (apply when_present_ok; intros d; by apply renderProfile_present).
    apply bind_throw. cbn [when_present]. apply renderSkills_absent.
    by rewrite elems_write_all. }
  split; [exact Hrun|]. cbv zeta. unfold after. rewrite Hrun. cbn [snd]. split.
  - unfold section_outcome. destruct (loaded (profile_json net)); cbn [writes_of].
    + apply rendered_by; [compute_done|done].
    + apply skipped_by. compute_done.
  - destruct (loaded (profile_json net)); cbn [writes_of];
      apply skipped_by; compute_done.
Qed.

(** [no_skills_page] with all five documents loading. *)
Lemma missing_anchor_stops_startup_witness :
  has_elements profile_anchors no_skills_page /\
  ("skills-grid" ∉ elems no_skills_page) /\
  loaded (skills_json all_up) = Some {| categories := [] |} /\
  fst (onDOMContentLoaded all_up year_2026 no_skills_page) = Throw "TypeError".
Proof.
  assert (H1 : has_elements profile_anchors no_skills_page).
  { unfold has_elements. rewrite Forall_forall. intros i Hi.
    apply elem_of_list_to_set. rewrite !elem_of_app. tauto. }
  assert (H2 : "skills-grid" ∉ elems no_skills_page).
  { unfold no_skills_page. cbn [elems]. rewrite elem_of_list_to_set. compute_done. }
  split; [exact H1|]. split; [exact H2|]. split; [reflexivity|].
  rewrite (proj1 (missing_anchor_stops_startup no_skills_page all_up year_2026
                    {| categories := [] |} H1 H2 eq_refl)).
  reflexivity.
Defined.

Lemma initNavigation_absent s :
  "nav-toggle" ∉ elems s -> initNavigation s = (Throw "TypeError", s).
Proof.
  intros H. unfold initNavigation. rewrite !bind_get.
  by rewrite (bool_decide_eq_false_2 ("nav-toggle" ∈ elems s)).
Qed.

Lemma renders_run net s (k : M unit) :
  has_elements render_anchors s ->
  (when_present (loaded (profile_json net)) renderProfile;;
   when_present (loaded (skills_json net)) renderSkills;;
   when_present (loaded (experience_json net)) renderExperience;;
   when_present (loaded (projects_json net)) renderProjects;;
   when_present (loaded (achievements_json net)) renderAchievements;;
   k) s
  = k (write_all (render_writes net) s).
Proof.
  intros H. unfold render_anchors in H.
  rewrite !has_elements_app in H. destruct H as (Hp & Hs & He & Hj & Ha).
  erewrite bind_run
    by (apply when_present_ok; intros d; by apply renderProfile_present).
  erewrite bind_run
    by (apply when_present_ok; intros d; apply renderSkills_present;
        apply (has_elements_elems _ s); [by rewrite !elems_write_all|done]).
  erewrite bind_run
    by (apply when_present_ok; intros d; apply renderExperience_present;
        apply (has_elements_elems _ s); [by rewrite !elems_write_all|done]).
  erewrite bind_run
    by (apply when_present_ok; intros d; apply renderProjects_present;
        apply (has_elements_elems _ s); [by rewrite !elems_write_all|done]).
  erewrite bind_run
    by (apply when_present_ok; intros d; apply renderAchievements_present;
        apply (has_elements_elems _ s); [by rewrite !elems_write_all|done]).
  unfold render_writes. by rewrite !write_all_app.
Qed.

(** X7: the controllers are wired after the sections are rendered, and a
    missing [nav-toggle] ends the start-up there.  On a page with all render
    anchors but no [nav-toggle], the listener throws a [TypeError] in
    [initNavigation]: every section is rendered or skipped as its document
    was loaded or not, but the footer year is never written; the console
    holds the failures in the order in which the loads settled. *)
Theorem missing_toggle_stops_wiring (s : Page) (net : Network) (fullYear : SafeInteger) :
  has_elements render_anchors s ->
  "nav-toggle" ∉ elems s ->
  onDOMContentLoaded net fullYear s
  = (Throw "TypeError", write_all (render_writes net) (logged (startup_failures net) s)) /\
  let s' := after (onDOMContentLoaded net fullYear) s in
  section_outcome (loaded (profile_json net)) profile_anchors profile_writes s s' /\
  section_outcome (loaded (skills_json net)) skills_anchors skills_writes s s' /\
  section_outcome (loaded (experience_json net)) experience_anchors
    experience_writes s s' /\
  section_outcome (loaded (projects_json net)) projects_anchors projects_writes s s' /\
  section_outcome (loaded (achievements_json net)) achievements_anchors
    achievements_writes s s' /\
  section_skipped ["current-year"] s s'.
Proof.
  intros Hanchors Hmissing.
  assert (Hrun : onDOMContentLoaded net fullYear s
                 = (Throw "TypeError",
                    write_all (render_writes net) (logged (startup_failures net) s))).
  { unfold onDOMContentLoaded.
    rewrite loads_run.
    cbn [all_loaded profile_doc skills_doc experience_doc projects_doc
         achievements_doc]. rewrite renders_run by done.
    apply bind_throw, initNavigation_absent. by rewrite elems_write_all. }
  split; [exact Hrun|]. cbv zeta. unfold after. rewrite Hrun. cbn [snd].
  unfold render_writes, section_outcome.
  destruct (loaded (profile_json net)), (loaded (skills_json net)),
    (loaded (experience_json net)), (loaded (projects_json net)),
    (loaded (achievements_json net));
    cbn [writes_of];
    repeat split;
    first [ apply skipped_by; compute_done
          | apply rendered_by;
            [compute_done|intros w Hw; rewrite !elem_of_app; tauto] ].
Qed.

(** [no_controls_page] with all five documents loading. *)
Lemma missing_toggle_stops_wiring_witness :
  has_elements render_anchors no_controls_page /\
  ("nav-toggle" ∉ elems no_controls_page) /\
  fst (onDOMContentLoaded all_up year_2026 no_controls_page) = Throw "TypeError".
Proof.
  assert (H1 : has_elements render_anchors no_controls_page).
  { unfold has_elements. rewrite Forall_forall. intros i Hi.
    by apply elem_of_list_to_set. }
  assert (H2 : "nav-toggle" ∉ elems no_controls_page).
  { unfold no_controls_page. cbn [elems]. rewrite elem_of_list_to_set. compute_done. }
  split; [exact H1|]. split; [exact H2|].
  rewrite (proj1 (missing_toggle_stops_wiring no_controls_page all_up year_2026 H1 H2)).
  reflexivity.
Defined.

(** ** Project filters *)

Lemma elem_of_enqueue {A} due (task : A) queue x :
  x ∈ enqueue due task queue <-> x = (due, task) \/ x ∈ queue.
Proof.
  induction queue as [|[d t] queue IH]; cbn [enqueue].
  - rewrite list_elem_of_singleton, elem_of_nil. tauto.
  - destruct (d <=? due)%Z.
    + rewrite !elem_of_cons, IH. tauto.
    + rewrite !elem_of_cons. tauto.
Qed.

Lemma filter_cards_cards now filter j cs queue :
  fst (filter_cards now filter j cs queue) = map (touch filter) cs.
Proof.
  revert j queue. induction cs as [|card cs IH]; intros j queue; [done|].
  cbn [filter_cards map]. unfold touch at 1.
  destruct (matches filter card);
    match goal with
    | |- context [filter_cards now filter (S j) cs ?q] =>
        specialize (IH (S j) q); destruct (filter_cards now filter (S j) cs q)
    end; cbn [fst] in *; by rewrite IH.
Qed.

Lemma filter_cards_timers now filter j cs queue x :
  x ∈ snd (filter_cards now filter j cs queue)
  <-> x ∈ queue \/ exists k card, cs !! k = Some card /\ x = scheduled now filter (j + k) card.
Proof.
  revert j queue. induction cs as [|card cs IH]; intros j queue.
  - cbn. split; [by left|]. intros [Hx|(k & card & Hk & _)]; [done|].
    by rewrite lookup_nil in Hk.
  - cbn [filter_cards].
    assert (Hstep : forall q,
              (x ∈ q <-> x = scheduled now filter j card \/ x ∈ queue) ->
              x ∈ snd (let (cs'', queue'') := filter_cards now filter (S j) cs q in
                       (touch filter card :: cs'', queue''))
              <-> x ∈ queue \/
                  exists k c, (card :: cs) !! k = Some c /\
                              x = scheduled now filter (j + k) c).
    { intros q Hq. specialize (IH (S j) q).
      destruct (filter_cards now filter (S j) cs q) as [cs'' queue'']. cbn [snd] in *.
      rewrite IH, Hq. split.
      - intros [[Hx|Hx]|(k & c & Hk & Hx)].
        + right. exists 0%nat, card. rewrite Nat.add_0_r. by split.
        + by left.
        + right. exists (S k), c. split; [done|]. by rewrite Nat.add_succ_r.
      - intros [Hx|(k & c & Hk & Hx)]; [by left; right|].
        destruct k as [|k].
        + cbn in Hk. injection Hk as <-. rewrite Nat.add_0_r in Hx. by left; left.
        + right. exists k, c. split; [done|]. by rewrite Nat.add_succ_r in Hx. }
    unfold scheduled at 1 in Hstep. unfold touch in Hstep.
    destruct (matches filter card); apply Hstep, elem_of_enqueue.
Qed.

Lemma finish_nothing card : finish false false card = card.
Proof. by destruct card. Qed.

Lemma fire_lookup queue cs j :
  fire queue cs !! j
  = finish (bool_decide (FadeIn j ∈ queue.*2)) (bool_decide (Hide j ∈ queue.*2))
      <$> cs !! j.
Proof.
  revert cs. induction queue as [|[d task] queue IH]; intros cs.
  - cbn. destruct (cs !! j) as [card|]; [|done]. cbn. by rewrite finish_nothing.
  - change (fire ((d, task) :: queue) cs) with (fire queue (run_task cs task)).
    rewrite IH. cbn [fmap list_fmap snd].
    destruct (bool_decide (FadeIn j ∈ queue.*2)) eqn:Hf,
             (bool_decide (Hide j ∈ queue.*2)) eqn:Hh;
      [apply bool_decide_eq_true_1 in Hf|apply bool_decide_eq_true_1 in Hf
      |apply bool_decide_eq_false_1 in Hf|apply bool_decide_eq_false_1 in Hf];
      [apply bool_decide_eq_true_1 in Hh|apply bool_decide_eq_false_1 in Hh
      |apply bool_decide_eq_true_1 in Hh|apply bool_decide_eq_false_1 in Hh];
      destruct task as [k|k]; cbn [run_task];
      destruct (decide (k = j)) as [->|Hne];
      rewrite ?list_lookup_alter_eq, ?(list_lookup_alter_ne _ _ _ _ Hne);
      destruct (cs !! j) as [card|]; cbn; try done;
      f_equal;
      repeat match goal with
             | |- context [bool_decide ?P] =>
                 first [ rewrite (bool_decide_eq_true_2 P)
                           by (rewrite elem_of_cons; tauto)
                       | rewrite (bool_decide_eq_false_2 P)
                           by (rewrite elem_of_cons; intros [Heq|Hin];
                               [congruence|tauto]) ]
             end; reflexivity.
Qed.

Lemma filter_list_all {A} (l : list A) : List.filter (fun _ => true) l = l.
Proof. induction l as [|x l IH]; [done|]. cbn. by rewrite IH. Qed.

Lemma task_scheduled now filter cs task :
  task ∈ (snd (filter_cards now filter 0 cs [])).*2
  <-> exists k card, cs !! k = Some card /\ task = snd (scheduled now filter k card).
Proof.
  rewrite list_elem_of_fmap. split.
  - intros ([d t] & -> & Hin). apply filter_cards_timers in Hin as [Hin|Hin].
    + by apply elem_of_nil in Hin.
    + destruct Hin as (k & card & Hk & Hx). exists k, card.
      change (0 + k)%nat with k in Hx. by rewrite <- Hx.
  - intros (k & card & Hk & ->). exists (scheduled now filter k card).
    split; [done|]. apply filter_cards_timers. right. by exists k, card.
Qed.

Lemma onFilterClick_run now i button v :
  buttons v !! i = Some button ->
  onFilterClick now (Some i) v
  = {| buttons := alter (button_add "active") i
                    (map (button_remove "active") (buttons v));
       cards := fst (filter_cards now (data_filter button) 0 (cards v) (timers v));
       timers := snd (filter_cards now (data_filter button) 0 (cards v) (timers v)) |}.
Proof.
  intros Hb. unfold onFilterClick. rewrite Hb.
  by destruct (filter_cards now (data_filter button) 0 (cards v) (timers v)).
Qed.

(** X8: a click on a filter button, once the timers it set have fired,
    leaves every card settled: a card whose category is the button's filter,
    and every card when the filter is [all], is displayed as a block, fully
    opaque and unshifted; every other card has display [none].  No timer is
    left pending. *)
Theorem filter_click_settles (now : Z) (i : nat) (button : FilterButton)
    (v : FilterView) :
  timers v = [] ->
  buttons v !! i = Some button ->
  let v' := flush (onFilterClick now (Some i) v) in
  cards v' = map (settled (data_filter button)) (cards v) /\
  timers v' = [] /\
  map style_display (cards v')
  = map (fun card => if matches (data_filter button) card then "block" else "none")
      (cards v) /\
  (data_filter button = "all" ->
   Forall (fun card => style_display card = "block") (cards v')).
Proof.
  intros Hidle Hb v'.
  assert (Hcards : cards v' = map (settled (data_filter button)) (cards v)).
  { subst v'. rewrite (onFilterClick_run _ _ _ _ Hb). unfold flush, run_timers.
    cbn [cards timers]. rewrite filter_list_all, Hidle, filter_cards_cards.
    apply list_eq. intros j. rewrite fire_lookup, !list_lookup_fmap.
    destruct (cards v !! j) as [card|] eqn:Hj; [|done]. cbn [fmap option_fmap option_map].
    f_equal. unfold settled, touch.
    destruct (matches (data_filter button) card) eqn:Hm.
    - rewrite bool_decide_eq_true_2.
      2:{ apply task_scheduled. exists j, card. unfold scheduled. by rewrite Hm. }
      rewrite bool_decide_eq_false_2; [done|].
      intros Hin. apply task_scheduled in Hin as (k & c & Hk & Heq).
      unfold scheduled in Heq. destruct (matches _ c) eqn:Hc; [done|].
      cbn in Heq. injection Heq as <-. congruence.
    - rewrite bool_decide_eq_false_2.
      2:{ intros Hin. apply task_scheduled in Hin as (k & c & Hk & Heq).
          unfold scheduled in Heq. destruct (matches _ c) eqn:Hc; [|done].
          cbn in Heq. injection Heq as <-. congruence. }
      rewrite bool_decide_eq_true_2; [done|].
      apply task_scheduled. exists j, card. unfold scheduled. by rewrite Hm. }
  split; [exact Hcards|]. split.
  { subst v'. unfold flush, run_timers. cbn [timers].
    by induction (timers (onFilterClick now (Some i) v)). }
  rewrite Hcards. split.
  - rewrite map_map. apply map_ext. intros card. unfold settled.
    by destruct (matches (data_filter button) card).
  - intros Hall. apply Forall_forall. intros card Hin.
    apply list_elem_of_fmap in Hin as (c & -> & _).
    unfold settled, matches. by rewrite Hall.
Qed.

(** The Mobile button of [three_cards] is clicked. *)
Lemma filter_click_settles_witness :
  timers three_cards = [] /\
  map style_display (cards (flush (onFilterClick 0 (Some 2%nat) three_cards)))
  = ["none"; "block"; "none"].
Proof.
  split; [reflexivity|].
  exact (proj1 (proj2 (proj2
    (filter_click_settles 0 2
       {| data_filter := "Mobile"; button_classes := {[ "filter-btn" ]} |}
       three_cards eq_refl eq_refl)))).
Defined.

(** X9: after a click on a filter button exactly that button is active,
    whichever buttons were active before, and every button keeps its
    filter; a click in the container that hits no filter button changes
    nothing. *)
Theorem filter_click_marks_one_button (now : Z) (i : nat) (button : FilterButton)
    (v : FilterView) :
  buttons v !! i = Some button ->
  let v' := onFilterClick now (Some i) v in
  map data_filter (buttons v') = map data_filter (buttons v) /\
  (forall k b, buttons v' !! k = Some b -> ("active" ∈ button_classes b <-> k = i)) /\
  onFilterClick now None v = v.
Proof.
  intros Hb v'. subst v'. rewrite (onFilterClick_run _ _ _ _ Hb). cbn [buttons].
  split; [|split; [|done]].
  - apply list_eq. intros k. rewrite !list_lookup_fmap, list_lookup_alter.
    case_decide as Hk; [subst k|].
    + rewrite list_lookup_fmap. by destruct (buttons v !! i).
    + rewrite list_lookup_fmap. by destruct (buttons v !! k).
  - intros k b. rewrite list_lookup_alter. case_decide as Hk; [subst k|].
    + rewrite list_lookup_fmap, Hb. cbn. intros [= <-]. cbn.
      split; [done|]. intros _. apply elem_of_union_l. by apply elem_of_singleton.
    + rewrite list_lookup_fmap. destruct (buttons v !! k) as [b0|]; [|done].
      cbn. intros [= <-]. cbn. split; [|done].
      intros Hin. apply elem_of_difference in Hin as [_ Hin].
      by rewrite elem_of_singleton in Hin.
Qed.

(** The Web button of [three_cards] is clicked while All is active. *)
Lemma filter_click_marks_one_button_witness :
  buttons three_cards !! 1%nat
  = Some {| data_filter := "Web"; button_classes := {[ "filter-btn" ]} |} /\
  map data_filter (buttons (onFilterClick 0 (Some 1%nat) three_cards))
  = ["all"; "Web"; "Mobile"].
Proof.
  split; [reflexivity|].
  exact (proj1 (filter_click_marks_one_button 0 1
                  {| data_filter := "Web"; button_classes := {[ "filter-btn" ]} |}
                  three_cards eq_refl)).
Defined.

Lemma elem_of_List_filter {A} (P : A -> bool) (l : list A) x :
  x ∈ List.filter P l <-> x ∈ l /\ P x = true.
Proof. rewrite !list_elem_of_In. apply filter_In. Qed.

Lemma matches_touch filter filter' card :
  matches filter (touch filter' card) = matches filter card.
Proof. unfold touch. by destruct (matches filter' card). Qed.

Lemma matches_finish filter fade_in hide card :
  matches filter (finish fade_in hide card) = matches filter card.
Proof. reflexivity. Qed.

(** The timers for card [j] that a click leaves in an idle queue. *)
Lemma click_timer_for now filter cs j card d task :
  cs !! j = Some card ->
  (d, task) ∈ snd (filter_cards now filter 0 cs []) ->
  task = FadeIn j \/ task = Hide j ->
  (d, task) = scheduled now filter j card.
Proof.
  intros Hj Hin Htask. apply filter_cards_timers in Hin as [Hin|Hin].
  { by apply elem_of_nil in Hin. }
  destruct Hin as (k & c & Hk & Heq). change (0 + k)%nat with k in Heq.
  assert (k = j) as ->.
  { unfold scheduled in Heq. destruct (matches filter c);
      injection Heq as _ ->; destruct Htask as [Ht|Ht]; congruence. }
  congruence.
Qed.

(** X10: two clicks in quick succession can leave a card hidden although
    the selected filter shows it.  When the first click fades a card out
    and a second click on a matching filter (or on All) follows, the card
    ends up fully opaque and unshifted, and its display is [block] if the
    first click's hide timer had already fired before the second click and
    [none] if it had not; since a timer never fires before it is due, a
    second click less than 300 ms after the first always leaves the card
    with display [none]. *)
Theorem filter_clicks_race (t1 t2 : Z) (i1 i2 : nat) (b1 b2 : FilterButton)
    (ready : Z * TimerTask -> bool) (v : FilterView) (j : nat) (card : Card) :
  timers v = [] ->
  buttons v !! i1 = Some b1 -> buttons v !! i2 = Some b2 ->
  cards v !! j = Some card ->
  matches (data_filter b1) card = false ->
  matches (data_filter b2) card = true ->
  let v' := flush (onFilterClick t2 (Some i2)
                     (run_timers ready (onFilterClick t1 (Some i1) v))) in
  cards v' !! j
  = Some {| data_category := data_category card;
            style_display :=
              if ready ((t1 + 300)%Z, Hide j) then "block" else "none";
            style_opacity := "1"; style_transform := "translateY(0)" |} /\
  (never_early t2 ready -> (t2 < t1 + 300)%Z ->
   style_display <$> cards v' !! j = Some "none").
Proof.
  intros Hidle Hb1 Hb2 Hj Hm1 Hm2 v'.
  set (f1 := data_filter b1) in *. set (f2 := data_filter b2) in *.
  set (q1 := snd (filter_cards t1 f1 0 (cards v) [])).
  set (hide_fired := ready ((t1 + 300)%Z, Hide j)).
  (* the timers of the first click that concern card j *)
  assert (Hq1 : forall d task, (d, task) ∈ q1 -> task = FadeIn j \/ task = Hide j ->
                               (d, task) = ((t1 + 300)%Z, Hide j)).
  { intros d task Hin Htask.
    rewrite (click_timer_for t1 f1 (cards v) j card d task Hj Hin Htask).
    unfold scheduled. by rewrite Hm1. }
  assert (Hq1_hide : ((t1 + 300)%Z, Hide j) ∈ q1).
  { apply filter_cards_timers. right. exists j, card. split; [done|].
    unfold scheduled. by rewrite Hm1. }
  (* after the first click and the timers that fired *)
  set (v2 := run_timers ready (onFilterClick t1 (Some i1) v)).
  assert (Hv2_cards : cards v2 !! j = Some (finish false hide_fired (fade_card card))).
  { subst v2. rewrite (onFilterClick_run _ _ _ _ Hb1). unfold run_timers.
    cbn [cards timers]. rewrite Hidle. fold f1 q1.
    rewrite fire_lookup, filter_cards_cards, list_lookup_fmap, Hj.
    cbn [fmap option_fmap option_map]. unfold touch. rewrite Hm1. f_equal. f_equal.
    - apply bool_decide_eq_false_2. intros Hin.
      apply list_elem_of_fmap in Hin as ([d t] & Ht & Hin). cbn in Ht. subst t.
      apply elem_of_List_filter in Hin as [Hin _].
      by specialize (Hq1 d (FadeIn j) Hin (or_introl eq_refl)).
    - subst hide_fired. destruct (ready ((t1 + 300)%Z, Hide j)) eqn:Hr.
      + apply bool_decide_eq_true_2. apply list_elem_of_fmap.
        exists ((t1 + 300)%Z, Hide j). split; [done|].
        by apply elem_of_List_filter.
      + apply bool_decide_eq_false_2. intros Hin.
        apply list_elem_of_fmap in Hin as ([d t] & Ht & Hin). cbn in Ht. subst t.
        apply elem_of_List_filter in Hin as [Hin Hready].
        rewrite (Hq1 d (Hide j) Hin (or_intror eq_refl)) in Hready. congruence. }
  assert (Hv2_timers : forall d task, task = FadeIn j \/ task = Hide j ->
            ((d, task) ∈ timers v2
             <-> (d, task) = ((t1 + 300)%Z, Hide j) /\ hide_fired = false)).
  { intros d task Htask. subst v2. rewrite (onFilterClick_run _ _ _ _ Hb1).
    unfold run_timers. cbn [timers]. rewrite Hidle. fold f1 q1.
    rewrite elem_of_List_filter, negb_true_iff. split.
    - intros [Hin Hready]. rewrite (Hq1 d task Hin Htask) in *. by split.
    - intros [-> Hready]. by split. }
  assert (Hv2_button : exists b2', buttons v2 !! i2 = Some b2' /\ data_filter b2' = f2).
  { subst v2. rewrite (onFilterClick_run _ _ _ _ Hb1). unfold run_timers. cbn [buttons].
    rewrite list_lookup_alter. case_decide as Hi; [subst i2|].
    - rewrite list_lookup_fmap, Hb1. cbn. eexists. split; [done|].
      cbn. rewrite Hb1 in Hb2. by injection Hb2 as <-.
    - rewrite list_lookup_fmap, Hb2. cbn. by eexists. }
  destruct Hv2_button as (b2' & Hb2' & Hf2).
  (* the second click and the remaining timers *)
  assert (Hfinal : cards v' !! j
                   = Some (finish true (negb hide_fired)
                             (show_card (finish false hide_fired (fade_card card))))).
  { subst v'. fold v2. rewrite (onFilterClick_run _ _ _ _ Hb2'), Hf2.
    unfold flush, run_timers. cbn [cards timers].
    rewrite filter_list_all, fire_lookup, filter_cards_cards, list_lookup_fmap,
      Hv2_cards.
    cbn [fmap option_fmap option_map]. unfold touch.
    rewrite matches_finish. change (matches f2 (fade_card card)) with (matches f2 card).
    rewrite Hm2. f_equal. f_equal.
    - apply bool_decide_eq_true_2. apply list_elem_of_fmap.
      exists ((t2 + 10)%Z, FadeIn j). split; [done|].
      apply filter_cards_timers. right.
      exists j, (finish false hide_fired (fade_card card)). split; [done|].
      unfold scheduled. rewrite matches_finish.
      change (matches f2 (fade_card card)) with (matches f2 card). by rewrite Hm2.
    - destruct hide_fired eqn:Hfired; cbn [negb].
      + apply bool_decide_eq_false_2. intros Hin.
        apply list_elem_of_fmap in Hin as ([d t] & Ht & Hin). cbn in Ht. subst t.
        apply filter_cards_timers in Hin as [Hin|(k & c & Hk & Heq)].
        * apply (Hv2_timers d (Hide j) (or_intror eq_refl)) in Hin as [_ ?]. congruence.
        * change (0 + k)%nat with k in Heq. unfold scheduled in Heq.
          destruct (matches f2 c) eqn:Hc; [done|]. injection Heq as _ <-.
          rewrite Hv2_cards in Hk. injection Hk as <-.
          rewrite matches_finish in Hc.
          change (matches f2 (fade_card card)) with (matches f2 card) in Hc. congruence.
      + apply bool_decide_eq_true_2. apply list_elem_of_fmap.
        exists ((t1 + 300)%Z, Hide j). split; [done|].
        apply filter_cards_timers. left.
        by apply (Hv2_timers _ (Hide j) (or_intror eq_refl)). }
  assert (Hresult : cards v' !! j
            = Some {| data_category := data_category card;
                      style_display := if hide_fired then "block" else "none";
                      style_opacity := "1"; style_transform := "translateY(0)" |}).
  { rewrite Hfinal. by destruct hide_fired. }
  split; [exact Hresult|].
  intros Hearly Hquick. rewrite Hresult. cbn.
  destruct hide_fired eqn:Hfired; [|done].
  apply Hearly in Hfired. cbn in Hfired. lia.
Qed.

(** On [three_cards] the Mobile button is clicked and, 100 ms later, the
    All button; every timer due by then has fired. *)
Lemma filter_clicks_race_witness :
  timers three_cards = [] /\
  never_early 100 (due_by 100) /\
  style_display
    <$> cards (flush (onFilterClick 100 (Some 0%nat)
                        (run_timers (due_by 100)
                           (onFilterClick 0 (Some 2%nat) three_cards)))) !! 0%nat
  = Some "none".
Proof.
  assert (Hearly : never_early 100 (due_by 100)).
  { intros timer Hready. unfold due_by in Hready. by apply Z.leb_le. }
  split; [reflexivity|]. split; [exact Hearly|].
  apply (proj2 (filter_clicks_race 0 100 2 0
                  {| data_filter := "Mobile"; button_classes := {[ "filter-btn" ]} |}
                  {| data_filter := "all";
                     button_classes := {[ "filter-btn"; "active" ]} |}
                  (due_by 100) three_cards 0 (fresh_card "Web")
                  eq_refl eq_refl eq_refl eq_refl eq_refl eq_refl)).
  - exact Hearly.
  - reflexivity.
Defined.

(** ** Reveal animations *)

Lemma reveal_add_reveal_add c el : reveal_add c (reveal_add c el) = reveal_add c el.
Proof.
  unfold reveal_add. cbn. f_equal.
  by rewrite (assoc_L (∪)), (idemp_L (∪)).
Qed.

Lemma schedule_bars_elem now bs inside queue x :
  x ∈ schedule_bars now bs inside queue
  <-> x ∈ queue \/
      exists k bar, k ∈ inside /\ bs !! k = Some bar /\
                    x = ((now + 200)%Z, (k, dataset_progress bar)).
Proof.
  unfold schedule_bars. revert queue.
  induction inside as [|k inside IH]; intros queue; cbn [fold_left].
  - split; [by left|]. intros [Hx|(k & bar & Hk & _)]; [done|].
    by apply elem_of_nil in Hk.
  - rewrite IH. destruct (bs !! k) as [bar|] eqn:Hbar.
    + rewrite elem_of_enqueue. split.
      * intros [[->|Hx]|(k' & bar' & Hk' & Hbar' & ->)].
        -- right. exists k, bar. split; [by left|done].
        -- by left.
        -- right. exists k', bar'. split; [by right|done].
      * intros [Hx|(k' & bar' & Hk' & Hbar' & ->)]; [by left; right|].
        apply elem_of_cons in Hk' as [->|Hk'].
        -- left. left. congruence.
        -- right. by exists k', bar'.
    + split.
      * intros [Hx|(k' & bar' & Hk' & Hbar' & ->)]; [by left|].
        right. exists k', bar'. split; [by right|done].
      * intros [Hx|(k' & bar' & Hk' & Hbar' & ->)]; [by left|].
        apply elem_of_cons in Hk' as [->|Hk']; [congruence|].
        right. by exists k', bar'.
Qed.

Lemma observe_entry_bars now v entry : bars (observe_entry now v entry) = bars v.
Proof.
  unfold observe_entry. destruct (isIntersecting entry); [|done].
  by destruct (revealElements v !! target entry).
Qed.

Lemma observe_entry_elements now v entry i :
  revealElements (observe_entry now v entry) !! i
  = (fun el => if isIntersecting entry && (target entry =? i)%nat
               then reveal_add "visible" el else el) <$> revealElements v !! i.
Proof.
  unfold observe_entry. destruct (isIntersecting entry); cbn [andb].
  - destruct (revealElements v !! target entry) as [el|] eqn:Hel; cbn [revealElements].
    + rewrite list_lookup_alter. case_decide as Hi.
      * subst i. rewrite Nat.eqb_refl. by destruct (revealElements v !! target entry).
      * apply Nat.eqb_neq in Hi. rewrite Hi.
        by destruct (revealElements v !! i).
    + destruct (Nat.eqb_spec (target entry) i) as [<-|Hi].
      * by rewrite Hel.
      * by destruct (revealElements v !! i).
  - by destruct (revealElements v !! i).
Qed.

Lemma onIntersect_bars now entries v : bars (onIntersect now entries v) = bars v.
Proof.
  unfold onIntersect. revert v.
  induction entries as [|entry entries IH]; intros v; [done|].
  cbn [fold_left]. by rewrite IH, observe_entry_bars.
Qed.

Lemma onIntersect_elements now entries v i :
  revealElements (onIntersect now entries v) !! i
  = (fun el => if reported i entries then reveal_add "visible" el else el)
      <$> revealElements v !! i.
Proof.
  unfold onIntersect. revert v.
  induction entries as [|entry entries IH]; intros v; cbn [fold_left reported existsb].
  - by destruct (revealElements v !! i).
  - rewrite IH, observe_entry_elements. fold (reported i entries).
    destruct (revealElements v !! i) as [el|]; [|done]. cbn. f_equal.
    destruct (isIntersecting entry && (target entry =? i)%nat); cbn [orb]; [|done].
    destruct (reported i entries); [|done]. apply reveal_add_reveal_add.
Qed.

Lemma bar_reported_ext v v' k entries :
  (forall i, skillBars <$> revealElements v' !! i = skillBars <$> revealElements v !! i) ->
  bar_reported v' k entries = bar_reported v k entries.
Proof.
  intros Hsame. unfold bar_reported.
  induction entries as [|entry entries IH]; [done|].
  cbn [existsb]. rewrite IH. f_equal. f_equal.
  specialize (Hsame (target entry)).
  destruct (revealElements v' !! target entry), (revealElements v !! target entry);
    cbn in Hsame; try done. by injection Hsame as ->.
Qed.

Lemma observe_entry_skillBars now v entry i :
  skillBars <$> revealElements (observe_entry now v entry) !! i
  = skillBars <$> revealElements v !! i.
Proof.
  rewrite observe_entry_elements. destruct (revealElements v !! i) as [el|]; [|done].
  cbn. by destruct (isIntersecting entry && (target entry =? i)%nat).
Qed.

Lemma onIntersect_timers now entries v x :
  x ∈ widthTimers (onIntersect now entries v)
  <-> x ∈ widthTimers v \/
      exists k bar, bar_reported v k entries = true /\ bars v !! k = Some bar /\
                    x = ((now + 200)%Z, (k, dataset_progress bar)).
Proof.
  unfold onIntersect. revert v.
  induction entries as [|entry entries IH]; intros v; cbn [fold_left].
  - split; [by left|]. by intros [Hx|(k & bar & Hk & _)].
  - rewrite IH, observe_entry_bars.
    assert (Hrep : forall k, bar_reported (observe_entry now v entry) k entries
                             = bar_reported v k entries).
    { intros k. apply bar_reported_ext. intros i. apply observe_entry_skillBars. }
    assert (Hhead : x ∈ widthTimers (observe_entry now v entry)
                    <-> x ∈ widthTimers v \/
                        exists k bar,
                          (isIntersecting entry
                           && match revealElements v !! target entry with
                              | Some el => bool_decide (k ∈ skillBars el)
                              | None => false
                              end) = true /\
                          bars v !! k = Some bar /\
                          x = ((now + 200)%Z, (k, dataset_progress bar))).
    { unfold observe_entry. destruct (isIntersecting entry); cbn [andb].
      - destruct (revealElements v !! target entry) as [el|]; cbn [widthTimers].
        + rewrite schedule_bars_elem. split.
          * intros [Hx|(k & bar & Hk & Hbar & ->)]; [by left|].
            right. exists k, bar. split; [by apply bool_decide_eq_true_2|done].
          * intros [Hx|(k & bar & Hk & Hbar & ->)]; [by left|].
            right. exists k, bar. split; [by apply (bool_decide_eq_true_1 _ Hk)|done].
        + split; [by left|]. by intros [Hx|(k & bar & Hk & _)].
      - split; [by left|]. by intros [Hx|(k & bar & Hk & _)]. }
    rewrite Hhead. cbn [bar_reported existsb]. split.
    + intros [[Hx|(k & bar & Hk & Hbar & ->)]|(k & bar & Hk & Hbar & ->)].
      * by left.
      * right. exists k, bar. by rewrite Hk.
      * right. exists k, bar. rewrite Hrep in Hk. fold (bar_reported v k entries).
        rewrite Hk, orb_true_r. done.
    + intros [Hx|(k & bar & Hk & Hbar & ->)]; [by left; left|].
      apply orb_true_iff in Hk as [Hk|Hk].
      * left. right. by exists k, bar.
      * right. exists k, bar. by rewrite Hrep.
Qed.

Lemma set_width_progress stored_width p bar :
  dataset_progress (set_width stored_width p bar) = dataset_progress bar.
Proof. unfold set_width. by destruct (stored_width _). Qed.

Lemma set_width_set_width stored_width p bar :
  set_width stored_width p (set_width stored_width p bar) = set_width stored_width p bar.
Proof. unfold set_width. by destruct (stored_width _) eqn:Hw; rewrite ?Hw. Qed.

(** The timers that fire leave the bar at position [k] as it is, or set
    its width, when all its timers captured the same progress. *)
Lemma grow_lookup stored_width queue bs k p :
  (forall d p', (d, (k, p')) ∈ queue -> p' = p) ->
  grow stored_width queue bs !! k
  = (fun bar => if bool_decide (k ∈ map (fun timer => fst (snd timer)) queue)
                then set_width stored_width p bar else bar) <$> bs !! k.
Proof.
  unfold grow. revert bs.
  induction queue as [|[d [k' p']] queue IH]; intros bs Hsame; cbn [fold_left map fst snd].
  - by destruct (bs !! k).
  - rewrite IH by (intros d0 p0 Hin; apply (Hsame d0); by right).
    rewrite list_lookup_alter. destruct (decide (k' = k)) as [Hk|Hk].
    + subst k'. rewrite (Hsame d p') by (by left).
      destruct (bs !! k) as [bar|]; [|done]. cbn. f_equal.
      rewrite (bool_decide_eq_true_2 (k ∈ k :: _)) by (by left).
      case_bool_decide; [apply set_width_set_width|done].
    + destruct (bs !! k) as [bar|]; [|done]. cbn. f_equal.
      case_bool_decide as H1; case_bool_decide as H2; try done.
      * exfalso. apply H2. by right.
      * exfalso. apply elem_of_cons in H2 as [?|?]; [congruence|done].
Qed.

Lemma grow_progress stored_width queue bs :
  map dataset_progress (grow stored_width queue bs) = map dataset_progress bs.
Proof.
  unfold grow. revert bs. induction queue as [|timer queue IH]; intros bs; [done|].
  cbn [fold_left]. rewrite IH. apply list_eq. intros k.
  rewrite !list_lookup_fmap, list_lookup_alter. case_decide; [|done].
  subst k. destruct (bs !! _); [|done]. cbn. by rewrite set_width_progress.
Qed.

Lemma revealRun_snoc stored_width es e v :
  revealRun stored_width (es ++ [e]) v
  = revealStep stored_width (revealRun stored_width es v) e.
Proof. unfold revealRun. by rewrite fold_left_app. Qed.

(** X11: a revealed element stays revealed.  Whatever entries the observer
    reports and whichever timers fire, in any order, and whatever widths
    the browser accepts, every reveal element keeps the classes it had,
    gains at most the class [visible], and keeps its bars; no bar's
    [data-progress] changes. *)
Theorem reveal_is_one_way (stored_width : string -> option string)
    (es : list RevealEvent) (v : RevealView) (i : nat) (el : RevealElement) :
  revealElements v !! i = Some el ->
  let v' := revealRun stored_width es v in
  (exists el', revealElements v' !! i = Some el' /\
               skillBars el' = skillBars el /\
               reveal_classes el ⊆ reveal_classes el' /\
               reveal_classes el' ⊆ {[ "visible" ]} ∪ reveal_classes el /\
               ("visible" ∈ reveal_classes el -> reveal_classes el' = reveal_classes el)) /\
  map dataset_progress (bars v') = map dataset_progress (bars v).
Proof.
  intros Hel. cbv zeta. induction es as [|e es IH] using rev_ind.
  - split; [|done]. exists el. repeat split; try done. apply union_subseteq_r.
  - rewrite revealRun_snoc. destruct IH as [(el' & Hel' & Hbars & Hsub1 & Hsub2 & Hvis) IHp].
    destruct e as [now entries|ready]; cbn [revealStep].
    + split; [|by rewrite onIntersect_bars].
      rewrite onIntersect_elements, Hel'. cbn.
      destruct (reported i entries).
      * eexists. split; [done|]. cbn. split; [done|]. split; [|split].
        -- etrans; [exact Hsub1|]. apply union_subseteq_r.
        -- apply union_least; [apply union_subseteq_l|exact Hsub2].
        -- intros Hin. rewrite (Hvis Hin).
           apply (anti_symm (⊆)); [|apply union_subseteq_r].
           apply union_least; [|done]. by apply singleton_subseteq_l.
      * by exists el'.
    + split; [by exists el'|]. cbn [run_width_timers bars]. by rewrite grow_progress.
Qed.

(** The skill category of [two_reveals] is reported as intersecting, then
    as not intersecting, and the timers fire. *)
Lemma reveal_is_one_way_witness :
  exists el',
    revealElements
      (revealRun digits_percent
         [ Intersect 0 [ {| target := 0; isIntersecting := true |} ];
                   Intersect 50 [ {| target := 0; isIntersecting := false |} ];
                   TimersFire (fun _ => true) ] two_reveals) !! 0%nat = Some el' /\
    skillBars el' = [0; 1]%nat.
Proof.
  destruct (reveal_is_one_way digits_percent
              [ Intersect 0 [ {| target := 0; isIntersecting := true |} ];
                Intersect 50 [ {| target := 0; isIntersecting := false |} ];
                TimersFire (fun _ => true) ] two_reveals 0
              {| reveal_classes := {[ "skill-category"; "reveal" ]};
                 skillBars := [0; 1]%nat |} eq_refl)
    as [(el' & Hel' & Hbars & _) _].
  exists el'. by split.
Defined.

(** X12: when the observer reports entries and the timers it set have
    fired, every element reported as intersecting has the class [visible]
    and every other element is as before.  Every bar inside an element
    reported as intersecting was assigned the width [progress%], where
    [progress] is its [data-progress] attribute ([undefined%] when the bar
    has none), and every other bar is as before.  The browser stores an
    assigned width only when it is a valid one: a bar whose assigned width
    the browser accepts has it as stored, and a bar whose assigned width
    the browser rejects, as it does [undefined%], keeps the width it had. *)
Theorem revealed_bars_fill (stored_width : string -> option string) (now : Z)
    (entries : list Entry) (v : RevealView) :
  widthTimers v = [] ->
  let v' := run_width_timers stored_width (fun _ => true) (onIntersect now entries v) in
  (forall i, revealElements v' !! i
             = (fun el => if reported i entries then reveal_add "visible" el else el)
                 <$> revealElements v !! i) /\
  (forall k, bars v' !! k
             = (fun bar => if bar_reported v k entries
                           then set_width stored_width (dataset_progress bar) bar
                           else bar) <$> bars v !! k) /\
  (forall k bar width,
     bars v !! k = Some bar -> bar_reported v k entries = true ->
     stored_width (interpolate (dataset_progress bar) +:+ "%") = Some width ->
     bars v' !! k
     = Some {| dataset_progress := dataset_progress bar; style_width := width |}) /\
  (forall k bar,
     bars v !! k = Some bar ->
     stored_width (interpolate (dataset_progress bar) +:+ "%") = None ->
     bars v' !! k = Some bar) /\
  (forall k bar,
     bars v !! k = Some bar -> dataset_progress bar = None ->
     stored_width "undefined%" = None ->
     bars v' !! k = Some bar) /\
  widthTimers v' = [].
Proof.
  intros Hidle. cbv zeta.
  assert (Hbars : forall k,
            bars (run_width_timers stored_width (fun _ => true)
                    (onIntersect now entries v)) !! k
            = (fun bar => if bar_reported v k entries
                          then set_width stored_width (dataset_progress bar) bar
                          else bar) <$> bars v !! k).
  { intros k. cbn [run_width_timers bars]. rewrite filter_list_all, onIntersect_bars.
    destruct (bars v !! k) as [bar|] eqn:Hbar.
    2:{ rewrite (grow_lookup _ _ _ k None), Hbar; [done|].
        intros d p' Hin. apply onIntersect_timers in Hin as [Hin|(k' & bar & _ & Hk & Heq)].
        - rewrite Hidle in Hin. by apply elem_of_nil in Hin.
        - injection Heq as _ <- _. congruence. }
    rewrite (grow_lookup _ _ _ k (dataset_progress bar)), Hbar.
    2:{ intros d p' Hin. apply onIntersect_timers in Hin as [Hin|(k' & bar' & _ & Hk & Heq)].
        - rewrite Hidle in Hin. by apply elem_of_nil in Hin.
        - injection Heq as _ <- ->. congruence. }
    cbn. f_equal. destruct (bar_reported v k entries) eqn:Hrep.
    + rewrite bool_decide_eq_true_2; [done|].
      apply list_elem_of_fmap. exists ((now + 200)%Z, (k, dataset_progress bar)).
      split; [done|]. apply onIntersect_timers. right. by exists k, bar.
    + rewrite bool_decide_eq_false_2; [done|]. intros Hin.
      apply list_elem_of_fmap in Hin as ([d [k' p']] & Hk & Hin). cbn in Hk. subst k'.
      apply onIntersect_timers in Hin as [Hin|(k' & bar' & Hrep' & _ & Heq)].
      * rewrite Hidle in Hin. by apply elem_of_nil in Hin.
      * injection Heq as _ <- _. congruence. }
  assert (Hrejected : forall k bar,
            bars v !! k = Some bar ->
            stored_width (interpolate (dataset_progress bar) +:+ "%") = None ->
            bars (run_width_timers stored_width (fun _ => true)
                    (onIntersect now entries v)) !! k = Some bar).
  { intros k bar Hbar Hnone. rewrite Hbars, Hbar. cbn. f_equal.
    destruct (bar_reported v k entries); [|done]. unfold set_width. by rewrite Hnone. }
  split; [|split; [exact Hbars|split; [|split; [exact Hrejected|split]]]].
  - intros i. cbn [run_width_timers revealElements]. apply onIntersect_elements.
  - intros k bar width Hbar Hrep Hwidth. rewrite Hbars, Hbar, Hrep. cbn.
    unfold set_width. by rewrite Hwidth.
  - intros k bar Hbar Hnone Hundefined. apply Hrejected; [done|]. by rewrite Hnone.
  - cbn [run_width_timers widthTimers].
    by induction (widthTimers (onIntersect now entries v)).
Qed.

(** The skill category of [two_reveals] is reported as intersecting; the
    browser stores the width [75%] as it is. *)
Lemma revealed_bars_fill_witness :
  widthTimers two_reveals = [] /\
  bars (run_width_timers digits_percent (fun _ => true)
          (onIntersect 0 [ {| target := 0; isIntersecting := true |} ] two_reveals))
    !! 1%nat
  = Some {| dataset_progress := Some "75"; style_width := "75%" |}.
Proof.
  split; [reflexivity|].
  exact (proj1 (proj2 (proj2 (revealed_bars_fill digits_percent 0
                                [ {| target := 0; isIntersecting := true |} ]
                                two_reveals eq_refl)))
           1%nat {| dataset_progress := Some "75"; style_width := "0%" |} "75%"
           eq_refl eq_refl eq_refl).
Defined.
(** ** What the render functions leave in their containers *)

Lemma innerHTML_write_all ws s i html :
  NoDup (ws.*1) -> ((i, "innerHTML"), html) ∈ ws -> innerHTML i (write_all ws s) = html.
Proof.
  intros Hnd Hin. unfold innerHTML. rewrite <- (logged_nil s).
  by rewrite (rendered_by ws [] s ws Hnd (fun w Hw => Hw) _ _ Hin).
Qed.

Ltac written := repeat first [apply list_elem_of_here | apply list_elem_of_further].

Lemma shell_anchors s :
  shell_ok s ->
  has_elements profile_anchors s /\ has_elements skills_anchors s /\
  has_elements experience_anchors s /\ has_elements projects_anchors s /\
  has_elements achievements_anchors s.
Proof.
  unfold shell_ok, has_elements. rewrite !Forall_app. tauto.
Qed.

Lemma renderProfile_content data s :
  has_elements profile_anchors s ->
  let s' := after (renderProfile data) s in
  innerHTML "hero-roles" s' = rolesHTML data /\
  innerHTML "about-stats" s' = statsHTML data /\
  innerHTML "contact-buttons" s' = join (contactButtons (social data)) /\
  innerHTML "footer-social" s' = join (footerLinks (social data)).
Proof.
  intros H. cbv zeta. unfold after. rewrite renderProfile_present by done. cbn [snd].
  repeat split;
    (apply innerHTML_write_all; [compute_done|unfold profile_writes; written]).
Qed.



Lemma renderProjects_content data s :
  has_elements projects_anchors s ->
  let s' := after (renderProjects data) s in
  innerHTML "projects-filter" s' = filterHTML data /\
  innerHTML "projects-grid" s' = projectsHTML data.
Proof.
  intros H. cbv zeta. unfold after. rewrite renderProjects_present by done. cbn [snd].
  split; (apply innerHTML_write_all; [compute_done|unfold projects_writes; written]).
Qed.


Lemma openModal_content project s :
  "modal-body" ∈ elems s ->
  innerHTML "modal-body" (after (openModal project) s) = modalHTML project.
Proof.
  intros H. unfold after, innerHTML. rewrite openModal_run.
  rewrite (bool_decide_eq_true_2 _ H). cbv zeta.
  case_bool_decide; cbn; by rewrite lookup_insert_eq.
Qed.


(** ** Rendered markup, read back *)

Lemma startTags_text_tokens p f ts : startTags p (text_tokens f ++ ts) = startTags p ts.
Proof. induction f as [|c f IH]; [done|]. exact IH. Qed.

Lemma append_nil_l (a : string) : EmptyString +:+ a = a.
Proof. reflexivity. Qed.

(** *** Numbers in markup *)




Ltac read_markup :=
  repeat first
    [ rewrite eqb_head by reflexivity
    | rewrite starts_with_cons
    | progress cbn [textIn startTags leading_text app String.eqb Ascii.eqb Bool.eqb
                    starts_with andb]
    | rewrite textIn_text_tokens
    | rewrite startTags_text_tokens
    | rewrite leading_text_text_tokens ].

(** *** Skills *)







(** *** Contact buttons and footer links *)

Ltac tokenize_markup :=
  repeat first [ feed_step
               | rewrite tokenize_literal by assumption
               | rewrite tokenize_attr by assumption
                 | rewrite tokenize_attr_literal by assumption ];
  cbn [app]; rewrite ?append_assoc.

Lemma emailButton_item social rest :
  attr_safe (the (email social)) = true ->
  let ts := tokenize Data (emailButton social +:+ rest) in
  let ts' := tokenize Data rest in
  startTags "a " ts = email_anchor social :: startTags "a " ts' /\
  textIn "span" ts = "Email Me" :: textIn "span" ts'.
Proof.
  intros Hsafe. cbv zeta. unfold emailButton, mailtoHref, q. rewrite !append_assoc.
  tokenize_markup. split; read_markup.
  - unfold email_anchor, mailtoHref, q. rewrite !append_assoc. reflexivity.
  - reflexivity.
Qed.

Lemma whatsappButton_item social rest :
  attr_safe (the (whatsapp social)) = true ->
  let ts := tokenize Data (whatsappButton social +:+ rest) in
  let ts' := tokenize Data rest in
  startTags "a " ts = whatsapp_anchor social :: startTags "a " ts' /\
  textIn "span" ts = "WhatsApp" :: textIn "span" ts'.
Proof.
  intros Hsafe. cbv zeta. unfold whatsappButton, whatsappHref, q. rewrite !append_assoc.
  tokenize_markup. split; read_markup.
  - unfold whatsapp_anchor, whatsappHref, q. rewrite !append_assoc. reflexivity.
  - reflexivity.
Qed.

Lemma linkedinButton_item social rest :
  attr_safe (the (linkedin social)) = true ->
  let ts := tokenize Data (linkedinButton social +:+ rest) in
  let ts' := tokenize Data rest in
  startTags "a " ts = contact_anchor (the (linkedin social)) "linkedin" :: startTags "a " ts' /\
  textIn "span" ts = "LinkedIn" :: textIn "span" ts'.
Proof.
  intros Hsafe. cbv zeta. unfold linkedinButton, q. rewrite !append_assoc.
  tokenize_markup. split; read_markup.
  - unfold contact_anchor, q. rewrite !append_assoc. reflexivity.
  - reflexivity.
Qed.

Lemma githubButton_item social rest :
  attr_safe (the (github social)) = true ->
  let ts := tokenize Data (githubButton social +:+ rest) in
  let ts' := tokenize Data rest in
  startTags "a " ts = contact_anchor (the (github social)) "github" :: startTags "a " ts' /\
  textIn "span" ts = "GitHub" :: textIn "span" ts'.
Proof.
  intros Hsafe. cbv zeta. unfold githubButton, q. rewrite !append_assoc.
  tokenize_markup. split; read_markup.
  - unfold contact_anchor, q. rewrite !append_assoc. reflexivity.
  - reflexivity.
Qed.

Lemma footerEmail_item social rest :
  attr_safe (the (email social)) = true ->
  let ts := tokenize Data (footerEmail social +:+ rest) in
  let ts' := tokenize Data rest in
  startTags "a " ts = footer_email_anchor social :: startTags "a " ts' /\
  startTags "i class=" ts = ("i class=" +:+ q "fas fa-envelope") :: startTags "i class=" ts'.
Proof.
  intros Hsafe. cbv zeta. unfold footerEmail, q. rewrite !append_assoc.
  tokenize_markup. split; read_markup.
  - unfold footer_email_anchor, q. rewrite !append_assoc. reflexivity.
  - reflexivity.
Qed.

Lemma footerLink_item href ariaLabel iconClass rest :
  attr_safe href = true -> attr_safe ariaLabel = true -> attr_safe iconClass = true ->
  let ts := tokenize Data (footerLink href ariaLabel iconClass +:+ rest) in
  let ts' := tokenize Data rest in
  startTags "a " ts = footer_anchor href ariaLabel :: startTags "a " ts' /\
  startTags "i class=" ts = ("i class=" +:+ q iconClass) :: startTags "i class=" ts'.
Proof.
  intros Hhref Hlabel Hicon. cbv zeta. unfold footerLink, q. rewrite !append_assoc.
  tokenize_markup. split; read_markup.
  - unfold footer_anchor, q. rewrite !append_assoc. reflexivity.
  - unfold q. rewrite ?append_assoc. reflexivity.
Qed.

Lemma contact_buttons_read (social : Social) :
  social_safe social = true ->
  let ts := parseHTML (join (contactButtons social)) in
  startTags "a " ts
  = when (truthy (email social)) (email_anchor social)
    ++ when (truthy (whatsapp social)) (whatsapp_anchor social)
    ++ when (truthy (linkedin social)) (contact_anchor (the (linkedin social)) "linkedin")
    ++ when (truthy (github social)) (contact_anchor (the (github social)) "github") /\
  textIn "span" ts
  = when (truthy (email social)) "Email Me"
    ++ when (truthy (whatsapp social)) "WhatsApp"
    ++ when (truthy (linkedin social)) "LinkedIn"
    ++ when (truthy (github social)) "GitHub".
Proof.
  unfold social_safe. rewrite !andb_true_iff. intros [[[[He Hw] Hl] Hg] Hi].
  pose proof (fun rest => emailButton_item social rest He) as HE.
  pose proof (fun rest => whatsappButton_item social rest Hw) as HW.
  pose proof (fun rest => linkedinButton_item social rest Hl) as HL.
  pose proof (fun rest => githubButton_item social rest Hg) as HG.
  cbv zeta in HE, HW, HL, HG |- *.
  unfold parseHTML, contactButtons, push_if, when.
  remember (emailButton social) as e eqn:Heq; clear Heq.
  remember (whatsappButton social) as w eqn:Heq; clear Heq.
  remember (linkedinButton social) as l eqn:Heq; clear Heq.
  remember (githubButton social) as g eqn:Heq; clear Heq.
  destruct (truthy (email social)), (truthy (whatsapp social)),
    (truthy (linkedin social)), (truthy (github social));
    cbn [app join];
    rewrite ?(proj1 (HE _)), ?(proj2 (HE _)), ?(proj1 (HW _)), ?(proj2 (HW _)),
      ?(proj1 (HL _)), ?(proj2 (HL _)), ?(proj1 (HG _)), ?(proj2 (HG _));
    split; reflexivity.
Qed.



Lemma footer_links_read (social : Social) :
  social_safe social = true ->
  let ts := parseHTML (join (footerLinks social)) in
  startTags "a " ts
  = when (truthy (email social)) (footer_email_anchor social)
    ++ when (truthy (linkedin social)) (footer_anchor (the (linkedin social)) "LinkedIn")
    ++ when (truthy (github social)) (footer_anchor (the (github social)) "GitHub")
    ++ when (truthy (instagram social))
         (footer_anchor (the (instagram social)) "Instagram") /\
  startTags "i class=" ts
  = when (truthy (email social)) ("i class=" +:+ q "fas fa-envelope")
    ++ when (truthy (linkedin social)) ("i class=" +:+ q "fab fa-linkedin-in")
    ++ when (truthy (github social)) ("i class=" +:+ q "fab fa-github")
    ++ when (truthy (instagram social)) ("i class=" +:+ q "fab fa-instagram").
Proof.
  unfold social_safe. rewrite !andb_true_iff. intros [[[[He Hw] Hl] Hg] Hi].
  pose proof (fun rest => footerEmail_item social rest He) as HE.
  pose proof (fun rest => footerLink_item (the (linkedin social)) "LinkedIn"
                            "fab fa-linkedin-in" rest Hl eq_refl eq_refl) as HL.
  pose proof (fun rest => footerLink_item (the (github social)) "GitHub"
                            "fab fa-github" rest Hg eq_refl eq_refl) as HG.
  pose proof (fun rest => footerLink_item (the (instagram social)) "Instagram"
                            "fab fa-instagram" rest Hi eq_refl eq_refl) as HI.
  cbv zeta in HE, HL, HG, HI |- *.
  unfold parseHTML, footerLinks, push_if, when.
  remember (footerEmail social) as e eqn:Heq; clear Heq.
  remember (footerLink (the (linkedin social)) _ _) as l eqn:Heq; clear Heq.
  remember (footerLink (the (github social)) _ _) as g eqn:Heq; clear Heq.
  remember (footerLink (the (instagram social)) _ _) as i eqn:Heq; clear Heq.
  destruct (truthy (email social)), (truthy (linkedin social)),
    (truthy (github social)), (truthy (instagram social));
    cbn [app join];
    rewrite ?(proj1 (HE _)), ?(proj2 (HE _)), ?(proj1 (HL _)), ?(proj2 (HL _)),
      ?(proj1 (HG _)), ?(proj2 (HG _)), ?(proj1 (HI _)), ?(proj2 (HI _));
    split; reflexivity.
Qed.



(** *** Achievements *)

Lemma or_else_truthy o d : or_else o d = if truthy o then the o else d.
Proof. by destruct o as [[|c s]|]. Qed.

Lemma attr_safe_or_else o d :
  attr_safe (the o) = true -> attr_safe d = true -> attr_safe (or_else o d) = true.
Proof. rewrite or_else_truthy. by destruct (truthy o). Qed.

Lemma achievement_item item rest :
  item_safe item = true ->
  let ts := tokenize Data (achievementTemplate item +:+ rest) in
  let ts' := tokenize Data rest in
  textIn achievement_title_tag ts = item_title item :: textIn achievement_title_tag ts' /\
  textIn achievement_org_tag ts = organization item :: textIn achievement_org_tag ts' /\
  textIn achievement_description_tag ts
  = item_description item :: textIn achievement_description_tag ts' /\
  textIn achievement_year_tag ts = item_year item :: textIn achievement_year_tag ts' /\
  startTags "i class=" ts
  = icon_tag (or_else (icon item) "trophy") :: startTags "i class=" ts'.
Proof.
  unfold item_safe. rewrite !andb_true_iff. intros [[[[Hi Ht] Ho] Hd] Hy].
  pose proof (attr_safe_or_else (icon item) "trophy" (attr_literal_safe _ Hi) eq_refl)
    as Hicon.
  cbv zeta.
  eassert (Htok : tokenize Data (achievementTemplate item +:+ rest) = _).
  { unfold achievementTemplate, q. rewrite !append_assoc.
    tokenize_markup. reflexivity. }
  rewrite Htok. clear Htok.
  unfold achievement_title_tag, achievement_org_tag, achievement_description_tag,
    achievement_year_tag.
  repeat split; read_markup; rewrite ?append_nil_r; reflexivity.
Qed.

Lemma achievement_items items :
  forallb item_safe items = true ->
  let ts := tokenize Data (join (map achievementTemplate items)) in
  textIn achievement_title_tag ts = map item_title items /\
  textIn achievement_org_tag ts = map organization items /\
  textIn achievement_description_tag ts = map item_description items /\
  textIn achievement_year_tag ts = map item_year items /\
  startTags "i class=" ts
  = map (fun item => icon_tag (or_else (icon item) "trophy")) items.
Proof.
  induction items as [|item items IH]; intros Hsafe; [by repeat split|].
  cbn [forallb] in Hsafe. apply andb_true_iff in Hsafe as [Hitem Hitems].
  destruct (IH Hitems) as (IH1 & IH2 & IH3 & IH4 & IH5).
  destruct (achievement_item item (join (map achievementTemplate items)) Hitem)
    as (H1 & H2 & H3 & H4 & H5).
  cbn [map join]. cbv zeta.
  rewrite H1, H2, H3, H4, H5, IH1, IH2, IH3, IH4, IH5.
  by repeat split.
Qed.

(** X16: when there is an achievement or a certification,
    [renderAchievements] fills its container with one card per item, the
    achievements first and the certifications after them, each in the
    order of the document.  Read back from the container, the titles,
    organizations, descriptions and years are those of the items,
    character for character, and the icon of a card is the item's own, or
    the trophy when the item has no icon or an empty one; so for items
    whose texts hold none of [<], [&], carriage return and NUL and whose
    icon holds none of the double quote, [&], carriage return and NUL. *)
Theorem achievements_then_certifications (data : Achievements) (s : Page) :
  allItems data <> [] ->
  "achievements-grid" ∈ elems s ->
  forallb item_safe (allItems data) = true ->
  exists html,
    props (after (renderAchievements data) s) !! ("achievements-grid", "innerHTML")
    = Some html /\
    let ts := parseHTML html in
    textIn achievement_title_tag ts
    = map item_title (achievements data) ++ map item_title (certifications data) /\
    textIn achievement_org_tag ts
    = map organization (achievements data) ++ map organization (certifications data) /\
    textIn achievement_description_tag ts
    = map item_description (achievements data)
      ++ map item_description (certifications data) /\
    textIn achievement_year_tag ts
    = map item_year (achievements data) ++ map item_year (certifications data) /\
    startTags "i class=" ts
    = map (fun item => icon_tag (if truthy (icon item) then the (icon item) else "trophy"))
        (achievements data ++ certifications data).
Proof.
  intros Hsome Hel Hsafe.
  exists (join (map achievementTemplate (allItems data))). split.
  - unfold after, renderAchievements.
    erewrite bind_run by (by apply get_ok).
    destruct (allItems data) as [|item items]; [done|].
    cbn [length Nat.eqb]. apply lookup_insert_eq.
  - destruct (achievement_items (allItems data) Hsafe) as (H1 & H2 & H3 & H4 & H5).
    cbv zeta in *. unfold parseHTML. rewrite H1, H2, H3, H4, H5.
    unfold allItems. rewrite !map_app. repeat split.
    f_equal; apply map_ext; intros item; by rewrite or_else_truthy.
Qed.

(** The three items of [mixed_achievements] on [shell_page]: the
    certificates get the trophy. *)
Lemma achievements_then_certifications_witness :
  allItems mixed_achievements <> [] /\
  forallb item_safe (allItems mixed_achievements) = true /\
  exists html,
    props (after (renderAchievements mixed_achievements) shell_page)
      !! ("achievements-grid", "innerHTML") = Some html /\
    startTags "i class=" (parseHTML html)
    = [icon_tag "trophy"; icon_tag "medal"; icon_tag "trophy"].
Proof.
  assert (Hsome : allItems mixed_achievements <> []) by discriminate.
  assert (Hel : "achievements-grid" ∈ elems shell_page)
    by (apply (shell_has _ _ shell_page_ok); compute_done).
  split; [exact Hsome|]. split; [reflexivity|].
  destruct (achievements_then_certifications mixed_achievements shell_page
              Hsome Hel eq_refl) as (html & Hhtml & _ & _ & _ & _ & Hicons).
  exists html. split; [exact Hhtml|exact Hicons].
Defined.

(** *** Project modal, read back *)

Lemma tokens_modalHighlights hs rest :
  forallb literal hs = true ->
  tokenize Data (join (map modalHighlight hs) +:+ rest)
  = flat_map (element_tokens "li" "/li") hs ++ tokenize Data rest.
Proof.
  induction hs as [|h hs IH]; intros Hliteral; [done|].
  cbn [forallb] in Hliteral. apply andb_true_iff in Hliteral as [Hh Hhs].
  cbn [map join flat_map]. unfold modalHighlight at 1. rewrite !append_assoc.
  repeat first [ feed_step | rewrite tokenize_literal by assumption ].
  rewrite IH by done. unfold element_tokens. cbn [app]. by rewrite <- !app_assoc.
Qed.

Lemma tokens_modalTechs techs rest :
  forallb literal techs = true ->
  tokenize Data (join (map modalTechTemplate techs) +:+ rest)
  = flat_map (element_tokens tech_tag "/span") techs ++ tokenize Data rest.
Proof.
  induction techs as [|tech techs IH]; intros Hliteral; [done|].
  cbn [forallb] in Hliteral. apply andb_true_iff in Hliteral as [Htech Htechs].
  cbn [map join flat_map]. unfold modalTechTemplate at 1, q. rewrite !append_assoc.
  repeat first [ feed_step | rewrite tokenize_literal by assumption ].
  rewrite IH by done. unfold element_tokens. cbn [app]. by rewrite <- !app_assoc.
Qed.

Lemma startTags_elements p open close texts ts :
  starts_with p open = false -> starts_with p close = false ->
  startTags p (flat_map (element_tokens open close) texts ++ ts) = startTags p ts.
Proof.
  intros Hopen Hclose. induction texts as [|text texts IH]; [done|].
  cbn [flat_map]. unfold element_tokens at 1. cbn [app startTags].
  rewrite Hopen, <- !app_assoc, startTags_text_tokens. cbn [app startTags].
  by rewrite Hclose.
Qed.

Lemma textIn_elements tag open close texts ts :
  String.eqb close tag = false ->
  textIn tag (flat_map (element_tokens open close) texts ++ ts)
  = (if String.eqb open tag then texts else []) ++ textIn tag ts.
Proof.
  intros Hclose. induction texts as [|text texts IH].
  - by destruct (String.eqb open tag).
  - cbn [flat_map]. unfold element_tokens at 1. cbn [app textIn].
    rewrite <- !app_assoc, textIn_text_tokens, leading_text_text_tokens.
    cbn [app textIn leading_text]. rewrite Hclose, IH, append_nil_r.
    by destruct (String.eqb open tag).
Qed.

Ltac read_elements :=
  repeat first
    [ rewrite eqb_head by reflexivity
    | rewrite starts_with_cons
    | progress cbn [textIn startTags leading_text app String.eqb Ascii.eqb Bool.eqb
                    starts_with andb]
    | rewrite textIn_text_tokens
    | rewrite startTags_text_tokens
    | rewrite leading_text_text_tokens
    | rewrite startTags_elements by reflexivity
    | rewrite textIn_elements by reflexivity ].

(** The end of the modal's markup: the block of links, when there is one,
    and the closing tag of the modal's info block. *)
Lemma modal_links_part project :
  attr_safe (the (links_github (links project))) = true ->
  attr_safe (the (links_demo (links project))) = true ->
  let ts := tokenize Data
              ((if some_link (links project) then modalLinks project else EmptyString)
               +:+ ind 8 +:+ "</div>" +:+ ind 4 +:+ EmptyString) in
  startTags "a " ts
  = when (truthy (links_github (links project)))
      (modal_link_anchor (the (links_github (links project))))
    ++ when (truthy (links_demo (links project)))
         (modal_link_anchor (the (links_demo (links project)))) /\
  startTags modal_links_tag ts
  = when (truthy (links_github (links project)) || truthy (links_demo (links project)))
      modal_links_tag /\
  startTags "img " ts = [] /\
  textIn modal_category_tag ts = [] /\
  textIn modal_title_tag ts = [] /\
  textIn modal_description_tag ts = [] /\
  textIn "li" ts = [].
Proof.
  intros Hg Hd. cbv zeta. unfold some_link, modalLinks, when. cbn [existsb].
  unfold modal_links_tag, modal_category_tag, modal_title_tag, modal_description_tag.
  destruct (truthy (links_github (links project)));
    destruct (truthy (links_demo (links project))); cbn [orb];
    match goal with
    | |- context [tokenize Data ?markup] =>
        let Htok := fresh "Htok" in
        eassert (Htok : tokenize Data markup = _);
        [ unfold modalGithubLink, modalDemoLink, q; rewrite ?append_assoc;
          tokenize_markup; reflexivity
        | rewrite Htok; clear Htok ]
    end;
    (repeat split; read_elements; try reflexivity;
     unfold modal_link_anchor, q; rewrite ?append_assoc; reflexivity).
Qed.

(** What the detail markup of a project reads as. *)
Lemma modal_readings (project : Project) :
  modal_safe project = true ->
  let ts := parseHTML (modalHTML project) in
  startTags "img " ts = [modal_image_tag project] /\
  textIn modal_category_tag ts
  = [category project +:+ " " +:+ bullet +:+ " " +:+ year project] /\
  textIn modal_title_tag ts = [title project] /\
  textIn modal_description_tag ts = [description project] /\
  textIn "li" ts = highlights project /\
  startTags modal_links_tag ts
  = when (truthy (links_github (links project)) || truthy (links_demo (links project)))
      modal_links_tag /\
  startTags "a " ts
  = when (truthy (links_github (links project)))
      (modal_link_anchor (the (links_github (links project))))
    ++ when (truthy (links_demo (links project)))
         (modal_link_anchor (the (links_demo (links project)))).
Proof.
  unfold modal_safe. rewrite !andb_true_iff.
  intros [[[[[[[[[Hai Hat] Hpc] Hpy] Hpt] Hpd] Hph] Hpts] Hag] Had].
  pose proof (attr_safe_encodeURIComponent (title project)) as Henc.
  destruct (modal_links_part project (attr_literal_safe _ Hag) (attr_literal_safe _ Had))
    as (L1 & L2 & L3 & L4 & L5 & L6 & L7).
  cbv zeta in *. unfold parseHTML.
  eassert (Htok : tokenize Data (modalHTML project) = _).
  { unfold modalHTML, modalTech, placeholderURL.
    rewrite <- (append_nil_r (ind 4)).
    unfold q. rewrite !append_assoc.
    repeat first [ feed_step
                 | rewrite tokenize_literal by assumption
                 | rewrite tokenize_attr by assumption
                 | rewrite tokenize_attr_literal by assumption
                 | rewrite tokens_modalHighlights by assumption
                 | rewrite tokens_modalTechs by assumption ].
    cbn [app]. rewrite ?append_assoc. reflexivity. }
  rewrite Htok. clear Htok.
  unfold modal_links_tag, modal_category_tag, modal_title_tag, modal_description_tag,
    tech_tag in *.
  repeat split; read_elements.
  - rewrite L3. unfold modal_image_tag, placeholderURL, q. rewrite !append_assoc.
    reflexivity.
  - rewrite L4, append_nil_r. reflexivity.
  - rewrite L5, append_nil_r. reflexivity.
  - rewrite L6, append_nil_r. reflexivity.
  - rewrite L7. apply app_nil_r.
  - rewrite L2. reflexivity.
  - rewrite L1. reflexivity.
Qed.

(** X17: what the modal shows of a project once [openModal] has run.  Its
    image is the project's first image, or the thumbnail when there is no
    image or the first one is empty; then come the category and year, the
    title, the description and a list item for every highlight, in order,
    character for character.  The block of links exists only when the
    project has a GitHub or a demo link, and holds an anchor for each of
    the two that is present and not empty, GitHub first.  So for projects
    whose texts hold none of [<], [&], carriage return and NUL and whose
    attribute values hold none of the double quote, [&], carriage return
    and NUL. *)
Theorem modal_shows_project (project : Project) (s : Page) :
  "modal-body" ∈ elems s ->
  modal_safe project = true ->
  let ts := contentOf "modal-body" (after (openModal project) s) in
  startTags "img " ts = [modal_image_tag project] /\
  textIn modal_category_tag ts
  = [category project +:+ " " +:+ bullet +:+ " " +:+ year project] /\
  textIn modal_title_tag ts = [title project] /\
  textIn modal_description_tag ts = [description project] /\
  textIn "li" ts = highlights project /\
  startTags modal_links_tag ts
  = when (truthy (links_github (links project)) || truthy (links_demo (links project)))
      modal_links_tag /\
  startTags "a " ts
  = when (truthy (links_github (links project)))
      (modal_link_anchor (the (links_github (links project))))
    ++ when (truthy (links_demo (links project)))
         (modal_link_anchor (the (links_demo (links project)))).
Proof.
  intros Hel Hsafe. cbv zeta. unfold contentOf. rewrite openModal_content by done.
  by apply modal_readings.
Qed.

(** [sample_project] has a GitHub link only and no image;
    [unlinked_project] has an empty demo link and an empty first image. *)
Lemma modal_shows_project_witness :
  "modal-body" ∈ elems shell_page /\
  modal_safe sample_project = true /\ modal_safe unlinked_project = true /\
  startTags "a " (contentOf "modal-body" (after (openModal sample_project) shell_page))
  = [modal_link_anchor "https://github.com/x/shop"] /\
  startTags modal_links_tag
    (contentOf "modal-body" (after (openModal unlinked_project) shell_page)) = [] /\
  textIn "li" (contentOf "modal-body" (after (openModal unlinked_project) shell_page))
  = ["Offline"; "Sync"].
Proof.
  assert (Hel : "modal-body" ∈ elems shell_page).
  { unfold shell_page. cbn [elems]. apply elem_of_list_to_set. compute_done. }
  split; [exact Hel|]. split; [reflexivity|]. split; [reflexivity|].
  destruct (modal_shows_project sample_project shell_page Hel eq_refl)
    as (_ & _ & _ & _ & _ & _ & Ha).
  destruct (modal_shows_project unlinked_project shell_page Hel eq_refl)
    as (_ & _ & _ & _ & Hli & Hlinks & _).
  split; [exact Ha|]. split; [exact Hlinks|exact Hli].
Defined.

(** *** Project cards, read back *)

Lemma startTags_cardTechs p techs rest :
  forallb literal techs = true ->
  starts_with p tech_tag = false -> starts_with p "/span" = false ->
  startTags p (tokenize Data (join (map cardTechTemplate techs) +:+ rest))
  = startTags p (tokenize Data rest).
Proof.
  intros Hliteral Hopen Hclose. induction techs as [|tech techs IH]; [done|].
  cbn [forallb] in Hliteral. apply andb_true_iff in Hliteral as [Htech Htechs].
  cbn [map join]. unfold cardTechTemplate at 1, q. rewrite !append_assoc.
  repeat first [ feed_step | rewrite tokenize_literal by assumption ].
  cbn [app startTags]. fold tech_tag. rewrite Hopen, startTags_text_tokens.
  cbn [app startTags]. rewrite Hclose. cbn [startTags]. by apply IH.
Qed.

Lemma textIn_cardTechs tag techs rest :
  forallb literal techs = true ->
  String.eqb tech_tag tag = false -> String.eqb "/span" tag = false ->
  textIn tag (tokenize Data (join (map cardTechTemplate techs) +:+ rest))
  = textIn tag (tokenize Data rest).
Proof.
  intros Hliteral Hopen Hclose. induction techs as [|tech techs IH]; [done|].
  cbn [forallb] in Hliteral. apply andb_true_iff in Hliteral as [Htech Htechs].
  cbn [map join]. unfold cardTechTemplate at 1, q. rewrite !append_assoc.
  repeat first [ feed_step | rewrite tokenize_literal by assumption ].
  cbn [app textIn]. fold tech_tag. rewrite Hopen, textIn_text_tokens.
  cbn [app textIn]. rewrite Hclose. cbn [textIn]. by apply IH.
Qed.

Ltac read_card :=
  repeat first
    [ rewrite eqb_head by reflexivity
    | rewrite starts_with_cons
    | progress cbn [textIn startTags leading_text app String.eqb Ascii.eqb Bool.eqb
                    starts_with andb]
    | rewrite textIn_text_tokens
    | rewrite startTags_text_tokens
    | rewrite leading_text_text_tokens
    | rewrite startTags_cardTechs by (first [by apply forallb_take | reflexivity])
    | rewrite textIn_cardTechs by (first [by apply forallb_take | reflexivity]) ].

Lemma project_item project rest :
  card_safe project = true ->
  let ts := tokenize Data (projectTemplate project +:+ rest) in
  let ts' := tokenize Data rest in
  startTags project_card ts = card_tag project :: startTags project_card ts' /\
  startTags "img " ts = card_image_tag project :: startTags "img " ts' /\
  textIn project_category_tag ts = category project :: textIn project_category_tag ts' /\
  textIn project_title_tag ts = title project :: textIn project_title_tag ts' /\
  textIn project_description_tag ts
  = shortDescription project :: textIn project_description_tag ts'.
Proof.
  unfold card_safe. rewrite !andb_true_iff.
  intros [[[[[[[Hac Hai] Hath] Hat] Hpc] Hpt] Hps] Hpts].
  pose proof (attr_safe_encodeURIComponent (title project)) as Henc.
  cbv zeta.
  eassert (Htok : tokenize Data (projectTemplate project +:+ rest) = _).
  { unfold projectTemplate, cardTech, placeholderURL, q.
    rewrite slice_0_4, !append_assoc.
    tokenize_markup. reflexivity. }
  rewrite Htok. clear Htok.
  unfold project_card, project_category_tag, project_title_tag, project_description_tag.
  repeat split; read_card.
  - repeat feed_step. cbn [app]. read_card.
    unfold card_tag, q. rewrite !append_assoc. reflexivity.
  - repeat feed_step. cbn [app]. read_card.
    unfold card_image_tag, placeholderURL, q. rewrite !append_assoc. reflexivity.
  - repeat feed_step. cbn [app]. read_card. by rewrite append_nil_r.
  - repeat feed_step. cbn [app]. read_card. by rewrite append_nil_r.
  - repeat feed_step. cbn [app]. read_card. by rewrite append_nil_r.
Qed.

Lemma project_items projects :
  forallb card_safe projects = true ->
  let ts := tokenize Data (join (map projectTemplate projects)) in
  startTags project_card ts = map card_tag projects /\
  startTags "img " ts = map card_image_tag projects /\
  textIn project_category_tag ts = map category projects /\
  textIn project_title_tag ts = map title projects /\
  textIn project_description_tag ts = map shortDescription projects.
Proof.
  induction projects as [|project projects IH]; intros Hsafe; [by repeat split|].
  cbn [forallb] in Hsafe. apply andb_true_iff in Hsafe as [Hproject Hprojects].
  destruct (IH Hprojects) as (IH1 & IH2 & IH3 & IH4 & IH5).
  destruct (project_item project (join (map projectTemplate projects)) Hproject)
    as (H1 & H2 & H3 & H4 & H5).
  cbn [map join]. cbv zeta.
  rewrite H1, H2, H3, H4, H5, IH1, IH2, IH3, IH4, IH5.
  by repeat split.
Qed.


(** X18: [renderProjects] fills the projects grid with one card per
    project, in the order of the document, duplicates included.  Read back
    from the grid, the start tag of each card carries the project's
    category as [data-category] and its id as [data-id], its image has the
    thumbnail as source and the title as alternative text, and its
    category, title and short description are shown as text, character for
    character.  So for projects whose texts hold none of [<], [&], carriage
    return and NUL and whose attribute values hold none of the double
    quote, [&], carriage return and NUL: the element then holds each
    attribute value as it is written in its start tag. *)
Theorem cards_carry_their_project (data : Projects) (s : Page) :
  "projects-filter" ∈ elems s -> "projects-grid" ∈ elems s ->
  forallb card_safe (projects data) = true ->
  let ts := contentOf "projects-grid" (after (renderProjects data) s) in
  startTags project_card ts = map card_tag (projects data) /\
  startTags "img " ts = map card_image_tag (projects data) /\
  textIn project_category_tag ts = map category (projects data) /\
  textIn project_title_tag ts = map title (projects data) /\
  textIn project_description_tag ts = map shortDescription (projects data).
Proof.
  intros Hfilter Hgrid Hsafe. cbv zeta. unfold contentOf.
  rewrite (proj2 (renderProjects_content data s
                    ltac:(by repeat constructor))).
  unfold parseHTML, projectsHTML. by apply project_items.
Qed.

(** The three cards of [three_projects] on [shell_page]. *)
Lemma cards_carry_their_project_witness :
  "projects-filter" ∈ elems shell_page /\ "projects-grid" ∈ elems shell_page /\
  forallb card_safe (projects three_projects) = true /\
  startTags project_card
    (contentOf "projects-grid" (after (renderProjects three_projects) shell_page))
  = [card_tag (project_in "Web"); card_tag (project_in "Mobile");
     card_tag (project_in "Web")].
Proof.
  assert (Hfilter : "projects-filter" ∈ elems shell_page)
    by (apply (shell_has _ _ shell_page_ok); compute_done).
  assert (Hgrid : "projects-grid" ∈ elems shell_page)
    by (apply (shell_has _ _ shell_page_ok); compute_done).
  split; [exact Hfilter|]. split; [exact Hgrid|]. split; [reflexivity|].
  exact (proj1 (cards_carry_their_project three_projects shell_page
                  Hfilter Hgrid eq_refl)).
Defined.

(** *** The fallback image *)

Lemma encodeURIComponent_app a b :
  encodeURIComponent (a +:+ b) = encodeURIComponent a +:+ encodeURIComponent b.
Proof.
  induction a as [|c a IH]; [done|].
  rewrite append_cons. cbn [encodeURIComponent]. by rewrite IH, append_assoc.
Qed.

Lemma apostrophe_free_app a b :
  apostrophe_free (a +:+ b) = apostrophe_free a && apostrophe_free b.
Proof.
  induction a as [|c a IH]; [done|].
  rewrite append_cons. cbn [apostrophe_free]. by rewrite IH, andb_assoc.
Qed.

Lemma hex_digit_no_apostrophe k :
  (k < 16)%nat -> Ascii.eqb (hex_digit k) "'" = false.
Proof. intros Hk. do 16 (destruct k as [|k]; [reflexivity|]). lia. Qed.

Lemma apostrophe_free_encodeURIComponent s :
  apostrophe_free s = true -> apostrophe_free (encodeURIComponent s) = true.
Proof.
  induction s as [|c s IH]; [done|].
  cbn [apostrophe_free encodeURIComponent]. intros Hs.
  apply andb_true_iff in Hs as [Hc Hs]. rewrite apostrophe_free_app, (IH Hs), andb_true_r.
  destruct (uri_unreserved c).
  - cbn [apostrophe_free]. by rewrite Hc.
  - unfold percent_byte. cbn [apostrophe_free].
    rewrite !hex_digit_no_apostrophe; [done| |].
    + apply Nat.mod_upper_bound. lia.
    + apply Nat.Div0.div_lt_upper_bound. pose proof (nat_ascii_bounded c). lia.
Qed.

Lemma string_literal_closed text rest :
  apostrophe_free text = true ->
  string_literal (text +:+ "'" +:+ rest) = Some (text, rest).
Proof.
  induction text as [|c text IH]; intros Hfree; [done|].
  cbn [apostrophe_free] in Hfree. apply andb_true_iff in Hfree as [Hc Hfree].
  apply negb_true_iff in Hc.
  rewrite append_cons. cbn [string_literal]. by rewrite Hc, IH.
Qed.

Lemma apostrophe_free_placeholderURL size text :
  apostrophe_free size = true -> apostrophe_free text = true ->
  apostrophe_free (placeholderURL size text) = true.
Proof.
  intros Hsize Htext. unfold placeholderURL.
  rewrite !apostrophe_free_app, Hsize, apostrophe_free_encodeURIComponent by done.
  reflexivity.
Qed.

(** X19: the fallback image of a card and of the modal.  The [onerror]
    handler assigns the placeholder address with the encoded title, written
    as a single-quoted string literal.  The handler never leaves its
    attribute, whatever the title.  For a title without an apostrophe the
    literal is the whole address and the handler ends with it.
    [encodeURIComponent] keeps apostrophes, so for a title with an
    apostrophe the literal ends at the title's first apostrophe: it is the
    address for the part of the title before it, and the rest of the
    encoded title follows the literal. *)
Theorem fallback_image_handler (size : string) :
  apostrophe_free size = true -> attr_safe size = true ->
  (forall project,
     card_image_tag project
     = "img src=" +:+ q (thumbnail project) +:+ " alt=" +:+ q (title project)
       +:+ " onerror=" +:+ q (onerrorHandler "400x200" (title project)) /\
     modal_image_tag project
     = "img src=" +:+ q (or_else (head (images project)) (thumbnail project))
       +:+ " alt=" +:+ q (title project) +:+ " class=" +:+ q "modal-image"
       +:+ " onerror=" +:+ q (onerrorHandler "800x300" (title project))) /\
  (forall text, attr_safe (onerrorHandler size text) = true) /\
  (forall text,
     apostrophe_free text = true ->
     string_literal (placeholderURL size text +:+ "'")
     = Some (placeholderURL size text, EmptyString)) /\
  (forall before after,
     apostrophe_free before = true ->
     string_literal (placeholderURL size (before +:+ "'" +:+ after) +:+ "'")
     = Some (placeholderURL size before, encodeURIComponent after +:+ "'")).
Proof.
  intros Hfree Hsafe. split; [by split|]. split; [|split].
  - intros text. unfold onerrorHandler, placeholderURL.
    by rewrite !attr_safe_app, Hsafe, attr_safe_encodeURIComponent.
  - intros text Htext.
    rewrite <- (append_nil_r "'"), string_literal_closed; [done|].
    by apply apostrophe_free_placeholderURL.
  - intros before after Hbefore.
    unfold placeholderURL. rewrite !encodeURIComponent_app.
    change (encodeURIComponent "'") with "'".
    rewrite <- (string_literal_closed
                  ("https://via.placeholder.com/" +:+ size +:+ "/1E3A5F/00D4FF?text="
                   +:+ encodeURIComponent before)
                  (encodeURIComponent after +:+ "'")).
    + by rewrite !append_assoc.
    + apply (apostrophe_free_placeholderURL size before Hfree Hbefore).
Qed.

(** The card of a project titled [Bob's app]. *)
Lemma fallback_image_handler_witness :
  apostrophe_free "400x200" = true /\ attr_safe "400x200" = true /\
  string_literal (placeholderURL "400x200" "Bob's app" +:+ "'")
  = Some ("https://via.placeholder.com/400x200/1E3A5F/00D4FF?text=Bob", "s%20app'").
Proof.
  split; [reflexivity|]. split; [reflexivity|].
  exact (proj2 (proj2 (proj2 (fallback_image_handler "400x200" eq_refl eq_refl)))
           "Bob" "s app" eq_refl).
Defined.

(** *** Roles, read back *)

Lemma role_item_tags data index r rest :
  plain r = true ->
  let separated := (Z.of_nat index <? Z.of_nat (length (roles data)) - 1)%Z in
  tagsOf (tokenize Data (roleTemplate data index r +:+ rest))
  = role_tags separated ++ tagsOf (tokenize Data rest) /\
  textIn role_separator_tag (tokenize Data (roleTemplate data index r +:+ rest))
  = when separated bullet ++ textIn role_separator_tag (tokenize Data rest).
Proof.
  intros Hplain. cbv zeta. unfold roleTemplate, roleSeparator, role_tags, when.
  destruct (Z.of_nat index <? Z.of_nat (length (roles data)) - 1)%Z;
    unfold q; rewrite !append_assoc;
    repeat first
      [ feed_step
      | match goal with
        | |- context [tokenize Data (r +:+ ?rest')] =>
            let text := fresh "text" in
            let Htext := fresh "Htext" in
            destruct (tokenize_plain_text r rest' Hplain) as [text Htext];
            rewrite Htext; clear Htext
        end ];
    cbn [app]; unfold role_separator_tag;
    (split; [read_tags; reflexivity|read_markup; reflexivity]).
Qed.

Lemma imap_read (R : list Token -> list string) (f : nat -> string -> string)
    (g : nat -> list string) :
  (forall i r rest, plain r = true ->
     R (tokenize Data (f i r +:+ rest)) = g i ++ R (tokenize Data rest)) ->
  forall l rest, forallb plain l = true ->
    R (tokenize Data (join (imap f l) +:+ rest))
    = concat (imap (fun i _ => g i) l) ++ R (tokenize Data rest).
Proof.
  intros Hitem l. revert f g Hitem.
  induction l as [|r l IH]; intros f g Hitem rest Hplain; [done|].
  cbn [forallb] in Hplain. apply andb_true_iff in Hplain as [Hr Hl].
  cbn [imap join concat]. rewrite append_assoc, Hitem by done.
  rewrite (IH (f ∘ S) (g ∘ S)); [by rewrite app_assoc| |done].
  intros i. apply Hitem.
Qed.

(** With [n] roles in all, the roles from position [k] on alternate with
    separators. *)
Lemma roles_alternate {A} (n k : nat) (l : list A) :
  (k + length l)%nat = n ->
  concat (imap (fun i _ => role_tags (Z.of_nat (k + i) <? Z.of_nat n - 1)%Z) l)
  = match l with
    | [] => []
    | _ :: others =>
        [role_span; "/span"]
        ++ concat (replicate (length others)
                     [role_separator_tag; "/span"; role_span; "/span"])
    end /\
  concat (imap (fun i _ => when (Z.of_nat (k + i) <? Z.of_nat n - 1)%Z bullet) l)
  = replicate (length l - 1) bullet.
Proof.
  revert k. induction l as [|r l IH]; intros k Hn; [done|].
  cbn [imap concat length] in *. rewrite Nat.add_0_r.
  destruct (IH (S k)) as [IHtags IHseps]; [lia|].
  assert (Hshift : forall (h : nat -> list string),
            imap ((fun i (_ : A) => h (k + i)%nat) ∘ S) l
            = imap (fun i _ => h (S k + i)%nat) l).
  { intros h. apply imap_ext. intros i x _. cbn. f_equal. lia. }
  rewrite (Hshift (fun j => role_tags (Z.of_nat j <? Z.of_nat n - 1)%Z)), IHtags.
  rewrite (Hshift (fun j => when (Z.of_nat j <? Z.of_nat n - 1)%Z bullet)), IHseps.
  destruct l as [|r' l].
  - cbn [length] in *. replace (Z.of_nat k <? Z.of_nat n - 1)%Z with false
      by (symmetry; apply Z.ltb_ge; lia). by split.
  - cbn [length] in *. replace (Z.of_nat k <? Z.of_nat n - 1)%Z with true
      by (symmetry; apply Z.ltb_lt; lia).
    split; [reflexivity|]. cbn. by rewrite Nat.sub_0_r.
Qed.

(** X20: the roles of the hero section are separated by bullets: every
    role is followed by a separator except the last one, so a profile with
    one role shows no separator and one without roles shows nothing. *)
Theorem roles_are_separated (data : Profile) :
  forallb plain (roles data) = true ->
  tagsOf (parseHTML (rolesHTML data))
  = match roles data with
    | [] => []
    | _ :: others =>
        [role_span; "/span"]
        ++ concat (replicate (length others)
                     [role_separator_tag; "/span"; role_span; "/span"])
    end /\
  textIn role_separator_tag (parseHTML (rolesHTML data))
  = replicate (length (roles data) - 1) bullet.
Proof.
  intros Hplain. unfold parseHTML, rolesHTML.
  rewrite <- (append_nil_r (join _)).
  destruct (roles_alternate (length (roles data)) 0 (roles data) eq_refl)
    as [Htags Hseps].
  split.
  - rewrite (imap_read tagsOf (roleTemplate data)
               (fun i => role_tags (Z.of_nat i <? Z.of_nat (length (roles data)) - 1)%Z));
      [|intros i r rest Hr; apply (role_item_tags data i r rest Hr)|done].
    cbn [tokenize tagsOf]. rewrite app_nil_r. exact Htags.
  - rewrite (imap_read (textIn role_separator_tag) (roleTemplate data)
               (fun i => when (Z.of_nat i <? Z.of_nat (length (roles data)) - 1)%Z bullet));
      [|intros i r rest Hr; apply (role_item_tags data i r rest Hr)|done].
    cbn [tokenize textIn]. rewrite app_nil_r. exact Hseps.
Qed.

(** The two roles of [sample_profile]. *)
Lemma roles_are_separated_witness :
  forallb plain (roles sample_profile) = true /\
  tagsOf (parseHTML (rolesHTML sample_profile))
  = [role_span; "/span"; role_separator_tag; "/span"; role_span; "/span"].
Proof.
  split; [reflexivity|].
  exact (proj1 (roles_are_separated sample_profile eq_refl)).
Defined.

(** ** Text fields in the rendered page *)







(** ** The filter buttons in the page *)

(** C3, as the code has it.  [renderProjects] writes into the filter
    container the All button followed by one button per distinct category,
    in first-seen order and without duplicates, for every document.  Read
    back from the container, the buttons are All followed by the distinct
    categories in first-seen order whenever the categories hold none of
    [<], [&], the double quote, carriage return and NUL; for Web, Mobile,
    Web they are All, Web, Mobile. *)
Theorem filter_buttons_first_seen (data : Projects) (s : Page) :
  "projects-filter" ∈ elems s -> "projects-grid" ∈ elems s ->
  let cats := map category (projects data) in
  let s' := after (renderProjects data) s in
  projectCategories data = first_seen cats /\
  NoDup (first_seen cats) /\
  (forall c, c ∈ first_seen cats <-> c ∈ cats) /\
  innerHTML "projects-filter" s'
  = ind 8 +:+ allButton +:+ ind 8
    +:+ join (map filterButtonTemplate (first_seen cats)) +:+ ind 4 /\
  (forallb button_safe cats = true ->
   buttonLabels (contentOf "projects-filter" s') = "All" :: first_seen cats) /\
  (cats = ["Web"; "Mobile"; "Web"] ->
   buttonLabels (contentOf "projects-filter" s') = ["All"; "Web"; "Mobile"]).
Proof.
  intros Hfilter Hgrid cats s'. subst cats s'. set (cats := map category (projects data)).
  assert (Hcats : projectCategories data = first_seen cats)
    by apply new_Set_first_seen.
  unfold contentOf.
  rewrite (proj1 (renderProjects_content data s ltac:(by repeat constructor))).
  split; [exact Hcats|]. split; [apply NoDup_first_seen|].
  split; [intros c; apply elem_of_first_seen|].
  split; [unfold filterHTML; by rewrite Hcats|].
  split; [by apply filterHTML_labels|].
  intros Hex.
  assert (Hfirst : first_seen cats = ["Web"; "Mobile"]).
  { rewrite Hex. cbn [first_seen]. rewrite !filter_cons. by repeat case_decide. }
  rewrite filterHTML_labels; fold cats; [by rewrite Hfirst|by rewrite Hex].
Qed.

(** The buttons for [three_projects] on [shell_page]. *)
Lemma filter_buttons_first_seen_witness :
  "projects-filter" ∈ elems shell_page /\ "projects-grid" ∈ elems shell_page /\
  forallb button_safe (map category (projects three_projects)) = true /\
  buttonLabels
    (contentOf "projects-filter" (after (renderProjects three_projects) shell_page))
  = ["All"; "Web"; "Mobile"].
Proof.
  assert (Hfilter : "projects-filter" ∈ elems shell_page)
    by (apply (shell_has _ _ shell_page_ok); compute_done).
  assert (Hgrid : "projects-grid" ∈ elems shell_page)
    by (apply (shell_has _ _ shell_page_ok); compute_done).
  split; [exact Hfilter|]. split; [exact Hgrid|]. split; [reflexivity|].
  exact (proj1 (proj2 (proj2 (proj2 (proj2
    (filter_buttons_first_seen three_projects shell_page Hfilter Hgrid))))) eq_refl).
Defined.

(** C3 as stated fails: a category that contains markup adds buttons.  For
    the categories [Web] and [Web</button><button>Web] the buttons read
    All, Web, Web, Web: they are not the distinct categories, and the
    category buttons repeat. *)
Lemma markup_in_category_adds_buttons :
  ~ (forall (data : Projects) (s : Page),
       "projects-filter" ∈ elems s -> "projects-grid" ∈ elems s ->
       let buttons :=
         buttonLabels (contentOf "projects-filter" (after (renderProjects data) s)) in
       buttons = "All" :: first_seen (map category (projects data)) /\
       NoDup (tail buttons)).
Proof.
  intros Hclaim.
  assert (Hfilter : "projects-filter" ∈ elems shell_page)
    by (apply (shell_has _ _ shell_page_ok); compute_done).
  assert (Hgrid : "projects-grid" ∈ elems shell_page)
    by (apply (shell_has _ _ shell_page_ok); compute_done).
  destruct (Hclaim markup_categories shell_page Hfilter Hgrid) as [_ Hnodup].
  unfold contentOf in Hnodup.
  rewrite (proj1 (renderProjects_content markup_categories shell_page
                    ltac:(by repeat constructor))) in Hnodup.
  assert (Hbuttons : buttonLabels (parseHTML (filterHTML markup_categories))
                     = ["All"; "Web"; "Web"; "Web"]) by (vm_compute; reflexivity).
  rewrite Hbuttons in Hnodup. cbn [tail] in Hnodup.
  apply NoDup_cons in Hnodup as [Hfresh _]. apply Hfresh. left.
Qed.

(** ** Technology labels in the page *)




(** ** URLs in the page *)

Lemma social_literal_safe social :
  social_literal social = true -> social_safe social = true.
Proof.
  unfold social_literal, social_safe. rewrite !andb_true_iff.
  intros [[[[He Hw] Hl] Hg] Hi]. repeat split; by apply attr_literal_safe.
Qed.

(** C5, as the code has it.  [encodeURIComponent] yields percent-encoded
    text, and the script applies it in two places only: to the fixed
    message that is the text query of the WhatsApp link, and to the project
    title that is the text query of the placeholder address in the
    [onerror] handler of a card's image and of the modal's image.  The
    email address of the mailto links of the contact section and of the
    footer, the WhatsApp number, the LinkedIn, GitHub and Instagram links
    of the profile and the GitHub and demo links of a project are embedded
    in the [href] as given.  The links are read back from the rendered
    containers, for values that hold none of the double quote, [&],
    carriage return and NUL (and texts of cards and modal without markup
    characters). *)
Theorem url_components_as_built (profile : Profile) (data : Projects)
    (project : Project) (s : Page) :
  shell_ok s -> "modal-body" ∈ elems s ->
  social_literal (social profile) = true ->
  forallb card_safe (projects data) = true ->
  modal_safe project = true ->
  let contact := social profile in
  let s' := after (renderProfile profile) s in
  (forall text, is_percent_encoded (encodeURIComponent text) = true) /\
  is_percent_encoded whatsappMessage = true /\
  startTags "a " (contentOf "contact-buttons" s')
  = when (truthy (email contact))
      ("a href="
       +:+ q ("mailto:" +:+ the (email contact) +:+ "?subject=Portfolio Inquiry")
       +:+ " class=" +:+ q "contact-btn email")
    ++ when (truthy (whatsapp contact))
         ("a href="
          +:+ q ("https://wa.me/" +:+ the (whatsapp contact) +:+ "?text="
                 +:+ whatsappMessage)
          +:+ " target=" +:+ q "_blank" +:+ " class=" +:+ q "contact-btn whatsapp")
    ++ when (truthy (linkedin contact)) (contact_anchor (the (linkedin contact)) "linkedin")
    ++ when (truthy (github contact)) (contact_anchor (the (github contact)) "github") /\
  startTags "a " (contentOf "footer-social" s')
  = when (truthy (email contact))
      ("a href=" +:+ q ("mailto:" +:+ the (email contact))
       +:+ " aria-label=" +:+ q "Email")
    ++ when (truthy (linkedin contact)) (footer_anchor (the (linkedin contact)) "LinkedIn")
    ++ when (truthy (github contact)) (footer_anchor (the (github contact)) "GitHub")
    ++ when (truthy (instagram contact))
         (footer_anchor (the (instagram contact)) "Instagram") /\
  startTags "img " (contentOf "projects-grid" (after (renderProjects data) s))
  = map (fun p =>
           "img src=" +:+ q (thumbnail p) +:+ " alt=" +:+ q (title p)
           +:+ " onerror="
           +:+ q ("this.src='https://via.placeholder.com/400x200/1E3A5F/00D4FF?text="
                  +:+ encodeURIComponent (title p) +:+ "'"))
      (projects data) /\
  (let ts := contentOf "modal-body" (after (openModal project) s) in
   startTags "img " ts
   = [ "img src=" +:+ q (or_else (head (images project)) (thumbnail project))
       +:+ " alt=" +:+ q (title project) +:+ " class=" +:+ q "modal-image"
       +:+ " onerror="
       +:+ q ("this.src='https://via.placeholder.com/800x300/1E3A5F/00D4FF?text="
              +:+ encodeURIComponent (title project) +:+ "'") ] /\
   startTags "a " ts
   = when (truthy (links_github (links project)))
       (modal_link_anchor (the (links_github (links project))))
     ++ when (truthy (links_demo (links project)))
          (modal_link_anchor (the (links_demo (links project))))).
Proof.
  intros Hs Hbody Hsocial Hcards Hmodal. cbv zeta.
  destruct (shell_anchors s Hs) as (Ap & _ & _ & Aj & _).
  apply social_literal_safe in Hsocial.
  unfold contentOf.
  destruct (renderProfile_content profile s Ap) as (_ & _ & -> & ->).
  rewrite (proj2 (renderProjects_content data s Aj)), openModal_content by done.
  split; [apply percent_encoded_encodeURIComponent|].
  split; [apply percent_encoded_encodeURIComponent|].
  split; [exact (proj1 (contact_buttons_read (social profile) Hsocial))|].
  split; [exact (proj1 (footer_links_read (social profile) Hsocial))|].
  split.
  - exact (proj1 (proj2 (project_items (projects data) Hcards))).
  - destruct (modal_readings project Hmodal) as (Himg & _ & _ & _ & _ & _ & Hlinks).
    split; [exact Himg|exact Hlinks].
Qed.

(** The contact link of [spaced_profile], whose address has a space, and
    the image of the card of [sample_project]. *)
Lemma url_components_as_built_witness :
  shell_ok shell_page /\ "modal-body" ∈ elems shell_page /\
  social_literal (social spaced_profile) = true /\
  forallb card_safe (projects sample_projects) = true /\
  modal_safe sample_project = true /\
  startTags "a "
    (contentOf "contact-buttons" (after (renderProfile spaced_profile) shell_page))
  = [ "a href=" +:+ q "mailto:a b@example.org?subject=Portfolio Inquiry"
      +:+ " class=" +:+ q "contact-btn email" ] /\
  startTags "img "
    (contentOf "projects-grid" (after (renderProjects sample_projects) shell_page))
  = [ "img src=" +:+ q "shop.png" +:+ " alt=" +:+ q "Shop" +:+ " onerror="
      +:+ q "this.src='https://via.placeholder.com/400x200/1E3A5F/00D4FF?text=Shop'" ].
Proof.
  assert (Hbody : "modal-body" ∈ elems shell_page).
  { unfold shell_page. cbn [elems]. apply elem_of_list_to_set. compute_done. }
  split; [exact shell_page_ok|]. split; [exact Hbody|].
  do 3 (split; [reflexivity|]).
  destruct (url_components_as_built spaced_profile sample_projects sample_project
              shell_page shell_page_ok Hbody eq_refl eq_refl eq_refl)
    as (_ & _ & Hcontact & _ & Himg & _).
  split; [exact Hcontact|exact Himg].
Defined.

(** C5 as stated fails: the email address is not percent-encoded.  For the
    address [a b@example.org] the mailto link embeds no percent-encoded
    text between its scheme and its query. *)
Lemma mailto_address_is_not_encoded :
  ~ (forall address, exists enc,
       is_percent_encoded enc = true /\
       mailtoHref address = "mailto:" +:+ enc +:+ "?subject=Portfolio Inquiry").
Proof.
  intros Hclaim. destruct (Hclaim "a b@example.org") as (enc & Henc & Hhref).
  unfold mailtoHref in Hhref. apply (inj (String.append "mailto:")) in Hhref.
  destruct enc as [|c1 [|c2 enc]].
  - discriminate Hhref.
  - rewrite !append_cons in Hhref. injection Hhref as _ Hrest. discriminate Hrest.
  - rewrite !append_cons in Hhref. injection Hhref as <- <- _.
    discriminate Henc.
Qed.
